(** * AI Tab Organizer: the orchestration engine of the background worker

    A shallow embedding of the extension's background service worker
    (the single-flight job controller, the provider adapters and their
    router, the protection filter of the automatic flow, the close and
    group loops, the single-slot undo record) and of the popup's progress
    model, followed by the properties of the design document that the
    code satisfies, and by concrete runs where it departs from them.

    Conventions of the embedding.
    - JavaScript values that come out of [JSON.parse] are [JsValue]s;
      [undefined] is the [None] of an [option].
    - The host ([chrome.tabs], [chrome.tabGroups], [chrome.storage], [fetch],
      [Date.now]) is an [Env] of oracles: every theorem quantifies over all
      of its behaviours, a concrete run fixes one.
    - An [async] function is a computation in the monad [M] (state of the
      worker, plus a thrown exception); an [await] is a bind.  The worker is
      single threaded: a request that arrives while a job is suspended at an
      [await] sees the flag [isProcessing] set, which is how a state with
      [isProcessing = true] is read below.
    - [console] output is not part of the state. *)

From Stdlib Require Import Ascii String ZArith QArith Qround Lia Lqa Sorted.
From stdpp Require Import base option list gmap strings pretty sorting.

Set Warnings "-register-all".
Open Scope Z_scope.
Open Scope string_scope.

(** ** JavaScript strings *)

Module Str.

(** [s.indexOf(c)] for a one-character [c]; [-1] is [None]. *)
Fixpoint indexOf (c : ascii) (s : string) : option nat :=
  match s with
  | EmptyString => None
  | String a s' => if Ascii.eqb a c then Some 0%nat else S <$> indexOf c s'
  end.

(** [s.lastIndexOf(c)] for a one-character [c]; [-1] is [None]. *)
Fixpoint lastIndexOf (c : ascii) (s : string) : option nat :=
  match s with
  | EmptyString => None
  | String a s' =>
      match lastIndexOf c s' with
      | Some i => Some (S i)
      | None => if Ascii.eqb a c then Some 0%nat else None
      end
  end.

(** [s.slice(i, j)] for [0 <= i <= j]. *)
Definition slice (i j : nat) (s : string) : string :=
  String.substring i (j - i) s.

(** [s.startsWith(p)]. *)
Definition startsWith (p s : string) : bool := String.prefix p s.

(** [s.includes(p)]. *)
Fixpoint includes (p s : string) : bool :=
  String.prefix p s ||
  match s with
  | EmptyString => false
  | String _ s' => includes p s'
  end.

Definition lower_ascii (a : ascii) : ascii :=
  let n := nat_of_ascii a in
  if (65 <=? n)%nat && (n <=? 90)%nat then ascii_of_nat (n + 32) else a.

(** [s.toLowerCase()] on the ASCII range, which holds the provider names. *)
Fixpoint toLowerCase (s : string) : string :=
  match s with
  | EmptyString => EmptyString
  | String a s' => String (lower_ascii a) (toLowerCase s')
  end.

(** [s || d]: the empty string is falsy. *)
Definition or_else (s d : string) : string :=
  if String.eqb s "" then d else s.

End Str.

(** ** JavaScript values *)

(** What [JSON.parse] builds, with numbers restricted to the integers (tab
    ids, counts).  An array is an object too: [props] holds the properties
    that an assignment such as [parsed.tabsToClose = []] adds to it. *)
Inductive JsValue : Type :=
  | JNull
  | JBool (b : bool)
  | JNum (z : Z)
  | JStr (s : string)
  | JArr (elems : list JsValue) (props : list (string * JsValue))
  | JObj (props : list (string * JsValue)).

Module Js.

Fixpoint assoc_get (k : string) (ps : list (string * JsValue)) : option JsValue :=
  match ps with
  | [] => None
  | (k', v) :: ps' => if String.eqb k' k then Some v else assoc_get k ps'
  end.

(** Assignment keeps the position of a property that exists already. *)
Fixpoint assoc_set (k : string) (v : JsValue) (ps : list (string * JsValue))
  : list (string * JsValue) :=
  match ps with
  | [] => [(k, v)]
  | (k', v') :: ps' =>
      if String.eqb k' k then (k, v) :: ps' else (k', v') :: assoc_set k v ps'
  end.

(** [v.k] for a [v] that is neither [null] nor [undefined], and a [k] that
    is a plain property name (not [length], not an index): the names read
    by the worker are [tabsToClose], [tabGroups], [reasoning], [tabIds],
    [name] and [color]. *)
Definition get (v : JsValue) (k : string) : option JsValue :=
  match v with
  | JObj ps => assoc_get k ps
  | JArr _ ps => assoc_get k ps
  | _ => None
  end.

(** [v.k = x].  The worker is a classic script with no strict-mode
    directive: assigning to a property of a primitive does nothing. *)
Definition set (v : JsValue) (k : string) (x : JsValue) : JsValue :=
  match v with
  | JObj ps => JObj (assoc_set k x ps)
  | JArr es ps => JArr es (assoc_set k x ps)
  | _ => v
  end.

(** [Array.isArray(o) ? elements : none], for an optional [o]. *)
Definition as_array (o : option JsValue) : option (list JsValue) :=
  match o with
  | Some (JArr es _) => Some es
  | _ => None
  end.

Definition isArray (o : option JsValue) : bool := bool_decide (is_Some (as_array o)).

(** [typeof o === "string" ? o : none]. *)
Definition as_string (o : option JsValue) : option string :=
  match o with
  | Some (JStr s) => Some s
  | _ => None
  end.

(** Truthiness, for [x || d]. *)
Definition truthy (o : option JsValue) : bool :=
  match o with
  | None | Some JNull | Some (JBool false) | Some (JNum 0) => false
  | Some (JStr s) => negb (String.eqb s "")
  | Some _ => true
  end.

End Js.

(** ** The host's items, the journal and the progress messages *)

(** A tab as [chrome.tabs.query] returns it.  A missing [url] is the empty
    string, which is what [original.url || ""] makes of it. *)
Record Tab : Type := mkTab {
  tab_id : Z;
  tab_url : string;
  tab_title : string;
  tab_windowId : Z;
  tab_index : Z;
  tab_active : bool;
  tab_pinned : bool;
}.

(** An element of [tabData]; the extracted [content] only feeds the prompt. *)
Record TabData : Type := mkTabData {
  td_id : Z;
  td_url : string;
  td_title : string;
}.

(** An element of [closedTabs]: [{url, windowId, index, active, pinned}]. *)
Record ClosedMeta : Type := mkClosedMeta {
  meta_url : string;
  meta_windowId : Z;
  meta_index : Z;
  meta_active : bool;
  meta_pinned : bool;
}.

(** The [type] of a stored action: ["close"], ["organize"], ["group"],
    ["none"].  The design document calls them remove, composite, group and
    none. *)
Inductive ActionType : Type := TClose | TOrganize | TGroup | TNone.

(** The value under the key [lastAction] of [chrome.storage.local]. *)
Record Action : Type := mkAction {
  type : ActionType;
  closedTabs : list ClosedMeta;
  groupedTabIds : list (list JsValue);
  timestamp : Z;
}.

(** The messages [{type: "progress", stage, ...data}] of [sendProgress], one
    constructor per stage. *)
Inductive Progress : Type :=
  | P_start
  | P_tabs_collected (total : nat)
  | P_extract_progress (completed total : nat) (tabId : Z)
  | P_ai_request (totalTabs : nat)
  | P_ai_response (tabsToClose groups : nat) (reasoning : string)
  | P_closing_progress (closed total : nat) (tabId : JsValue)
  | P_closing_done (closed : nat)
  | P_group_progress (grouped total : nat) (name : option JsValue) (count : nat)
  | P_grouping_done (groupsCreated : nat)
  | P_complete
  | P_error (message : string)
  | P_undo_start
  | P_undo_grouping_progress (processed total : nat)
  | P_undo_grouping_done (processed : nat)
  | P_undo_reopen_progress (reopened total : nat)
  | P_undo_reopen_done (reopened : nat)
  | P_undo_complete.

(** A call of the host that changed the tab collection (the ones that were
    rejected leave no trace). *)
Inductive HostCall : Type :=
  | H_remove (tabId : JsValue)
  | H_remove_many (tabIds : list Z)
  | H_group (tabIds : list JsValue) (groupId : Z)
  | H_group_update (groupId : Z) (title : option JsValue) (color : JsValue)
  | H_ungroup (tabIds : list JsValue)
  | H_create (url : string) (windowId : option Z) (createdId : Z)
  | H_move (tabId index windowId : Z)
  | H_pin (tabId : Z).

(** ** The worker's state *)

(** The globals of the worker ([isProcessing], [recentTouch]), the slot
    [lastAction] of [chrome.storage.local], and two logs of what the worker
    did to the outside: the messages it sent and the host calls that
    succeeded. *)
Record Bg : Type := mkBg {
  isProcessing : bool;
  lastAction : option Action;     (* chrome.storage.local *)
  recentTouch : gmap Z Z;         (* tab id -> Date.now() of its last touch *)
  sent : list Progress;           (* what sendProgress sent, oldest first *)
  host : list HostCall;           (* host calls that succeeded, oldest first *)
}.

Definition set_isProcessing (b : bool) (s : Bg) : Bg :=
  mkBg b (lastAction s) (recentTouch s) (sent s) (host s).
Definition set_lastAction (a : option Action) (s : Bg) : Bg :=
  mkBg (isProcessing s) a (recentTouch s) (sent s) (host s).
Definition set_recentTouch (m : gmap Z Z) (s : Bg) : Bg :=
  mkBg (isProcessing s) (lastAction s) m (sent s) (host s).
Definition add_sent (p : Progress) (s : Bg) : Bg :=
  mkBg (isProcessing s) (lastAction s) (recentTouch s) (sent s ++ [p]) (host s).
Definition add_host (c : HostCall) (s : Bg) : Bg :=
  mkBg (isProcessing s) (lastAction s) (recentTouch s) (sent s) (host s ++ [c]).

(** ** The host as oracles *)

Definition Exn : Type := string.

(** What [chrome.storage.sync.get] resolves to; a key that was never set is
    [None]. *)
Record Stored : Type := mkStored {
  st_importanceThreshold : option Z;
  st_autoClose : option bool;
  st_autoOrganize : option bool;
  st_apiKey : option string;
  st_geminiKey : option string;
  st_claudeKey : option string;
  st_providerAnalyze : option string;
  st_modelAnalyze : option string;
  st_providerClose : option string;
  st_modelClose : option string;
  st_providerAuto : option string;
  st_modelAuto : option string;
}.

(** The [settings] of a request: [typeof settings.importanceThreshold ===
    "number"] and [typeof settings.autoClose === "boolean"] are the [Some]s. *)
Record Settings : Type := mkSettings {
  set_importanceThreshold : option Z;
  set_autoClose : option bool;
}.

(** What one call of a provider's endpoint does.  [Envelope text rawText]
    is a JSON envelope in which the optional chain to the answer
    ([choices[0].message.content], [candidates[0].content.parts[0].text] and
    [.rawText], [content[0].text]) ends on these strings, [None] when a link
    of the chain is missing. *)
Inductive HttpOutcome : Type :=
  | FetchRejects (message : string)            (* fetch itself rejects *)
  | NotOk (status : Z) (errText : string)      (* res.ok is false *)
  | JsonRejects (message : string)             (* res.json() rejects *)
  | Envelope (text rawText : option string).

(** The request, without its prompt (which only the endpoint reads). *)
Record Request : Type := mkRequest {
  req_endpoint : string;
  req_model : string;
  req_key : option string;
  req_threshold : Z;
}.

(** What the host answers during one run.  The calls made inside a loop
    are numbered by the position of the iteration, so that the same tab can
    be removed once and be gone the next time. *)
Record Env : Type := mkEnv {
  nowTs : Z;                                         (* Date.now() in the filter *)
  recordTs : Z;                                      (* Date.now() in setLastAction *)
  storage_sync_get : nat -> Exn + Stored;            (* by call number in the run *)
  tabs_query : Exn + list Tab;                       (* chrome.tabs.query({}) *)
  tabs_query_current : Exn + list Tab;               (* {active, currentWindow} *)
  fetch : Request -> HttpOutcome;
  tabs_remove_ok : nat -> JsValue -> bool;           (* by position in the loop *)
  tabs_remove_many_ok : list Z -> bool;
  tabs_group : nat -> list JsValue -> option Z;      (* the new group's id *)
  tabGroups_update_ok : nat -> Z -> bool;
  tabs_ungroup_ok : nat -> list JsValue -> bool;
  tabs_create : nat -> string -> option Z -> option (Z * Z);  (* (id, windowId) *)
  tabs_move_ok : nat -> Z -> bool;
  tabs_update_ok : nat -> Z -> bool;
  local_get_ok : bool;                               (* chrome.storage.local *)
  local_set_ok : bool;
  local_remove_ok : bool;
  shuffled : list string;                            (* debugUrls after sort(random) *)
}.

(** ** The monad of async functions *)

Inductive Res (A : Type) : Type :=
  | Ok (a : A)
  | Throw (e : Exn).
Arguments Ok {A} a.
Arguments Throw {A} e.

Definition M (A : Type) : Type := Bg -> Res A * Bg.

Definition ret {A} (a : A) : M A := fun s => (Ok a, s).
Definition throw {A} (e : Exn) : M A := fun s => (Throw e, s).
Definition bind {A B} (m : M A) (k : A -> M B) : M B :=
  fun s => match m s with
           | (Ok a, s') => k a s'
           | (Throw e, s') => (Throw e, s')
           end.
Definition modify (f : Bg -> Bg) : M unit := fun s => (Ok tt, f s).
Definition gets {A} (f : Bg -> A) : M A := fun s => (Ok (f s), s).

(** [try { m } catch (e) { h e }]. *)
Definition try_catch {A} (m : M A) (h : Exn -> M A) : M A :=
  fun s => match m s with
           | (Ok a, s') => (Ok a, s')
           | (Throw e, s') => h e s'
           end.

(** [try { m } finally { f }], for an [f] that cannot throw. *)
Definition try_finally {A} (m : M A) (f : Bg -> Bg) : M A :=
  fun s => let '(r, s') := m s in (r, f s').

(** An awaited host promise: resolved or rejected. *)
Definition await {A} (r : Exn + A) : M A :=
  match r with
  | inr a => ret a
  | inl e => throw e
  end.

#[global] Instance M_ret : MRet M := @ret.
#[global] Instance M_bind : MBind M := fun A B k m => bind m k.

(** [sendProgress(stage, data)]: the [try] around [sendMessage] makes it
    total; a missing listener is not an error. *)
Definition sendProgress (p : Progress) : M unit := modify (add_sent p).

(** ** The worker

    [JSON_parse] is the built-in [JSON.parse]: [None] is a thrown
    [SyntaxError].  Nothing is assumed of it in the definitions. *)

Section Worker.

Variable JSON_parse : string -> option JsValue.
Variable env : Env.

(** *** The journal: [setLastAction], [getLastAction], [clearLastAction] *)

(** [{ ...action, timestamp: Date.now() }]; a rejected [set] is swallowed. *)
Definition setLastAction (t : ActionType) (closed : list ClosedMeta)
    (grouped : list (list JsValue)) : M unit :=
  if local_set_ok env
  then modify (set_lastAction (Some (mkAction t closed grouped (recordTs env))))
  else mret tt.

(** [lastAction || null]; a rejected [get] reads as [null]. *)
Definition getLastAction : M (option Action) :=
  if local_get_ok env then gets lastAction else mret None.

Definition clearLastAction : M unit :=
  if local_remove_ok env then modify (set_lastAction None) else mret tt.

(** *** The provider adapters *)

(** [o || d] for an optional string. *)
Definition opt_or (o : option string) (d : string) : string :=
  match o with
  | Some s => Str.or_else s d
  | None => d
  end.

(** The value an adapter resolves to, and the error its outer [catch]
    caught, if the fallback was taken. *)
Record Analysis : Type := mkAnalysis {
  analysis : JsValue;
  caught : option Exn;
}.

(** The fallback object of the [catch] blocks. *)
Definition fallback (provider : string) (tabData : list TabData) : JsValue :=
  JObj [ ("tabsToClose", JArr [] []);
         ("tabGroups",
          JArr [ JObj [ ("name", JStr "All Tabs");
                        ("color", JStr "purple");
                        ("tabIds", JArr (map (fun t => JNum (td_id t)) tabData) []) ] ] []);
         ("reasoning", JStr (provider ++ " error - basic grouping applied")) ].

(** The parsing block that the three adapters repeat, their name apart:
    [JSON.parse(text)], and in its [catch] the slice from the first opening
    brace to the last closing one. *)
Definition parseModelText (provider : string) (text : string) : Exn + JsValue :=
  match JSON_parse text with
  | Some parsed => inr parsed
  | None =>
      match Str.indexOf "{" text, Str.lastIndexOf "}" text with
      | Some start, Some end_ =>
          if (start <? end_)%nat then
            match JSON_parse (Str.slice start (S end_) text) with
            | Some parsed => inr parsed
            | None => inl "SyntaxError: Unexpected token in JSON"
            end
          else inl (provider ++ " response was not valid JSON")
      | _, _ => inl (provider ++ " response was not valid JSON")
      end
  end.

(** [if (!Array.isArray(parsed.tabsToClose)) parsed.tabsToClose = [];] and
    the same for [tabGroups]; reading a property of [null] throws. *)
Definition ensureArrays (parsed : JsValue) : Exn + JsValue :=
  match parsed with
  | JNull => inl "TypeError: Cannot read properties of null"
  | _ =>
      let p1 := if Js.isArray (Js.get parsed "tabsToClose") then parsed
                else Js.set parsed "tabsToClose" (JArr [] []) in
      let p2 := if Js.isArray (Js.get p1 "tabGroups") then p1
                else Js.set p1 "tabGroups" (JArr [] []) in
      inr p2
  end.

(** The [try] block of an adapter from the response on. *)
Definition readResponse (provider : string) (pick : option string -> option string -> string)
    (r : HttpOutcome) : Exn + JsValue :=
  match r with
  | FetchRejects m => inl m
  | NotOk status errText =>
      inl (provider ++ " API error: " ++ pretty status ++ " " ++ errText)
  | JsonRejects m => inl m
  | Envelope text rawText =>
      match parseModelText provider (pick text rawText) with
      | inl e => inl e
      | inr parsed => ensureArrays parsed
      end
  end.

(** [try { ... return parsed } catch (e) { return fallback }]. *)
Definition withFallback (provider : string) (tabData : list TabData)
    (r : Exn + JsValue) : Analysis :=
  match r with
  | inr parsed => mkAnalysis parsed None
  | inl e => mkAnalysis (fallback provider tabData) (Some e)
  end.

(** [data?.choices?.[0]?.message?.content || "{}"]. *)
Definition pick_content (text _rawText : option string) : string :=
  opt_or text "{}".

(** [...parts?.[0]?.text || ...parts?.[0]?.rawText || "{}"]. *)
Definition pick_text_or_raw (text rawText : option string) : string :=
  opt_or text (opt_or rawText "{}").

(** The three requests: endpoint, model, credential. *)
Definition openai_request (apiKey model : option string) (threshold : Z) : Request :=
  mkRequest "https://api.openai.com/v1/chat/completions"
            (opt_or model "gpt-4.1") apiKey threshold.

Definition gemini_request (geminiKey : option string) (threshold : Z) : Request :=
  mkRequest
    "https://generativelanguage.googleapis.com/v1beta/models/gemini-2.5-flash-lite:generateContent"
    "gemini-2.5-flash-lite" geminiKey threshold.

Definition claude_request (claudeKey model : option string) (threshold : Z) : Request :=
  mkRequest "https://api.anthropic.com/v1/messages"
            (opt_or model "claude-3-5-sonnet-latest") claudeKey threshold.

Definition analyzeTabsWithOpenAI (tabData : list TabData)
    (apiKey : option string) (model : option string) (importanceThreshold : Z) : Analysis :=
  withFallback "OpenAI" tabData
    (readResponse "OpenAI" pick_content
       (fetch env (openai_request apiKey model importanceThreshold))).

Definition analyzeTabsWithGemini (tabData : list TabData)
    (geminiKey : option string) (importanceThreshold : Z) : Analysis :=
  withFallback "Gemini" tabData
    (readResponse "Gemini" pick_text_or_raw
       (fetch env (gemini_request geminiKey importanceThreshold))).

Definition analyzeTabsWithClaude (tabData : list TabData)
    (claudeKey : option string) (model : option string) (importanceThreshold : Z) : Analysis :=
  withFallback "Claude" tabData
    (readResponse "Claude" pick_content
       (fetch env (claude_request claudeKey model importanceThreshold))).

(** The [keys] object handed to the router. *)
Record Keys : Type := mkKeys {
  k_apiKey : option string;
  k_geminiKey : option string;
  k_claudeKey : option string;
}.

(** The router: [(provider || "openai").toLowerCase()]. *)
Definition analyzeTabs (tabData : list TabData) (provider : option string)
    (model : option string) (importanceThreshold : Z) (keys : Keys) : Analysis :=
  let prov := Str.toLowerCase (opt_or provider "openai") in
  if String.eqb prov "gemini" then
    analyzeTabsWithGemini tabData (k_geminiKey keys) importanceThreshold
  else if String.eqb prov "claude" then
    analyzeTabsWithClaude tabData (k_claudeKey keys) model importanceThreshold
  else
    analyzeTabsWithOpenAI tabData (k_apiKey keys) (Some (opt_or model "gpt-4.1"))
                          importanceThreshold.

(** *** The loops shared by the pipelines

    [organizeTabsAndClose], [closeLowImportance] and [organizeTabsGeneric]
    each inline the same extraction, closing and grouping loops (they
    differ in what they print on the console); the loops are defined once
    here. *)

(** [idToTab]: [tabs.forEach((t) => idToTab.set(t.id, t))]. *)
Definition build_idToTab (tabs : list Tab) : gmap Z Tab :=
  foldl (fun m t => <[tab_id t := t]> m) ∅ tabs.

(** [idToTab.get(tid)]: the keys are numbers, so only a number finds one. *)
Definition idToTab_get (idToTab : gmap Z Tab) (tid : JsValue) : option Tab :=
  match tid with
  | JNum z => idToTab !! z
  | _ => None
  end.

(** The extraction loop.  [extractTabContent] never rejects, and what it
    returns only reaches the prompt. *)
Fixpoint extract_loop (total i : nat) (tabs : list Tab) (tabData : list TabData)
  : M (list TabData) :=
  match tabs with
  | [] => mret tabData
  | t :: rest =>
      sendProgress (P_extract_progress (S i) total (tab_id t));;
      extract_loop total (S i) rest
        (tabData ++ [mkTabData (tab_id t) (tab_url t) (tab_title t)])
  end.

(** [if (original && original.url) closedTabsMeta.push({...})]. *)
Definition push_meta (idToTab : gmap Z Tab) (tabId : JsValue)
    (closedTabsMeta : list ClosedMeta) : list ClosedMeta :=
  match idToTab_get idToTab tabId with
  | Some original =>
      if String.eqb (tab_url original) "" then closedTabsMeta
      else closedTabsMeta ++
             [mkClosedMeta (tab_url original) (tab_windowId original)
                (tab_index original) (tab_active original) (tab_pinned original)]
  | None => closedTabsMeta
  end.

(** The closing loop: [for (const tabId of analysis.tabsToClose) { try {...}
    catch {} }].  The metadata is pushed before the removal is tried. *)
Fixpoint close_loop (idToTab : gmap Z Tab) (total i : nat) (ids : list JsValue)
    (closed : nat) (closedTabsMeta : list ClosedMeta) : M (nat * list ClosedMeta) :=
  match ids with
  | [] => mret (closed, closedTabsMeta)
  | tabId :: rest =>
      let metas := push_meta idToTab tabId closedTabsMeta in
      if tabs_remove_ok env i tabId then
        modify (add_host (H_remove tabId));;
        sendProgress (P_closing_progress (S closed) total tabId);;
        close_loop idToTab total (S i) rest (S closed) metas
      else
        close_loop idToTab total (S i) rest closed metas
  end.

(** The closing stage, entered when its guard holds. *)
Definition closeTabs (idToTab : gmap Z Tab) (ids : list JsValue)
  : M (list ClosedMeta) :=
  '(closed, metas) ← close_loop idToTab (length ids) 0 ids 0 [];
  sendProgress (P_closing_done closed);;
  mret metas.

(** [group.color || "purple"]. *)
Definition color_or_purple (group : JsValue) : JsValue :=
  if Js.truthy (Js.get group "color")
  then default (JStr "purple") (Js.get group "color")
  else JStr "purple".

(** The grouping loop.  A [null] group throws on [group.tabIds]; a rejected
    [chrome.tabs.group] or [chrome.tabGroups.update] ends the iteration
    before [grouped++]. *)
Fixpoint group_loop (total i : nat) (groups : list JsValue) (grouped : nat)
    (groupedTabIds : list (list JsValue)) : M (nat * list (list JsValue)) :=
  match groups with
  | [] => mret (grouped, groupedTabIds)
  | group :: rest =>
      let continue := group_loop total (S i) rest grouped groupedTabIds in
      match group with
      | JNull => continue
      | _ =>
          match Js.as_array (Js.get group "tabIds") with
          | None | Some [] => continue
          | Some tabIds =>
              match tabs_group env i tabIds with
              | None => continue
              | Some gid =>
                  modify (add_host (H_group tabIds gid));;
                  if tabGroups_update_ok env i gid then
                    modify (add_host (H_group_update gid (Js.get group "name")
                                        (color_or_purple group)));;
                    sendProgress (P_group_progress (S grouped) total
                                    (Js.get group "name") (length tabIds));;
                    group_loop total (S i) rest (S grouped) (groupedTabIds ++ [tabIds])
                  else continue
              end
          end
      end
  end.

(** The grouping stage: [if (Array.isArray(analysis.tabGroups) &&
    analysis.tabGroups.length) {...}]. *)
Definition groupTabs (tabGroups : option (list JsValue)) : M (list (list JsValue)) :=
  match tabGroups with
  | None | Some [] => mret []
  | Some groups =>
      '(grouped, groupedTabIds) ← group_loop (length groups) 0 groups 0 [];
      sendProgress (P_grouping_done grouped);;
      mret groupedTabIds
  end.

(** [analysis.k]: the adapters never resolve to [null], on which the read
    would throw. *)
Definition analysis_get (a : JsValue) (k : string) : M (option JsValue) :=
  match a with
  | JNull => throw "TypeError: Cannot read properties of null"
  | _ => mret (Js.get a k)
  end.

(** [sendProgress("ai_response", {...})]; [withGroups] is false in the
    close-only pipeline, which sends [groups: 0]. *)
Definition send_ai_response (a : JsValue) (withGroups : bool) : M unit :=
  toClose ← analysis_get a "tabsToClose";
  tabGroups ← analysis_get a "tabGroups";
  reasoning ← analysis_get a "reasoning";
  sendProgress
    (P_ai_response
       (from_option length 0%nat (Js.as_array toClose))
       (if withGroups then from_option length 0%nat (Js.as_array tabGroups) else 0%nat)
       (from_option (Str.slice 0 300) "" (Js.as_string reasoning))).

(** [autoClose ? (groupedTabIds.length ? "organize" : "close")
              : (groupedTabIds.length ? "group" : "none")]. *)
Definition action_type_of (autoClose : bool) (groupedTabIds : list (list JsValue))
  : ActionType :=
  if autoClose
  then (if bool_decide (groupedTabIds = []) then TClose else TOrganize)
  else (if bool_decide (groupedTabIds = []) then TNone else TGroup).

(** The model a pipeline falls back on when none is stored. *)
Definition default_model (provider : string) : string :=
  if String.eqb provider "gemini" then "gemini-2.5-flash-lite"
  else if String.eqb provider "openai" then "gpt-4.1"
  else "claude-3-5-sonnet-latest".

(** [try { body } catch (e) { sendProgress("error", ...) } finally {
    isProcessing = false }], the frame of every pipeline. *)
Definition guarded (body : M unit) : M unit :=
  try_finally
    (try_catch body (fun e => sendProgress (P_error e)))
    (set_isProcessing false).

(** *** The protection filter of the automatic flow *)

(** [url.startsWith("chrome://") || url.startsWith("chrome-extension://") ||
    url === "about:blank" || url.includes("newtab")]. *)
Definition protected_url (url : string) : bool :=
  Str.startsWith "chrome://" url || Str.startsWith "chrome-extension://" url
  || String.eqb url "about:blank" || Str.includes "newtab" url.

(** [new Set(tabs.filter((t) => t && t.active).map((t) => t.id))]. *)
Definition build_protectActive (tabs : list Tab) : gset Z :=
  list_to_set (tab_id <$> List.filter tab_active tabs).

(** [touched && nowTs - touched < 30000], for [touched = recentTouch.get(z)]. *)
Definition recently_touched (touch : gmap Z Z) (now : Z) (z : Z) : bool :=
  match touch !! z with
  | Some touched => negb (Z.eqb touched 0) && Z.ltb (now - touched) 30000
  | None => false
  end.

(** The callback of [analysis.tabsToClose.filter((tid) => {...})]. *)
Definition keep_candidate (idToTab : gmap Z Tab) (protectActive : gset Z)
    (touch : gmap Z Z) (now : Z) (tid : JsValue) : bool :=
  match tid with
  | JNum z =>
      match idToTab !! z with
      | None => false
      | Some original =>
          if bool_decide (z ∈ protectActive) then false
          else if protected_url (tab_url original) then false
          else if recently_touched touch now z then false
          else true
      end
  | _ => false
  end.

(** *** The pipelines *)

(** [organizeTabsGeneric({provider, model, keys, importanceThreshold,
    autoClose})], the organizer of the automatic flow. *)
Definition organizeTabsGeneric (provider model : string) (keys : Keys)
    (importanceThreshold : Z) (autoClose : bool) : M unit :=
  busy ← gets isProcessing;
  if (busy : bool) then mret tt else
  modify (set_isProcessing true);;
  sendProgress P_start;;
  guarded (
    tabs ← await (tabs_query env);
    sendProgress (P_tabs_collected (length tabs));;
    tabData ← extract_loop (length tabs) 0 tabs [];
    sendProgress (P_ai_request (length tabData));;
    let a := analysis (analyzeTabs tabData (Some provider) (Some model)
                         importanceThreshold keys) in
    send_ai_response a true;;
    let idToTab := build_idToTab tabs in
    let protectActive := build_protectActive tabs in
    touch ← gets recentTouch;
    toClose ← analysis_get a "tabsToClose";
    let tabsToClose :=
      List.filter (keep_candidate idToTab protectActive touch (nowTs env))
        <$> Js.as_array toClose in
    closedTabsMeta ←
      match tabsToClose with
      | Some ids => if autoClose then closeTabs idToTab ids else mret []
      | None => mret []
      end;
    tabGroups ← analysis_get a "tabGroups";
    groupedTabIds ← groupTabs (Js.as_array tabGroups);
    setLastAction (action_type_of autoClose groupedTabIds) closedTabsMeta groupedTabIds;;
    sendProgress P_complete).

(** The callback of the debounce timer of [autoOrganizeIfEnabled], over the
    settings read when the timer was set.  The built-in default key stands
    in for a missing [geminiKey]. *)
Definition autoOrganizeCallback (stored : Stored) : M unit :=
  let provider := Str.toLowerCase (opt_or (st_providerAuto stored) "gemini") in
  let model := opt_or (st_modelAuto stored) (default_model provider) in
  organizeTabsGeneric provider model
    (mkKeys (st_apiKey stored)
            (Some (opt_or (st_geminiKey stored) "<built-in default key>"))
            (st_claudeKey stored))
    (default 5 (st_importanceThreshold stored))
    false.

(** [autoOrganizeIfEnabled], with the 1500 ms of the debounce elided: the
    callback runs at once. *)
Definition autoOrganizeIfEnabled : M unit :=
  match storage_sync_get env 0 with
  | inr stored =>
      if default false (st_autoOrganize stored)
      then autoOrganizeCallback stored
      else mret tt
  | inl _ => mret tt
  end.

(** The listeners that feed [recentTouch]. *)
Definition touch_tab (tabId now : Z) : M unit :=
  modify (fun s => set_recentTouch (<[tabId := now]> (recentTouch s)) s).

Definition onCreated (tabId now : Z) : M unit := touch_tab tabId now.

Definition onUpdated (tabId now : Z) (complete : bool) : M unit :=
  if complete then touch_tab tabId now;; autoOrganizeIfEnabled else mret tt.

(** [organizeTabsAndClose(settings)], the full pipeline. *)
Definition organizeTabsAndClose (settings : Settings) : M unit :=
  busy ← gets isProcessing;
  if (busy : bool) then mret tt else
  modify (set_isProcessing true);;
  sendProgress P_start;;
  guarded (
    storedKeys ← await (storage_sync_get env 0);
    let provider := Str.toLowerCase (opt_or (st_providerAnalyze storedKeys) "openai") in
    let model := opt_or (st_modelAnalyze storedKeys) (default_model provider) in
    stored ← await (storage_sync_get env 1);
    let importanceThreshold :=
      default (default 5 (st_importanceThreshold stored))
              (set_importanceThreshold settings) in
    let autoClose :=
      default (default false (st_autoClose stored)) (set_autoClose settings) in
    tabs ← await (tabs_query env);
    sendProgress (P_tabs_collected (length tabs));;
    tabData ← extract_loop (length tabs) 0 tabs [];
    sendProgress (P_ai_request (length tabData));;
    let a := analysis (analyzeTabs tabData (Some provider) (Some model)
                         importanceThreshold
                         (mkKeys (st_apiKey storedKeys) (st_geminiKey storedKeys)
                                 (st_claudeKey storedKeys))) in
    send_ai_response a true;;
    let idToTab := build_idToTab tabs in
    toClose ← analysis_get a "tabsToClose";
    closedTabsMeta ←
      match Js.as_array toClose with
      | Some ids => if autoClose then closeTabs idToTab ids else mret []
      | None => mret []
      end;
    tabGroups ← analysis_get a "tabGroups";
    groupedTabIds ← groupTabs (Js.as_array tabGroups);
    setLastAction (action_type_of autoClose groupedTabIds) closedTabsMeta groupedTabIds;;
    sendProgress P_complete).

(** [closeLowImportance(settings)], the close-only pipeline. *)
Definition closeLowImportance (settings : Settings) : M unit :=
  busy ← gets isProcessing;
  if (busy : bool) then mret tt else
  modify (set_isProcessing true);;
  sendProgress P_start;;
  guarded (
    storedKeys ← await (storage_sync_get env 0);
    let provider := Str.toLowerCase (opt_or (st_providerClose storedKeys) "openai") in
    let model := opt_or (st_modelClose storedKeys) (default_model provider) in
    stored ← await (storage_sync_get env 1);
    let importanceThreshold :=
      default (default 5 (st_importanceThreshold stored))
              (set_importanceThreshold settings) in
    tabs ← await (tabs_query env);
    sendProgress (P_tabs_collected (length tabs));;
    tabData ← extract_loop (length tabs) 0 tabs [];
    sendProgress (P_ai_request (length tabData));;
    let a := analysis (analyzeTabs tabData (Some provider) (Some model)
                         importanceThreshold
                         (mkKeys (st_apiKey storedKeys) (st_geminiKey storedKeys)
                                 (st_claudeKey storedKeys))) in
    send_ai_response a false;;
    let idToTab := build_idToTab tabs in
    toClose ← analysis_get a "tabsToClose";
    closedTabsMeta ←
      match Js.as_array toClose with
      | Some ids => closeTabs idToTab ids
      | None => mret []
      end;
    setLastAction TClose closedTabsMeta [];;
    sendProgress P_complete).

(** *** Undo *)

(** The ungrouping loop: a rejected [chrome.tabs.ungroup] still counts as
    processed, without a progress message. *)
Fixpoint ungroup_loop (total i : nat) (batches : list (list JsValue))
    (processed : nat) : M nat :=
  match batches with
  | [] => mret processed
  | tabIds :: rest =>
      if tabs_ungroup_ok env i tabIds then
        modify (add_host (H_ungroup tabIds));;
        sendProgress (P_undo_grouping_progress (S processed) total);;
        ungroup_loop total (S i) rest (S processed)
      else
        ungroup_loop total (S i) rest (S processed)
  end.

(** The reopening loop: create in the original window, then move and pin,
    each on its own [try]; when the creation is rejected, create in the
    current window instead. *)
Fixpoint reopen_loop (total i : nat) (metas : list ClosedMeta) (reopened : nat)
  : M nat :=
  match metas with
  | [] => mret reopened
  | meta :: rest =>
      match tabs_create env i (meta_url meta) (Some (meta_windowId meta)) with
      | Some (createdId, createdWindow) =>
          modify (add_host (H_create (meta_url meta) (Some (meta_windowId meta)) createdId));;
          (if (0 <=? meta_index meta)%Z && tabs_move_ok env i createdId
           then modify (add_host (H_move createdId (meta_index meta) createdWindow))
           else mret tt);;
          (if meta_pinned meta && tabs_update_ok env i createdId
           then modify (add_host (H_pin createdId))
           else mret tt);;
          sendProgress (P_undo_reopen_progress (S reopened) total);;
          reopen_loop total (S i) rest (S reopened)
      | None =>
          match tabs_create env i (meta_url meta) None with
          | Some (createdId, _) =>
              modify (add_host (H_create (meta_url meta) None createdId));;
              sendProgress (P_undo_reopen_progress (S reopened) total);;
              reopen_loop total (S i) rest (S reopened)
          | None => reopen_loop total (S i) rest reopened
          end
      end
  end.

(** [if (!action || action.type === "none") {...; return;}]. *)
Definition nothing_to_undo (action : option Action) : bool :=
  match action with
  | None => true
  | Some a => match type a with TNone => true | _ => false end
  end.

(** [undoLastAction()]. *)
Definition undoLastAction : M unit :=
  busy ← gets isProcessing;
  if (busy : bool) then mret tt else
  modify (set_isProcessing true);;
  sendProgress P_undo_start;;
  try_finally
    (try_catch
       (action ← getLastAction;
        if nothing_to_undo action then
          sendProgress (P_error "Nothing to undo.");;
          modify (set_isProcessing false)
        else
          let batches := from_option groupedTabIds [] action in
          let metas := from_option closedTabs [] action in
          (match batches with
           | [] => mret tt
           | _ =>
               processed ← ungroup_loop (length batches) 0 batches 0;
               sendProgress (P_undo_grouping_done processed)
           end);;
          (match metas with
           | [] => mret tt
           | _ =>
               reopened ← reopen_loop (length metas) 0 metas 0;
               sendProgress (P_undo_reopen_done reopened)
           end);;
          clearLastAction;;
          sendProgress P_undo_complete)
       (fun e => sendProgress (P_error ("Undo failed: " ++ e))))
    (set_isProcessing false).

(** *** The debug helpers *)

(** [createDebugTabs()]: [shuffled.slice(0, selectedCount)] is the whole
    shuffled list, which has ten urls and at least eighteen are asked for. *)
Fixpoint create_debug_loop (i : nat) (urls : list string) : M unit :=
  match urls with
  | [] => mret tt
  | url :: rest =>
      match tabs_create env i url None with
      | Some (createdId, _) => modify (add_host (H_create url None createdId))
      | None => mret tt
      end;;
      create_debug_loop (S i) rest
  end.

Definition createDebugTabs : M unit := create_debug_loop 0 (shuffled env).

(** [debugCloseAllTabs()]. *)
Definition debugCloseAllTabs : M unit :=
  try_catch
    (tabs ← await (tabs_query env);
     current ← await (tabs_query_current env);
     let currentId := tab_id <$> head current in
     let others := List.filter (fun t => bool_decide (Some (tab_id t) ≠ currentId)) tabs in
     let toClose := tab_id <$> others in
     let closedTabsMeta :=
       (fun t => mkClosedMeta (tab_url t) (tab_windowId t) (tab_index t)
                   (tab_active t) (tab_pinned t))
         <$> List.filter (fun t => negb (String.eqb (tab_url t) "")) others in
     (match toClose with
      | [] => mret tt
      | _ => if tabs_remove_many_ok env toClose
             then modify (add_host (H_remove_many toClose))
             else throw "Error: tabs cannot be removed"
      end);;
     setLastAction TClose closedTabsMeta [])
    (fun _ => mret tt).

(** *** The message listener *)

Inductive Message : Type :=
  | A_organizeTabsAndClose (settings : option Settings)
  | A_debugCreateTabs
  | A_debugCloseAllTabs
  | A_closeLowImportance (settings : option Settings)
  | A_undoLastAction
  | A_getTabCount
  | A_getStoredSettings
  | A_other (action : string).

(** What [sendResponse] is called with. *)
Inductive Response : Type :=
  | R_success                         (* { success: true } *)
  | R_failure (error : string)        (* { success: false, error } *)
  | R_count (count : nat)
  | R_stored (data : Stored).

(** [request.settings || {}]. *)
Definition settings_or_empty (o : option Settings) : Settings :=
  default (mkSettings None None) o.

(** The body of the listener; a [Throw] is the rejection of its async
    function, on which [sendResponse] is never called. *)
Definition onMessage (request : Message) : M Response :=
  match request with
  | A_organizeTabsAndClose settings =>
      organizeTabsAndClose (settings_or_empty settings);; mret R_success
  | A_debugCreateTabs => createDebugTabs;; mret R_success
  | A_debugCloseAllTabs => debugCloseAllTabs;; mret R_success
  | A_closeLowImportance settings =>
      closeLowImportance (settings_or_empty settings);; mret R_success
  | A_undoLastAction => undoLastAction;; mret R_success
  | A_getTabCount =>
      tabs ← await (tabs_query env); mret (R_count (length tabs))
  | A_getStoredSettings =>
      data ← await (storage_sync_get env 0); mret (R_stored data)
  | A_other _ => mret (R_failure "Unknown action")
  end.

End Worker.

(** ** The popup's progress model

    The arithmetic of [computePercent] is taken over the rationals. *)

Module Popup.

(** [prog], the state for the progress calculation. *)
Record Prog : Type := mkProg {
  totalTabs : nat;
  extracted : nat;
  aiStarted : bool;
  aiDone : bool;
  closingTotal : nat;
  closingDone : nat;
  groupingTotal : nat;
  groupingDone : nat;
  running : bool;
}.

(** The popup: [prog], and the percentage that [setPercent] last wrote to
    the progress bar. *)
Record State : Type := mkState {
  prog : Prog;
  percent : Z;
}.

(** [done / total] for [total > 0]. *)
Definition ratio (done total : nat) : Q :=
  Z.of_nat done # Pos.of_nat total.

(** [PCT_WEIGHTS]. *)
Definition w_extract : Q := 50 # 100.
Definition w_ai : Q := 10 # 100.
Definition w_closing : Q := 20 # 100.
Definition w_grouping : Q := 20 # 100.

Definition extractPct (p : Prog) : Q :=
  if (0 <? totalTabs p)%nat then ratio (extracted p) (totalTabs p) else 0%Q.

Definition aiPct (p : Prog) : Q :=
  if aiDone p then 1%Q else if aiStarted p then (1 # 2)%Q else 0%Q.

(** [total > 0 ? done / total : (total === 0 ? 1 : 0)]: a stage whose
    total is zero counts as complete. *)
Definition closingPct (p : Prog) : Q :=
  if (0 <? closingTotal p)%nat then ratio (closingDone p) (closingTotal p) else 1%Q.

Definition groupingPct (p : Prog) : Q :=
  if (0 <? groupingTotal p)%nat then ratio (groupingDone p) (groupingTotal p) else 1%Q.

Definition computePercent (p : Prog) : Q :=
  ((extractPct p * w_extract + aiPct p * w_ai
    + closingPct p * w_closing + groupingPct p * w_grouping) * 100)%Q.

(** [Math.round(x)]: the integer nearest to [x], halves rounded up. *)
Definition round (x : Q) : Z := Qfloor (x + (1 # 2))%Q.

(** [setPercent(p)]: [Math.max(0, Math.min(100, Math.round(p)))]. *)
Definition clamp (z : Z) : Z := Z.max 0 (Z.min 100 z).

Definition setPercent (x : Q) (s : State) : State :=
  mkState (prog s) (clamp (round x)).

Definition setPercentZ (z : Z) (s : State) : State :=
  mkState (prog s) (clamp z).

(** [updatePercentAndStage(stage)]; the stage text is not modelled. *)
Definition updatePercentAndStage (s : State) : State :=
  setPercent (computePercent (prog s)) s.

Definition with_prog (f : Prog -> Prog) (s : State) : State :=
  mkState (f (prog s)) (percent s).

(** [setRunning(isRunning)]: starting a run resets the bar to 0. *)
Definition setRunning (isRunning : bool) (s : State) : State :=
  let s' := with_prog (fun p => mkProg (totalTabs p) (extracted p) (aiStarted p)
              (aiDone p) (closingTotal p) (closingDone p) (groupingTotal p)
              (groupingDone p) isRunning) s in
  if isRunning then setPercentZ 0 s' else s'.

(** The reset of the click handlers of [organizeBtn] and [closeLowBtn]:
    [setRunning(true)], then every counter back to zero. *)
Definition click_start (s : State) : State :=
  with_prog (fun _ => mkProg 0 0 false false 0 0 0 0 true) (setRunning true s).

(** The click handler of [undoBtn]: [setRunning(true)] only. *)
Definition click_undo (s : State) : State := setRunning true s.

(** [x || y] on numbers: zero is falsy. *)
Definition nz_or (x y : nat) : nat := if (x =? 0)%nat then y else x.

(** The listener of the progress messages. *)
Definition onProgress (s : State) (msg : Progress) : State :=
  match msg with
  | P_start => updatePercentAndStage s
  | P_tabs_collected total =>
      updatePercentAndStage
        (with_prog (fun p => mkProg total (extracted p) (aiStarted p) (aiDone p)
           (closingTotal p) (closingDone p) (groupingTotal p) (groupingDone p)
           (running p)) s)
  | P_extract_progress completed _ _ =>
      updatePercentAndStage
        (with_prog (fun p => mkProg (totalTabs p) (nz_or completed (extracted p))
           (aiStarted p) (aiDone p) (closingTotal p) (closingDone p)
           (groupingTotal p) (groupingDone p) (running p)) s)
  | P_ai_request _ =>
      updatePercentAndStage
        (with_prog (fun p => mkProg (totalTabs p) (extracted p) true (aiDone p)
           (closingTotal p) (closingDone p) (groupingTotal p) (groupingDone p)
           (running p)) s)
  | P_ai_response tabsToClose groups _ =>
      (* the percentage is updated before the totals are initialised *)
      let s1 := updatePercentAndStage
        (with_prog (fun p => mkProg (totalTabs p) (extracted p) (aiStarted p) true
           (closingTotal p) (closingDone p) (groupingTotal p) (groupingDone p)
           (running p)) s) in
      with_prog (fun p => mkProg (totalTabs p) (extracted p) (aiStarted p) (aiDone p)
           tabsToClose (closingDone p) groups (groupingDone p) (running p)) s1
  | P_closing_progress closed total _ =>
      updatePercentAndStage
        (with_prog (fun p => mkProg (totalTabs p) (extracted p) (aiStarted p) (aiDone p)
           (Nat.max (closingTotal p) total) (nz_or closed (closingDone p))
           (groupingTotal p) (groupingDone p) (running p)) s)
  | P_closing_done _ => updatePercentAndStage s
  | P_group_progress grouped total _ _ =>
      updatePercentAndStage
        (with_prog (fun p => mkProg (totalTabs p) (extracted p) (aiStarted p) (aiDone p)
           (closingTotal p) (closingDone p)
           (Nat.max (groupingTotal p) total) (nz_or grouped (groupingDone p))
           (running p)) s)
  | P_grouping_done _ => updatePercentAndStage s
  | P_complete => setRunning false (setPercentZ 100 (updatePercentAndStage s))
  | P_error _ => setRunning false s
  | P_undo_start => setPercentZ 5 s
  | P_undo_grouping_progress processed total =>
      if (0 <? total)%nat
      then setPercentZ (20 + round (ratio processed total * 20)) s
      else s
  | P_undo_grouping_done _ => setPercentZ 40 s
  | P_undo_reopen_progress reopened total =>
      if (0 <? total)%nat
      then setPercentZ (50 + round (ratio reopened total * 45)) s
      else s
  | P_undo_reopen_done _ => s
  | P_undo_complete => setRunning false (setPercentZ 100 (updatePercentAndStage s))
  end.

(** The popup after a sequence of messages. *)
Definition run (s : State) (msgs : list Progress) : State :=
  foldl onProgress s msgs.

(** The percentage on the bar after each message of a sequence. *)
Fixpoint percents (s : State) (msgs : list Progress) : list Z :=
  match msgs with
  | [] => []
  | m :: rest => percent (onProgress s m) :: percents (onProgress s m) rest
  end.

(** A popup before any run. *)
Definition initial : State := mkState (mkProg 0 0 false false 0 0 0 0 false) 0.

End Popup.

(** ** A reference reader of JSON texts

    The theorems hold for every [JSON_parse]; this reader of the integer
    fragment of JSON (no fractions, no exponents, no unicode escapes)
    instantiates them in the concrete runs. *)

Module RefJson.

Definition dquote : ascii := "034"%char.
Definition backslash : ascii := "092"%char.

Definition is_ws (a : ascii) : bool :=
  let n := nat_of_ascii a in
  (n =? 32)%nat || (n =? 9)%nat || (n =? 10)%nat || (n =? 13)%nat.

Definition is_digit (a : ascii) : bool :=
  let n := nat_of_ascii a in (48 <=? n)%nat && (n <=? 57)%nat.

Fixpoint skip_ws (s : string) : string :=
  match s with
  | String a s' => if is_ws a then skip_ws s' else s
  | EmptyString => s
  end.

(** The characters of a string literal after its opening quote. *)
Fixpoint read_string (s : string) (acc : string) : option (string * string) :=
  match s with
  | EmptyString => None
  | String a s' =>
      if Ascii.eqb a dquote then Some (acc, s')
      else if Ascii.eqb a backslash then
        match s' with
        | String b s'' =>
            if Ascii.eqb b dquote || Ascii.eqb b backslash || Ascii.eqb b "/"
            then read_string s'' (acc ++ String b EmptyString)
            else if Ascii.eqb b "n" then read_string s'' (acc ++ String "010" EmptyString)
            else if Ascii.eqb b "t" then read_string s'' (acc ++ String "009" EmptyString)
            else None
        | EmptyString => None
        end
      else read_string s' (acc ++ String a EmptyString)
  end.

Fixpoint read_digits (s : string) (acc : Z) : Z * string :=
  match s with
  | String a s' =>
      if is_digit a
      then read_digits s' (10 * acc + (Z.of_nat (nat_of_ascii a) - 48))
      else (acc, s)
  | EmptyString => (acc, s)
  end.

Definition starts_with_digit (s : string) : bool :=
  match s with
  | String a _ => is_digit a
  | EmptyString => false
  end.

Definition strip (p s : string) : option string :=
  if String.prefix p s
  then Some (String.substring (String.length p) (String.length s - String.length p) s)
  else None.

Fixpoint read_value (fuel : nat) (s : string) {struct fuel} : option (JsValue * string) :=
  match fuel with
  | O => None
  | S fuel' =>
      match skip_ws s with
      | String "{" rest =>
          match skip_ws rest with
          | String "}" rest' => Some (JObj [], rest')
          | _ =>
              match read_members fuel' rest [] with
              | Some (ps, rest') => Some (JObj ps, rest')
              | None => None
              end
          end
      | String "[" rest =>
          match skip_ws rest with
          | String "]" rest' => Some (JArr [] [], rest')
          | _ =>
              match read_elements fuel' rest [] with
              | Some (es, rest') => Some (JArr es [], rest')
              | None => None
              end
          end
      | String "-" rest =>
          if starts_with_digit rest
          then let '(n, rest') := read_digits rest 0 in Some (JNum (- n), rest')
          else None
      | String a rest as t =>
          if Ascii.eqb a dquote then
            match read_string rest EmptyString with
            | Some (str, rest') => Some (JStr str, rest')
            | None => None
            end
          else if is_digit a then
            let '(n, rest') := read_digits t 0 in Some (JNum n, rest')
          else
            match strip "true" t, strip "false" t, strip "null" t with
            | Some rest', _, _ => Some (JBool true, rest')
            | _, Some rest', _ => Some (JBool false, rest')
            | _, _, Some rest' => Some (JNull, rest')
            | _, _, _ => None
            end
      | EmptyString => None
      end
  end
with read_elements (fuel : nat) (s : string) (acc : list JsValue) {struct fuel}
  : option (list JsValue * string) :=
  match fuel with
  | O => None
  | S fuel' =>
      match read_value fuel' s with
      | Some (v, rest) =>
          match skip_ws rest with
          | String "," rest' => read_elements fuel' rest' (acc ++ [v])
          | String "]" rest' => Some ((acc ++ [v])%list, rest')
          | _ => None
          end
      | None => None
      end
  end
with read_members (fuel : nat) (s : string) (acc : list (string * JsValue)) {struct fuel}
  : option (list (string * JsValue) * string) :=
  match fuel with
  | O => None
  | S fuel' =>
      match skip_ws s with
      | String a rest =>
          if Ascii.eqb a dquote then
            match read_string rest EmptyString with
            | Some (key, rest1) =>
                match skip_ws rest1 with
                | String ":" rest2 =>
                    match read_value fuel' rest2 with
                    | Some (v, rest3) =>
                        match skip_ws rest3 with
                        | String "," rest4 =>
                            read_members fuel' rest4 (Js.assoc_set key v acc)
                        | String "}" rest4 => Some (Js.assoc_set key v acc, rest4)
                        | _ => None
                        end
                    | None => None
                    end
                | _ => None
                end
            | None => None
            end
          else None
      | EmptyString => None
      end
  end.

(** The whole text must be one value, white space apart. *)
Definition parse (s : string) : option JsValue :=
  match read_value (2 * String.length s + 2) s with
  | Some (v, rest) =>
      match skip_ws rest with
      | EmptyString => Some v
      | _ => None
      end
  | None => None
  end.

(** A string literal of JSON: [s] between two quotes. *)
Definition quoted (s : string) : string :=
  String dquote s ++ String dquote EmptyString.

End RefJson.

(** ** The three adapters behind one contract *)

Inductive Provider : Type := OpenAI | Gemini | Claude.

Definition provider_name (p : Provider) : string :=
  match p with
  | OpenAI => "OpenAI"
  | Gemini => "Gemini"
  | Claude => "Claude"
  end.

(** The adapter of a provider, the request it sends and the text it reads
    from the envelope. *)
Definition classify (JSON_parse : string -> option JsValue) (env : Env) (p : Provider)
    (tabData : list TabData) (key model : option string) (threshold : Z) : Analysis :=
  match p with
  | OpenAI => analyzeTabsWithOpenAI JSON_parse env tabData key model threshold
  | Gemini => analyzeTabsWithGemini JSON_parse env tabData key threshold
  | Claude => analyzeTabsWithClaude JSON_parse env tabData key model threshold
  end.

Definition request_of (p : Provider) (key model : option string) (threshold : Z)
  : Request :=
  match p with
  | OpenAI => openai_request key model threshold
  | Gemini => gemini_request key threshold
  | Claude => claude_request key model threshold
  end.

Definition answer_text (p : Provider) (text rawText : option string) : string :=
  match p with
  | Gemini => pick_text_or_raw text rawText
  | _ => pick_content text rawText
  end.

(** No JSON can be recovered from a text: [JSON.parse] throws on it, and
    on its slice from the first opening brace to the last closing one when
    there is such a slice. *)
Definition unrecoverable (JSON_parse : string -> option JsValue) (t : string) : Prop :=
  JSON_parse t = None ∧
  ∀ start end_,
    Str.indexOf "{" t = Some start → Str.lastIndexOf "}" t = Some end_ →
    (start < end_)%nat →
    JSON_parse (Str.slice start (S end_) t) = None.

(** The HTTP request failed (rejected, answered with an error status, or
    with a body that is no JSON envelope), or no JSON can be recovered from
    the text of the answer, or the text is the JSON [null], which is no
    object. *)
Definition provider_failed (JSON_parse : string -> option JsValue) (p : Provider)
    (r : HttpOutcome) : Prop :=
  match r with
  | FetchRejects _ | NotOk _ _ | JsonRejects _ => True
  | Envelope text rawText =>
      unrecoverable JSON_parse (answer_text p text rawText)
      ∨ JSON_parse (answer_text p text rawText) = Some JNull
  end.

(** The text has an opening brace strictly before a closing brace. *)
Definition brace_pair (t : string) : Prop :=
  ∃ i j, (i < j)%nat ∧ String.get i t = Some "{"%char ∧ String.get j t = Some "}"%char.

(** * Properties *)

(** ** Strings: the first and the last occurrence of a character *)

Module StrFacts.

Lemma indexOf_Some c s i :
  Str.indexOf c s = Some i →
  String.get i s = Some c ∧ ∀ k, (k < i)%nat → String.get k s ≠ Some c.
Proof.
  revert i. induction s as [|a s IH]; intros i; simpl; [discriminate|].
  destruct (Ascii.eqb_spec a c) as [->|Hne].
  - intros [= <-]. split; [done|]. intros k Hk. lia.
  - destruct (Str.indexOf c s) as [i'|]; simpl; [|discriminate].
    intros [= <-]. destruct (IH i' eq_refl) as [Hget Hfirst].
    split; [done|]. intros [|k] Hk; simpl.
    + congruence.
    + apply Hfirst. lia.
Qed.

Lemma indexOf_None c s k : Str.indexOf c s = None → String.get k s ≠ Some c.
Proof.
  revert k. induction s as [|a s IH]; intros k; simpl; [done|].
  destruct (Ascii.eqb_spec a c) as [->|Hne]; [discriminate|].
  destruct (Str.indexOf c s); simpl; [discriminate|].
  intros _. destruct k; [congruence | by apply IH].
Qed.

Lemma lastIndexOf_Some c s j :
  Str.lastIndexOf c s = Some j →
  String.get j s = Some c ∧ ∀ k, (j < k)%nat → String.get k s ≠ Some c.
Proof.
  revert j. induction s as [|a s IH]; intros j; simpl; [discriminate|].
  destruct (Str.lastIndexOf c s) as [j'|] eqn:Hl.
  - intros [= <-]. destruct (IH j' eq_refl) as [Hget Hlast].
    split; [done|]. intros [|k] Hk; [lia|]. simpl. apply Hlast. lia.
  - destruct (Ascii.eqb_spec a c) as [->|Hne]; [|discriminate].
    intros [= <-]. split; [done|]. intros [|k] Hk; [lia|]. simpl.
    clear -Hl. revert k. induction s as [|b s IHs]; intros k; simpl in *; [done|].
    destruct (Str.lastIndexOf c s); [discriminate|].
    destruct (Ascii.eqb_spec b c); [discriminate|].
    destruct k; [congruence | by apply IHs].
Qed.

Lemma lastIndexOf_None c s k : Str.lastIndexOf c s = None → String.get k s ≠ Some c.
Proof.
  revert k. induction s as [|a s IH]; intros k; simpl; [done|].
  destruct (Str.lastIndexOf c s); [discriminate|].
  destruct (Ascii.eqb_spec a c); [discriminate|].
  intros _. destruct k; [congruence | by apply IH].
Qed.

(** An occurrence at [i] puts the first occurrence at or before [i]. *)
Lemma indexOf_le c s i :
  String.get i s = Some c → ∃ i0, Str.indexOf c s = Some i0 ∧ (i0 <= i)%nat.
Proof.
  intros Hget. destruct (Str.indexOf c s) as [i0|] eqn:Hi.
  - exists i0. split; [done|]. destruct (indexOf_Some _ _ _ Hi) as [_ Hfirst].
    destruct (decide (i0 <= i)%nat); [done|]. exfalso. apply (Hfirst i); [lia|done].
  - exfalso. by apply (indexOf_None c s i).
Qed.

(** An occurrence at [j] puts the last occurrence at or after [j]. *)
Lemma lastIndexOf_ge c s j :
  String.get j s = Some c → ∃ j0, Str.lastIndexOf c s = Some j0 ∧ (j <= j0)%nat.
Proof.
  intros Hget. destruct (Str.lastIndexOf c s) as [j0|] eqn:Hj.
  - exists j0. split; [done|]. destruct (lastIndexOf_Some _ _ _ Hj) as [_ Hlast].
    destruct (decide (j <= j0)%nat); [done|]. exfalso. apply (Hlast j); [lia|done].
  - exfalso. by apply (lastIndexOf_None c s j).
Qed.

(** A slice that starts on a character begins with it. *)
Lemma slice_head c s i j :
  String.get i s = Some c → (i < j)%nat →
  ∃ rest, Str.slice i j s = String c rest.
Proof.
  unfold Str.slice. revert i j. induction s as [|a s IH]; intros i j; simpl.
  - by destruct i.
  - destruct i as [|i]; simpl.
    + intros [= ->] Hlt. destruct (j - 0)%nat eqn:E; [lia|]. eauto.
    + intros Hget Hlt. destruct j as [|j]; [lia|].
      replace (S j - S i)%nat with (j - i)%nat by lia. apply IH; [done|lia].
Qed.

(** A brace pair is what the guard [start >= 0 && end > start] detects. *)
Lemma brace_pair_indices t :
  brace_pair t ↔
  ∃ start end_, Str.indexOf "{" t = Some start ∧ Str.lastIndexOf "}" t = Some end_
                ∧ (start < end_)%nat.
Proof.
  split.
  - intros (i & j & Hij & Hi & Hj).
    destruct (indexOf_le _ _ _ Hi) as (i0 & Hi0 & ?).
    destruct (lastIndexOf_ge _ _ _ Hj) as (j0 & Hj0 & ?).
    exists i0, j0. repeat split; [done..|lia].
  - intros (start & end_ & Hs & He & Hlt).
    exists start, end_. split; [done|].
    split; [by apply indexOf_Some | by apply lastIndexOf_Some].
Qed.

End StrFacts.

(** ** The provider adapters: fallback and recovery *)

Section AdapterFacts.

Variable JSON_parse : string -> option JsValue.
Variable env : Env.

Lemma parseModelText_unrecoverable provider t :
  unrecoverable JSON_parse t → ∃ e, parseModelText JSON_parse provider t = inl e.
Proof.
  intros [Hdirect Hslice]. unfold parseModelText. rewrite Hdirect.
  destruct (Str.indexOf "{" t) as [start|] eqn:Hs; [|eauto].
  destruct (Str.lastIndexOf "}" t) as [end_|] eqn:He; [|eauto].
  destruct (start <? end_)%nat eqn:Hlt; [|eauto].
  apply Nat.ltb_lt in Hlt. rewrite (Hslice start end_); eauto.
Qed.

Lemma readResponse_failed p key model threshold :
  provider_failed JSON_parse p (fetch env (request_of p key model threshold)) →
  ∃ e, readResponse JSON_parse (provider_name p) (answer_text p)
         (fetch env (request_of p key model threshold)) = inl e.
Proof.
  unfold provider_failed, readResponse.
  destruct (fetch env _) as [m|status errText|m|text rawText]; eauto.
  intros [Hun|Hnull].
  - destruct (parseModelText_unrecoverable (provider_name p) _ Hun) as [e ->]. eauto.
  - unfold parseModelText. rewrite Hnull. simpl. eauto.
Qed.

Lemma classify_unfold p tabData key model threshold :
  classify JSON_parse env p tabData key model threshold =
  withFallback (provider_name p) tabData
    (readResponse JSON_parse (provider_name p) (answer_text p)
       (fetch env (request_of p key model threshold))).
Proof. by destruct p. Qed.


(** [JSON.parse] of a text that opens with a brace never yields [null]
    (it yields an object, or throws). *)
Hypothesis JSON_parse_brace :
  ∀ s v, JSON_parse (String "{" s) = Some v → v ≠ JNull.

Lemma ensureArrays_not_null parsed :
  parsed ≠ JNull → ∃ result, ensureArrays parsed = inr result.
Proof. destruct parsed; [done|unfold ensureArrays; eauto..]. Qed.


(** The adapters never resolve to [null]. *)
Lemma classify_not_null p tabData key model threshold :
  analysis (classify JSON_parse env p tabData key model threshold) ≠ JNull.
Proof.
  rewrite classify_unfold. unfold withFallback, readResponse.
  destruct (fetch env _) as [m|status errText|m|text rawText]; try done.
  destruct (parseModelText _ _ _) as [e|parsed]; [done|].
  destruct parsed; simpl; try done;
    repeat (match goal with |- context [if ?b then _ else _] => destruct b end);
    done.
Qed.

End AdapterFacts.

(** ** What a run adds to the state

    The loops and the stages only append to the messages sent and to the
    host calls; the functions below compute what they append. *)

Definition extend (s : Bg) (msgs : list Progress) (calls : list HostCall) : Bg :=
  mkBg (isProcessing s) (lastAction s) (recentTouch s) (sent s ++ msgs) (host s ++ calls).

Fixpoint extract_events (total i : nat) (tabs : list Tab) : list Progress :=
  match tabs with
  | [] => []
  | t :: rest => P_extract_progress (S i) total (tab_id t) :: extract_events total (S i) rest
  end.

Definition tabData_of (tabs : list Tab) : list TabData :=
  (fun t => mkTabData (tab_id t) (tab_url t) (tab_title t)) <$> tabs.

Section Traces.

Variable env : Env.

(** The ids that the closing loop removes, in order. *)
Fixpoint close_removed (i : nat) (ids : list JsValue) : list JsValue :=
  match ids with
  | [] => []
  | tabId :: rest =>
      if tabs_remove_ok env i tabId
      then tabId :: close_removed (S i) rest
      else close_removed (S i) rest
  end.

Fixpoint close_events (total i : nat) (ids : list JsValue) (closed : nat)
  : list Progress :=
  match ids with
  | [] => []
  | tabId :: rest =>
      if tabs_remove_ok env i tabId
      then P_closing_progress (S closed) total tabId
             :: close_events total (S i) rest (S closed)
      else close_events total (S i) rest closed
  end.

Definition close_metas (idToTab : gmap Z Tab) (ids : list JsValue)
    (metas : list ClosedMeta) : list ClosedMeta :=
  foldl (fun acc tabId => push_meta idToTab tabId acc) metas ids.

(** The groups that the grouping loop creates and labels, with the
    position of each in [tabGroups], its tab ids and the id of the group. *)
Fixpoint group_created (i : nat) (groups : list JsValue)
  : list (JsValue * list JsValue * Z) :=
  match groups with
  | [] => []
  | group :: rest =>
      match group with
      | JNull => group_created (S i) rest
      | _ =>
          match Js.as_array (Js.get group "tabIds") with
          | None | Some [] => group_created (S i) rest
          | Some tabIds =>
              match tabs_group env i tabIds with
              | None => group_created (S i) rest
              | Some gid =>
                  if tabGroups_update_ok env i gid
                  then (group, tabIds, gid) :: group_created (S i) rest
                  else group_created (S i) rest
              end
          end
      end
  end.

Fixpoint group_calls (i : nat) (groups : list JsValue) : list HostCall :=
  match groups with
  | [] => []
  | group :: rest =>
      match group with
      | JNull => group_calls (S i) rest
      | _ =>
          match Js.as_array (Js.get group "tabIds") with
          | None | Some [] => group_calls (S i) rest
          | Some tabIds =>
              match tabs_group env i tabIds with
              | None => group_calls (S i) rest
              | Some gid =>
                  if tabGroups_update_ok env i gid
                  then H_group tabIds gid
                         :: H_group_update gid (Js.get group "name") (color_or_purple group)
                         :: group_calls (S i) rest
                  else H_group tabIds gid :: group_calls (S i) rest
              end
          end
      end
  end.

Fixpoint group_events (total : nat) (created : list (JsValue * list JsValue * Z))
    (grouped : nat) : list Progress :=
  match created with
  | [] => []
  | (group, tabIds, _) :: rest =>
      P_group_progress (S grouped) total (Js.get group "name") (length tabIds)
        :: group_events total rest (S grouped)
  end.

Definition batches_of (created : list (JsValue * list JsValue * Z))
  : list (list JsValue) :=
  (fun c => snd (fst c)) <$> created.

End Traces.

(** ** The monad: unfolding and frame lemmas *)

Open Scope list_scope.

Lemma extend_nil s : extend s [] [] = s.
Proof. destruct s. unfold extend. simpl. by rewrite !app_nil_r. Qed.

Lemma extend_extend s m1 c1 m2 c2 :
  extend (extend s m1 c1) m2 c2 = extend s (m1 ++ m2) (c1 ++ c2).
Proof. unfold extend. simpl. by rewrite !app_assoc. Qed.

Lemma add_sent_extend p s m c : add_sent p (extend s m c) = extend s (m ++ [p]) c.
Proof. unfold add_sent, extend. simpl. by rewrite app_assoc. Qed.

Lemma add_host_extend h s m c : add_host h (extend s m c) = extend s m (c ++ [h]).
Proof. unfold add_host, extend. simpl. by rewrite app_assoc. Qed.

Lemma add_sent_as_extend p s : add_sent p s = extend s [p] [].
Proof. unfold add_sent, extend. simpl. by rewrite app_nil_r. Qed.

Lemma add_host_as_extend h s : add_host h s = extend s [] [h].
Proof. unfold add_host, extend. simpl. by rewrite app_nil_r. Qed.

Lemma set_isProcessing_extend b s m c :
  set_isProcessing b (extend s m c) = extend (set_isProcessing b s) m c.
Proof. reflexivity. Qed.

Lemma set_lastAction_extend a s m c :
  set_lastAction a (extend s m c) = extend (set_lastAction a s) m c.
Proof. reflexivity. Qed.

Lemma set_isProcessing_set_lastAction b a s :
  set_isProcessing b (set_lastAction a s) = set_lastAction a (set_isProcessing b s).
Proof. reflexivity. Qed.

(** Taking the lock and releasing it leaves an idle worker as it was. *)
Lemma lock_round_trip s :
  isProcessing s = false → set_isProcessing false (set_isProcessing true s) = s.
Proof. destruct s. simpl. by intros ->. Qed.

Lemma bind_unfold {A B} (m : M A) (k : A → M B) s :
  (m ≫= k) s = match m s with
               | (Ok a, s') => k a s'
               | (Throw e, s') => (Throw e, s')
               end.
Proof. reflexivity. Qed.

Lemma bind_ok {A B} (m : M A) (k : A → M B) s a s' :
  m s = (Ok a, s') → (m ≫= k) s = k a s'.
Proof. intros H. by rewrite bind_unfold, H. Qed.

Lemma bind_throw {A B} (m : M A) (k : A → M B) s e s' :
  m s = (Throw e, s') → (m ≫= k) s = (Throw e, s').
Proof. intros H. by rewrite bind_unfold, H. Qed.

Lemma sendProgress_run p s : sendProgress p s = (Ok tt, extend s [p] []).
Proof. unfold sendProgress, modify. by rewrite add_sent_as_extend. Qed.

Lemma add_host_run h s : modify (add_host h) s = (Ok tt, extend s [] [h]).
Proof. unfold modify. by rewrite add_host_as_extend. Qed.

Ltac run_step :=
  first
    [ rewrite sendProgress_run
    | rewrite add_host_run
    | rewrite bind_unfold ].

Section LoopFacts.

Variable env : Env.

Lemma extract_loop_run total tabs : ∀ i acc s,
  extract_loop total i tabs acc s
  = (Ok (acc ++ tabData_of tabs), extend s (extract_events total i tabs) []).
Proof.
  induction tabs as [|t rest IH]; intros i acc s; simpl.
  - unfold mret, M_ret, ret. by rewrite app_nil_r, extend_nil.
  - rewrite bind_unfold, sendProgress_run, IH, extend_extend.
    simpl. by rewrite <- app_assoc.
Qed.

Lemma close_loop_run idToTab total ids : ∀ i closed metas s,
  close_loop env idToTab total i ids closed metas s
  = (Ok ((closed + length (close_removed env i ids))%nat,
         close_metas idToTab ids metas),
     extend s (close_events env total i ids closed)
              (H_remove <$> close_removed env i ids)).
Proof.
  induction ids as [|tabId rest IH]; intros i closed metas s; simpl.
  - unfold mret, M_ret, ret. by rewrite Nat.add_0_r, extend_nil.
  - destruct (tabs_remove_ok env i tabId); simpl.
    + rewrite bind_unfold, add_host_run, bind_unfold, sendProgress_run, IH.
      rewrite !extend_extend. simpl. do 3 f_equal. lia.
    + by rewrite IH.
Qed.

Lemma closeTabs_run idToTab ids s :
  closeTabs env idToTab ids s
  = (Ok (close_metas idToTab ids []),
     extend s (close_events env (length ids) 0 ids 0
                 ++ [P_closing_done (length (close_removed env 0 ids))])
              (H_remove <$> close_removed env 0 ids)).
Proof.
  unfold closeTabs. rewrite bind_unfold, close_loop_run. simpl.
  rewrite bind_unfold, sendProgress_run, extend_extend.
  unfold mret, M_ret, ret. by rewrite app_nil_r.
Qed.

Lemma group_loop_run total groups : ∀ i grouped acc s,
  group_loop env total i groups grouped acc s
  = (Ok ((grouped + length (group_created env i groups))%nat,
         acc ++ batches_of (group_created env i groups)),
     extend s (group_events total (group_created env i groups) grouped)
              (group_calls env i groups)).
Proof.
  induction groups as [|group rest IH]; intros i grouped acc s.
  - simpl. unfold mret, M_ret, ret. by rewrite Nat.add_0_r, app_nil_r, extend_nil.
  - assert (group_loop env total (S i) rest grouped acc s
            = (Ok ((grouped + length (group_created env (S i) rest))%nat,
                   acc ++ batches_of (group_created env (S i) rest)),
               extend s (group_events total (group_created env (S i) rest) grouped)
                        (group_calls env (S i) rest))) as Hskip by apply IH.
    simpl.
    destruct group; try exact Hskip;
      (destruct (Js.as_array _) as [[|tid tids]|]; try exact Hskip;
       destruct (tabs_group env i _) as [gid|]; try exact Hskip;
       rewrite bind_unfold, add_host_run;
       destruct (tabGroups_update_ok env i gid);
       [ rewrite bind_unfold, add_host_run, bind_unfold, sendProgress_run, IH;
         rewrite !extend_extend; simpl;
         rewrite <- app_assoc; simpl; do 3 f_equal; lia
       | rewrite IH, extend_extend; simpl; reflexivity ]).
Qed.

Lemma groupTabs_run tabGroups s :
  groupTabs env tabGroups s
  = (Ok (batches_of (group_created env 0 (default [] tabGroups))),
     extend s
       (match tabGroups with
        | None | Some [] => []
        | Some groups =>
            group_events (length groups) (group_created env 0 groups) 0
              ++ [P_grouping_done (length (group_created env 0 groups))]
        end)
       (group_calls env 0 (default [] tabGroups))).
Proof.
  unfold groupTabs. destruct tabGroups as [[|g gs]|];
    try (simpl; unfold mret, M_ret, ret; by rewrite extend_nil).
  change (default [] (Some (g :: gs))) with (g :: gs).
  cbv beta iota. generalize (g :: gs). intros groups.
  rewrite bind_unfold, group_loop_run. simpl.
  rewrite bind_unfold, sendProgress_run, extend_extend.
  unfold mret, M_ret, ret. by rewrite app_nil_r.
Qed.

End LoopFacts.

(** ** The runs of the three classifying pipelines *)

(** What a classifying pipeline decided once the provider answered: the
    tabs it collected, the analysis, whether [ai_response] counts the groups,
    the ids handed to the closing stage ([None] when the stage is skipped),
    the groups handed to the grouping stage, and the [type] it records. *)
Record Plan : Type := mkPlan {
  plan_tabs : list Tab;
  plan_analysis : JsValue;
  plan_withGroups : bool;
  plan_toClose : option (list JsValue);
  plan_tabGroups : option (list JsValue);
  plan_type : list (list JsValue) → ActionType;
}.

Definition ai_response_msg (a : JsValue) (withGroups : bool) : Progress :=
  P_ai_response
    (from_option length 0%nat (Js.as_array (Js.get a "tabsToClose")))
    (if withGroups then from_option length 0%nat (Js.as_array (Js.get a "tabGroups"))
     else 0%nat)
    (from_option (Str.slice 0 300) ""%string (Js.as_string (Js.get a "reasoning"))).

Section Plans.

Variable JSON_parse : string -> option JsValue.
Variable env : Env.

Definition closing_events (toClose : option (list JsValue)) : list Progress :=
  match toClose with
  | Some ids =>
      close_events env (length ids) 0 ids 0
        ++ [P_closing_done (length (close_removed env 0 ids))]
  | None => []
  end.

Definition grouping_events (tabGroups : option (list JsValue)) : list Progress :=
  match tabGroups with
  | None | Some [] => []
  | Some groups =>
      group_events (length groups) (group_created env 0 groups) 0
        ++ [P_grouping_done (length (group_created env 0 groups))]
  end.

(** The messages from [tabs_collected] to [ai_response]. *)
Definition classify_events (p : Plan) : list Progress :=
  [P_tabs_collected (length (plan_tabs p))]
    ++ extract_events (length (plan_tabs p)) 0 (plan_tabs p)
    ++ [P_ai_request (length (plan_tabs p));
        ai_response_msg (plan_analysis p) (plan_withGroups p)].

(** The messages after [ai_response]. *)
Definition act_events (p : Plan) : list Progress :=
  closing_events (plan_toClose p) ++ grouping_events (plan_tabGroups p) ++ [P_complete].

Definition plan_removed (p : Plan) : list JsValue :=
  close_removed env 0 (default [] (plan_toClose p)).

Definition plan_created (p : Plan) : list (JsValue * list JsValue * Z) :=
  group_created env 0 (default [] (plan_tabGroups p)).

Definition plan_calls (p : Plan) : list HostCall :=
  (H_remove <$> plan_removed p) ++ group_calls env 0 (default [] (plan_tabGroups p)).

Definition plan_action (p : Plan) : Action :=
  mkAction (plan_type p (batches_of (plan_created p)))
    (close_metas (build_idToTab (plan_tabs p)) (default [] (plan_toClose p)) [])
    (batches_of (plan_created p))
    (recordTs env).

(** The state after a run that reached [complete]. *)
Definition completed (p : Plan) (s : Bg) : Bg :=
  let s' := extend s (P_start :: classify_events p ++ act_events p) (plan_calls p) in
  if local_set_ok env then set_lastAction (Some (plan_action p)) s' else s'.

(** The state after a run that threw before it collected the tabs. *)
Definition failed (e : Exn) (s : Bg) : Bg :=
  extend s [P_start; P_error e] [].

(** The analysis the router resolves to. *)
Definition routed (tabs : list Tab) (provider model : string) (threshold : Z)
    (keys : Keys) : JsValue :=
  analysis (analyzeTabs JSON_parse env (tabData_of tabs) (Some provider) (Some model)
              threshold keys).

Definition keys_of (stored : Stored) : Keys :=
  mkKeys (st_apiKey stored) (st_geminiKey stored) (st_claudeKey stored).

Definition threshold_of (settings : Settings) (stored : Stored) : Z :=
  default (default 5 (st_importanceThreshold stored)) (set_importanceThreshold settings).

(** The effective [autoClose] of [organizeTabsAndClose]. *)
Definition autoClose_of (settings : Settings) (stored : Stored) : bool :=
  default (default false (st_autoClose stored)) (set_autoClose settings).

Definition organize_plan (settings : Settings) (storedKeys stored : Stored)
    (tabs : list Tab) : Plan :=
  let provider := Str.toLowerCase (opt_or (st_providerAnalyze storedKeys) "openai") in
  let model := opt_or (st_modelAnalyze storedKeys) (default_model provider) in
  let a := routed tabs provider model (threshold_of settings stored) (keys_of storedKeys) in
  let autoClose := autoClose_of settings stored in
  mkPlan tabs a true
    (if autoClose then Js.as_array (Js.get a "tabsToClose") else None)
    (Js.as_array (Js.get a "tabGroups"))
    (action_type_of autoClose).

Definition close_plan (settings : Settings) (storedKeys stored : Stored)
    (tabs : list Tab) : Plan :=
  let provider := Str.toLowerCase (opt_or (st_providerClose storedKeys) "openai") in
  let model := opt_or (st_modelClose storedKeys) (default_model provider) in
  let a := routed tabs provider model (threshold_of settings stored) (keys_of storedKeys) in
  mkPlan tabs a false (Js.as_array (Js.get a "tabsToClose")) None (fun _ => TClose).

Definition generic_plan (provider model : string) (keys : Keys) (threshold : Z)
    (autoClose : bool) (touch : gmap Z Z) (tabs : list Tab) : Plan :=
  let a := routed tabs provider model threshold keys in
  mkPlan tabs a true
    (if autoClose
     then List.filter (keep_candidate (build_idToTab tabs) (build_protectActive tabs)
                         touch (nowTs env))
            <$> Js.as_array (Js.get a "tabsToClose")
     else None)
    (Js.as_array (Js.get a "tabGroups"))
    (action_type_of autoClose).

End Plans.

Section RunFacts.

Variable JSON_parse : string -> option JsValue.
Variable env : Env.

Lemma analyzeTabs_not_null tabData provider model threshold keys :
  analysis (analyzeTabs JSON_parse env tabData provider model threshold keys) ≠ JNull.
Proof.
  unfold analyzeTabs.
  destruct (String.eqb _ "gemini");
    [apply (classify_not_null JSON_parse env Gemini _ _ None)|].
  destruct (String.eqb _ "claude");
    [apply (classify_not_null JSON_parse env Claude) |
     apply (classify_not_null JSON_parse env OpenAI)].
Qed.

Lemma analysis_get_run a k s :
  a ≠ JNull → analysis_get a k s = (Ok (Js.get a k), s).
Proof. by destruct a. Qed.

Lemma send_ai_response_run a withGroups s :
  a ≠ JNull →
  send_ai_response a withGroups s = (Ok tt, extend s [ai_response_msg a withGroups] []).
Proof.
  intros Ha. unfold send_ai_response.
  rewrite !bind_unfold, !analysis_get_run by done.
  rewrite !bind_unfold, !analysis_get_run by done.
  rewrite !bind_unfold, !analysis_get_run by done.
  by rewrite sendProgress_run.
Qed.

Lemma setLastAction_run t closed grouped s :
  setLastAction env t closed grouped s
  = (Ok tt, if local_set_ok env
            then set_lastAction (Some (mkAction t closed grouped (recordTs env))) s
            else s).
Proof. unfold setLastAction. by destruct (local_set_ok env). Qed.

(** The frame of a pipeline around a body that ran to its end. *)
Lemma guarded_ok body s s' :
  body s = (Ok tt, s') → guarded body s = (Ok tt, set_isProcessing false s').
Proof. intros H. unfold guarded, try_finally, try_catch. by rewrite H. Qed.

(** The frame of a pipeline around a body that threw. *)
Lemma guarded_throw body s e s' :
  body s = (Throw e, s') →
  guarded body s = (Ok tt, set_isProcessing false (add_sent (P_error e) s')).
Proof. intros H. unfold guarded, try_finally, try_catch. by rewrite H. Qed.

Lemma await_inl {A} e s : await (A:=A) (inl e) s = (Throw e, s).
Proof. reflexivity. Qed.

Lemma await_inr {A} (a : A) s : await (inr a) s = (Ok a, s).
Proof. reflexivity. Qed.

(** The closing stage behind its guard. *)
Lemma closing_stage_run idToTab (o : option (list JsValue)) (autoClose : bool) s :
  (match o with
   | Some ids => if autoClose then closeTabs env idToTab ids else mret []
   | None => mret []
   end) s
  = (Ok (close_metas idToTab (default [] (if autoClose then o else None)) []),
     extend s (closing_events env (if autoClose then o else None))
       (H_remove <$> close_removed env 0 (default [] (if autoClose then o else None)))).
Proof.
  destruct o as [ids|], autoClose; simpl;
    rewrite ?closeTabs_run; unfold mret, M_ret, ret; by rewrite ?extend_nil.
Qed.

(** The closing stage of the close-only pipeline. *)
Lemma closing_always_run idToTab (o : option (list JsValue)) s :
  (match o with
   | Some ids => closeTabs env idToTab ids
   | None => mret []
   end) s
  = (Ok (close_metas idToTab (default [] o) []),
     extend s (closing_events env o) (H_remove <$> close_removed env 0 (default [] o))).
Proof. apply (closing_stage_run idToTab o true). Qed.

Lemma started_failed s e :
  isProcessing s = false →
  set_isProcessing false
    (add_sent (P_error e) (extend (set_isProcessing true s) [P_start] []))
  = failed e s.
Proof.
  intros H. rewrite add_sent_extend, set_isProcessing_extend, lock_round_trip by done.
  reflexivity.
Qed.

Ltac enter_pipeline Hidle :=
  rewrite bind_unfold; unfold gets at 1; rewrite Hidle;
  rewrite bind_unfold; unfold modify at 1; rewrite bind_unfold, sendProgress_run.

Ltac same_lists :=
  cbn [app]; rewrite ?app_nil_r, <- ?app_assoc, ?app_nil_r; cbn [app]; reflexivity.

Ltac same_state Hidle s :=
  f_equal;
  unfold completed, organize_plan, close_plan, generic_plan, act_events, classify_events,
    plan_calls, plan_action, plan_removed, plan_created, routed, keys_of, threshold_of,
    autoClose_of;
  cbn [plan_tabs plan_analysis plan_withGroups plan_toClose plan_tabGroups plan_type];
  destruct (local_set_ok env);
  rewrite <- ?set_lastAction_extend, ?extend_extend;
  rewrite ?set_isProcessing_set_lastAction, ?set_isProcessing_extend,
    (lock_round_trip s Hidle);
  cbn [app]; unfold tabData_of; rewrite ?length_fmap;
  [ apply f_equal2; [reflexivity|] | ];
  (apply f_equal2; [same_lists | same_lists]).

(** A run of [organizeTabsAndClose] that holds the lock: it ends on an
    error when the settings or the tabs cannot be read, and completes
    otherwise. *)
Lemma organizeTabsAndClose_run settings s :
  isProcessing s = false →
  organizeTabsAndClose JSON_parse env settings s =
  (Ok tt,
   match storage_sync_get env 0 with
   | inl e => failed e s
   | inr storedKeys =>
       match storage_sync_get env 1 with
       | inl e => failed e s
       | inr stored =>
           match tabs_query env with
           | inl e => failed e s
           | inr tabs =>
               completed env
                 (organize_plan JSON_parse env settings storedKeys stored tabs) s
           end
       end
   end).
Proof.
  intros Hidle. unfold organizeTabsAndClose. enter_pipeline Hidle.
  destruct (storage_sync_get env 0) as [e|storedKeys].
  { erewrite guarded_throw; [|by rewrite bind_unfold, await_inl].
    by rewrite started_failed. }
  destruct (storage_sync_get env 1) as [e|stored].
  { erewrite guarded_throw;
      [|by rewrite bind_unfold, await_inr, bind_unfold, await_inl].
    by rewrite started_failed. }
  destruct (tabs_query env) as [e|tabs].
  { erewrite guarded_throw;
      [|by rewrite bind_unfold, await_inr, bind_unfold, await_inr, bind_unfold, await_inl].
    by rewrite started_failed. }
  erewrite guarded_ok.
  2:{ rewrite bind_unfold, await_inr, bind_unfold, await_inr, bind_unfold, await_inr.
      rewrite bind_unfold, sendProgress_run, bind_unfold, extract_loop_run.
      rewrite bind_unfold, sendProgress_run.
      rewrite bind_unfold, send_ai_response_run by apply analyzeTabs_not_null.
      rewrite bind_unfold, analysis_get_run by apply analyzeTabs_not_null.
      rewrite bind_unfold, closing_stage_run.
      rewrite bind_unfold, analysis_get_run by apply analyzeTabs_not_null.
      rewrite bind_unfold, groupTabs_run.
      rewrite bind_unfold, setLastAction_run.
      rewrite sendProgress_run. reflexivity. }
  same_state Hidle s.
Qed.

(** A run of [closeLowImportance] that holds the lock. *)
Lemma closeLowImportance_run settings s :
  isProcessing s = false →
  closeLowImportance JSON_parse env settings s =
  (Ok tt,
   match storage_sync_get env 0 with
   | inl e => failed e s
   | inr storedKeys =>
       match storage_sync_get env 1 with
       | inl e => failed e s
       | inr stored =>
           match tabs_query env with
           | inl e => failed e s
           | inr tabs =>
               completed env
                 (close_plan JSON_parse env settings storedKeys stored tabs) s
           end
       end
   end).
Proof.
  intros Hidle. unfold closeLowImportance. enter_pipeline Hidle.
  destruct (storage_sync_get env 0) as [e|storedKeys].
  { erewrite guarded_throw; [|by rewrite bind_unfold, await_inl].
    by rewrite started_failed. }
  destruct (storage_sync_get env 1) as [e|stored].
  { erewrite guarded_throw;
      [|by rewrite bind_unfold, await_inr, bind_unfold, await_inl].
    by rewrite started_failed. }
  destruct (tabs_query env) as [e|tabs].
  { erewrite guarded_throw;
      [|by rewrite bind_unfold, await_inr, bind_unfold, await_inr, bind_unfold, await_inl].
    by rewrite started_failed. }
  erewrite guarded_ok.
  2:{ rewrite bind_unfold, await_inr, bind_unfold, await_inr, bind_unfold, await_inr.
      rewrite bind_unfold, sendProgress_run, bind_unfold, extract_loop_run.
      rewrite bind_unfold, sendProgress_run.
      rewrite bind_unfold, send_ai_response_run by apply analyzeTabs_not_null.
      rewrite bind_unfold, analysis_get_run by apply analyzeTabs_not_null.
      rewrite bind_unfold, closing_always_run.
      rewrite bind_unfold, setLastAction_run.
      rewrite sendProgress_run. reflexivity. }
  same_state Hidle s.
Qed.

(** A run of [organizeTabsGeneric] that holds the lock. *)
Lemma organizeTabsGeneric_run provider model keys threshold autoClose s :
  isProcessing s = false →
  organizeTabsGeneric JSON_parse env provider model keys threshold autoClose s =
  (Ok tt,
   match tabs_query env with
   | inl e => failed e s
   | inr tabs =>
       completed env
         (generic_plan JSON_parse env provider model keys threshold autoClose
            (recentTouch s) tabs) s
   end).
Proof.
  intros Hidle. unfold organizeTabsGeneric. enter_pipeline Hidle.
  destruct (tabs_query env) as [e|tabs].
  { erewrite guarded_throw; [|by rewrite bind_unfold, await_inl].
    by rewrite started_failed. }
  erewrite guarded_ok.
  2:{ rewrite bind_unfold, await_inr.
      rewrite bind_unfold, sendProgress_run, bind_unfold, extract_loop_run.
      rewrite bind_unfold, sendProgress_run.
      rewrite bind_unfold, send_ai_response_run by apply analyzeTabs_not_null.
      rewrite bind_unfold. unfold gets at 1.
      rewrite bind_unfold, analysis_get_run by apply analyzeTabs_not_null.
      rewrite bind_unfold, closing_stage_run.
      rewrite bind_unfold, analysis_get_run by apply analyzeTabs_not_null.
      rewrite bind_unfold, groupTabs_run.
      rewrite bind_unfold, setLastAction_run.
      rewrite sendProgress_run. reflexivity. }
  same_state Hidle s.
Qed.

End RunFacts.

(** ** The runs of undo *)

Section UndoTraces.

Variable env : Env.

Fixpoint ungroup_events (total i : nat) (batches : list (list JsValue))
    (processed : nat) : list Progress :=
  match batches with
  | [] => []
  | tabIds :: rest =>
      if tabs_ungroup_ok env i tabIds
      then P_undo_grouping_progress (S processed) total
             :: ungroup_events total (S i) rest (S processed)
      else ungroup_events total (S i) rest (S processed)
  end.

Fixpoint ungroup_calls (i : nat) (batches : list (list JsValue)) : list HostCall :=
  match batches with
  | [] => []
  | tabIds :: rest =>
      if tabs_ungroup_ok env i tabIds
      then H_ungroup tabIds :: ungroup_calls (S i) rest
      else ungroup_calls (S i) rest
  end.

(** Whether the tab of [meta] is reopened, in its window or in the
    current one. *)
Definition reopens (i : nat) (meta : ClosedMeta) : bool :=
  match tabs_create env i (meta_url meta) (Some (meta_windowId meta)) with
  | Some _ => true
  | None => bool_decide (is_Some (tabs_create env i (meta_url meta) None))
  end.

Fixpoint reopen_events (total i : nat) (metas : list ClosedMeta) (reopened : nat)
  : list Progress :=
  match metas with
  | [] => []
  | meta :: rest =>
      if reopens i meta
      then P_undo_reopen_progress (S reopened) total
             :: reopen_events total (S i) rest (S reopened)
      else reopen_events total (S i) rest reopened
  end.

Definition reopen_calls_one (i : nat) (meta : ClosedMeta) : list HostCall :=
  match tabs_create env i (meta_url meta) (Some (meta_windowId meta)) with
  | Some (createdId, createdWindow) =>
      [H_create (meta_url meta) (Some (meta_windowId meta)) createdId]
        ++ (if (0 <=? meta_index meta)%Z && tabs_move_ok env i createdId
            then [H_move createdId (meta_index meta) createdWindow] else [])
        ++ (if meta_pinned meta && tabs_update_ok env i createdId
            then [H_pin createdId] else [])
  | None =>
      match tabs_create env i (meta_url meta) None with
      | Some (createdId, _) => [H_create (meta_url meta) None createdId]
      | None => []
      end
  end.

Fixpoint reopen_calls (i : nat) (metas : list ClosedMeta) : list HostCall :=
  match metas with
  | [] => []
  | meta :: rest => reopen_calls_one i meta ++ reopen_calls (S i) rest
  end.

Fixpoint reopen_count (i : nat) (metas : list ClosedMeta) : nat :=
  match metas with
  | [] => 0
  | meta :: rest =>
      ((if reopens i meta then 1 else 0) + reopen_count (S i) rest)%nat
  end.

Definition ungrouping_events (batches : list (list JsValue)) : list Progress :=
  match batches with
  | [] => []
  | _ => ungroup_events (length batches) 0 batches 0
           ++ [P_undo_grouping_done (length batches)]
  end.

Definition reopening_events (metas : list ClosedMeta) : list Progress :=
  match metas with
  | [] => []
  | _ => reopen_events (length metas) 0 metas 0
           ++ [P_undo_reopen_done (reopen_count 0 metas)]
  end.

(** The journal as [getLastAction] reads it. *)
Definition journal_read (s : Bg) : option Action :=
  if local_get_ok env then lastAction s else None.

(** The state after an undo that found nothing to undo. *)
Definition refused (s : Bg) : Bg :=
  extend s [P_undo_start; P_error "Nothing to undo."] [].

(** The state after an undo of the action [a]. *)
Definition undone (a : Action) (s : Bg) : Bg :=
  let s' := extend s
              (P_undo_start :: ungrouping_events (groupedTabIds a)
                 ++ reopening_events (closedTabs a) ++ [P_undo_complete])
              (ungroup_calls 0 (groupedTabIds a) ++ reopen_calls 0 (closedTabs a)) in
  if local_remove_ok env then set_lastAction None s' else s'.

Lemma ungroup_loop_run total batches : ∀ i processed s,
  ungroup_loop env total i batches processed s
  = (Ok (processed + length batches)%nat,
     extend s (ungroup_events total i batches processed) (ungroup_calls i batches)).
Proof.
  induction batches as [|tabIds rest IH]; intros i processed s; simpl.
  - unfold mret, M_ret, ret. by rewrite Nat.add_0_r, extend_nil.
  - destruct (tabs_ungroup_ok env i tabIds).
    + rewrite bind_unfold, add_host_run, bind_unfold, sendProgress_run, IH.
      rewrite !extend_extend. apply f_equal2; [f_equal; lia | reflexivity].
    + rewrite IH. apply f_equal2; [f_equal; lia | reflexivity].
Qed.

Lemma reopen_loop_run total metas : ∀ i reopened s,
  reopen_loop env total i metas reopened s
  = (Ok (reopened + reopen_count i metas)%nat,
     extend s (reopen_events total i metas reopened) (reopen_calls i metas)).
Proof.
  induction metas as [|meta rest IH]; intros i reopened s.
  - simpl. unfold mret, M_ret, ret. by rewrite Nat.add_0_r, extend_nil.
  - cbn [reopen_loop reopen_events reopen_calls reopen_count].
    unfold reopens, reopen_calls_one.
    destruct (tabs_create env i (meta_url meta) (Some (meta_windowId meta)))
      as [[createdId createdWindow]|].
    + rewrite bind_unfold, add_host_run.
      destruct ((0 <=? meta_index meta)%Z && tabs_move_ok env i createdId);
        destruct (meta_pinned meta && tabs_update_ok env i createdId);
        rewrite ?bind_unfold, ?add_host_run; unfold mret, M_ret, ret;
        rewrite ?bind_unfold, ?add_host_run, ?bind_unfold, sendProgress_run, IH;
        rewrite !extend_extend; cbn [app]; rewrite <- ?app_assoc; cbn [app];
        (apply f_equal2; [f_equal; lia | reflexivity]).
    + destruct (tabs_create env i (meta_url meta) None) as [[createdId createdWindow]|].
      * rewrite bind_unfold, add_host_run, bind_unfold, sendProgress_run, IH.
        rewrite !extend_extend. rewrite bool_decide_eq_true_2 by eauto.
        cbn [app]. apply f_equal2; [f_equal; lia | reflexivity].
      * rewrite IH. rewrite bool_decide_eq_false_2 by (by intros [? ?]).
        cbn [app]. apply f_equal2; [f_equal | reflexivity].
Qed.

Lemma getLastAction_run s : getLastAction env s = (Ok (journal_read s), s).
Proof. unfold getLastAction, journal_read. by destruct (local_get_ok env). Qed.

Lemma clearLastAction_run s :
  clearLastAction env s
  = (Ok tt, if local_remove_ok env then set_lastAction None s else s).
Proof. unfold clearLastAction. by destruct (local_remove_ok env). Qed.

Lemma ungrouping_run batches s :
  (match batches with
   | [] => mret ()
   | _ :: _ =>
       ungroup_loop env (length batches) 0 batches 0
       ≫= λ processed, sendProgress (P_undo_grouping_done processed)
   end) s
  = (Ok tt, extend s (ungrouping_events batches) (ungroup_calls 0 batches)).
Proof.
  destruct batches as [|b bs].
  - unfold mret, M_ret, ret. by rewrite extend_nil.
  - unfold ungrouping_events. generalize (b :: bs). intros batches.
    rewrite bind_unfold, ungroup_loop_run, sendProgress_run, extend_extend.
    by rewrite app_nil_r.
Qed.

Lemma reopening_run metas s :
  (match metas with
   | [] => mret ()
   | _ :: _ =>
       reopen_loop env (length metas) 0 metas 0
       ≫= λ reopened, sendProgress (P_undo_reopen_done reopened)
   end) s
  = (Ok tt, extend s (reopening_events metas) (reopen_calls 0 metas)).
Proof.
  destruct metas as [|m ms].
  - unfold mret, M_ret, ret. by rewrite extend_nil.
  - unfold reopening_events. generalize (m :: ms). intros metas.
    rewrite bind_unfold, reopen_loop_run, sendProgress_run, extend_extend.
    by rewrite app_nil_r.
Qed.

(** A run of [undoLastAction] that holds the lock. *)
Lemma undoLastAction_run s :
  isProcessing s = false →
  undoLastAction env s =
  (Ok tt, match journal_read s with
          | Some a => if nothing_to_undo (Some a) then refused s else undone a s
          | None => refused s
          end).
Proof.
  intros Hidle. unfold undoLastAction.
  rewrite bind_unfold. unfold gets at 1. rewrite Hidle.
  rewrite bind_unfold. unfold modify at 1. rewrite bind_unfold, sendProgress_run.
  unfold try_finally, try_catch. rewrite bind_unfold, getLastAction_run.
  change (journal_read (extend (set_isProcessing true s) [P_undo_start] []))
    with (journal_read s).
  assert (∀ st : Bg,
            set_isProcessing false
              (set_isProcessing false
                 (extend (extend (set_isProcessing true s) [P_undo_start] [])
                    [P_error "Nothing to undo."%string] []))
            = refused s) as Hrefused.
  { intros _. rewrite extend_extend, !set_isProcessing_extend.
    change (set_isProcessing false (set_isProcessing false (set_isProcessing true s)))
      with (set_isProcessing false (set_isProcessing true s)).
    by rewrite lock_round_trip. }
  destruct (journal_read s) as [a|]; cbn [from_option].
  2:{ cbn [nothing_to_undo]. rewrite bind_unfold, sendProgress_run. unfold modify.
      by rewrite (Hrefused s). }
  destruct (nothing_to_undo (Some a)).
  { rewrite bind_unfold, sendProgress_run. unfold modify. by rewrite (Hrefused s). }
  rewrite bind_unfold, ungrouping_run, bind_unfold, reopening_run.
  rewrite bind_unfold, clearLastAction_run, sendProgress_run.
  f_equal. unfold undone.
  destruct (local_remove_ok env);
    rewrite <- ?set_lastAction_extend, ?extend_extend;
    rewrite ?set_isProcessing_set_lastAction, ?set_isProcessing_extend,
      (lock_round_trip s Hidle);
    [ apply f_equal2; [reflexivity|] | ];
    (apply f_equal2;
     cbn [app]; rewrite ?app_nil_r, <- ?app_assoc, ?app_nil_r; cbn [app]; reflexivity).
Qed.

End UndoTraces.

(** ** The debug helpers *)

Section DebugFacts.

Variable env : Env.

(** The tabs that [createDebugTabs] opens. *)
Fixpoint debug_created (i : nat) (urls : list string) : list HostCall :=
  match urls with
  | [] => []
  | url :: rest =>
      match tabs_create env i url None with
      | Some (createdId, _) => H_create url None createdId :: debug_created (S i) rest
      | None => debug_created (S i) rest
      end
  end.

Lemma create_debug_loop_run urls : ∀ i s,
  create_debug_loop env i urls s = (Ok tt, extend s [] (debug_created i urls)).
Proof.
  induction urls as [|url rest IH]; intros i s; simpl.
  - unfold mret, M_ret, ret. by rewrite extend_nil.
  - rewrite bind_unfold.
    destruct (tabs_create env i url None) as [[createdId w]|].
    + by rewrite add_host_run, IH, extend_extend.
    + unfold mret, M_ret, ret. by rewrite IH.
Qed.

(** [debugCloseAllTabs] reads the state nowhere: its result is a function
    of the host alone. *)
Lemma debugCloseAllTabs_frame b s :
  debugCloseAllTabs env (set_isProcessing b s)
  = (fst (debugCloseAllTabs env s), set_isProcessing b (snd (debugCloseAllTabs env s))).
Proof.
  unfold debugCloseAllTabs, try_catch. rewrite !bind_unfold.
  destruct (tabs_query env) as [e|tabs]; [reflexivity|]. rewrite !await_inr, !bind_unfold.
  destruct (tabs_query_current env) as [e|current]; [reflexivity|].
  rewrite !await_inr, !bind_unfold.
  destruct (tab_id <$> List.filter _ tabs) as [|z zs]; unfold mret, M_ret, ret.
  - rewrite !setLastAction_run. by destruct (local_set_ok env).
  - destruct (tabs_remove_many_ok env (z :: zs)); [|reflexivity].
    unfold modify. rewrite !setLastAction_run. by destruct (local_set_ok env).
Qed.

End DebugFacts.

(** ** Concrete hosts and states *)

Module Example.

Definition tab (id : Z) (url : string) (active : bool) : Tab :=
  mkTab id url url 1 (id - 1) active false.

Definition stored0 : Stored :=
  mkStored None None None None None None None None None None None None.

(** A host with the given tabs and provider answer, on which every call
    succeeds. *)
Definition host_env (tabs : list Tab) (http : HttpOutcome) : Env :=
  mkEnv 1000000 1000001
    (fun _ => inr stored0)
    (inr tabs)
    (inr (List.filter tab_active tabs))
    (fun _ => http)
    (fun _ _ => true)
    (fun _ => true)
    (fun i _ => Some (100 + Z.of_nat i)%Z)
    (fun _ _ => true)
    (fun _ _ => true)
    (fun i _ w => Some ((200 + Z.of_nat i)%Z, default 1%Z w))
    (fun _ _ => true)
    (fun _ _ => true)
    true true true
    ["https://www.wikipedia.org"; "https://www.github.com"]%string.

(** A worker at rest, and one in the middle of a job. *)
Definition idle : Bg := mkBg false None ∅ [] [].
Definition busy : Bg := mkBg true None ∅ [P_start; P_tabs_collected 2] [].

(** [{"tabsToClose":[ids],"tabGroups":[]}] as a text. *)
Definition close_answer (ids : string) : string :=
  ("{" ++ RefJson.quoted "tabsToClose" ++ ":[" ++ ids ++ "],"
       ++ RefJson.quoted "tabGroups" ++ ":[]}")%string.

(** [{"tabsToClose":[],"tabGroups":[{"name":"A","tabIds":[1]},
    {"name":"B","tabIds":[2]}]}] as a text. *)
Definition two_groups_answer : string :=
  ("{" ++ RefJson.quoted "tabsToClose" ++ ":[],"
       ++ RefJson.quoted "tabGroups" ++ ":[{"
       ++ RefJson.quoted "name" ++ ":" ++ RefJson.quoted "A" ++ ","
       ++ RefJson.quoted "tabIds" ++ ":[1]},{"
       ++ RefJson.quoted "name" ++ ":" ++ RefJson.quoted "B" ++ ","
       ++ RefJson.quoted "tabIds" ++ ":[2]}]}")%string.

Definition two_tabs : list Tab :=
  [tab 1 "https://a.example" false; tab 2 "https://b.example" false].

(** One window: tab 3 is the active one. *)
Definition three_tabs : list Tab :=
  [tab 1 "https://a.example" false; tab 2 "https://b.example" false;
   tab 3 "https://c.example" true].

End Example.

(** ** The single-flight lock *)

(** The pipelines that take the lock. *)
Inductive Pipeline : Type :=
  | Organize (settings : Settings)
  | CloseOnly (settings : Settings)
  | Generic (provider model : string) (keys : Keys) (threshold : Z) (autoClose : bool)
  | Automatic (stored : Stored)
  | Undo.

Definition run_pipeline (JSON_parse : string → option JsValue) (env : Env) (p : Pipeline)
  : M unit :=
  match p with
  | Organize settings => organizeTabsAndClose JSON_parse env settings
  | CloseOnly settings => closeLowImportance JSON_parse env settings
  | Generic provider model keys threshold autoClose =>
      organizeTabsGeneric JSON_parse env provider model keys threshold autoClose
  | Automatic stored => autoOrganizeCallback JSON_parse env stored
  | Undo => undoLastAction env
  end.

(** What the design document asks of a start request that meets a running
    job: an outcome that tells the caller of the conflict.  Of the responses
    of the listener, only [{success: false, error}] can carry one. *)
Definition conflict_reported (r : Res Response) : Prop :=
  match r with
  | Ok (R_failure _) => True
  | _ => False
  end.

Definition is_start (m : Message) : bool :=
  match m with
  | A_organizeTabsAndClose _ | A_closeLowImportance _ => true
  | _ => false
  end.

Section LockFacts.

Variable JSON_parse : string → option JsValue.
Variable env : Env.

Lemma isProcessing_completed p s : isProcessing (completed env p s) = isProcessing s.
Proof. unfold completed. by destruct (local_set_ok env). Qed.

Lemma isProcessing_undone a s : isProcessing (undone env a s) = isProcessing s.
Proof. unfold undone. by destruct (local_remove_ok env). Qed.

(** C8.  A pipeline (organize, close-only, the organizer of the automatic
    trigger, undo) that took the lock always returns, without an exception,
    in a state where the lock is released: whether it completed, ended on an
    error, or returned early. *)
Theorem lock_released (p : Pipeline) (s : Bg) :
  isProcessing s = false →
  ∃ s', run_pipeline JSON_parse env p s = (Ok tt, s') ∧ isProcessing s' = false.
Proof.
  intros Hidle. destruct p as [settings|settings|prov model keys thr ac|stored|]; simpl.
  - rewrite organizeTabsAndClose_run by done. eexists. split; [reflexivity|].
    repeat case_match; by rewrite ?isProcessing_completed.
  - rewrite closeLowImportance_run by done. eexists. split; [reflexivity|].
    repeat case_match; by rewrite ?isProcessing_completed.
  - rewrite organizeTabsGeneric_run by done. eexists. split; [reflexivity|].
    repeat case_match; by rewrite ?isProcessing_completed.
  - unfold autoOrganizeCallback. rewrite organizeTabsGeneric_run by done.
    eexists. split; [reflexivity|].
    repeat case_match; by rewrite ?isProcessing_completed.
  - rewrite undoLastAction_run by done. eexists. split; [reflexivity|].
    repeat case_match; by rewrite ?isProcessing_undone.
Qed.

(** A start request that meets a running job changes nothing: the flag,
    the journal, the messages sent and the host calls are as before. *)
Lemma busy_pipeline_returns (p : Pipeline) (s : Bg) :
  isProcessing s = true → run_pipeline JSON_parse env p s = (Ok tt, s).
Proof.
  intros Hbusy.
  destruct p; simpl;
    unfold organizeTabsAndClose, closeLowImportance, autoOrganizeCallback,
      organizeTabsGeneric, undoLastAction;
    rewrite bind_unfold; unfold gets at 1; by rewrite Hbusy.
Qed.

(** C2, as the code has it.  A start request (organize or close-only)
    that arrives while a job is in progress returns at once and leaves the
    whole state of the worker as it was (the job state, the journal, the
    messages sent, the host); the caller is answered [{success: true}], the
    answer of an accepted request. *)
Theorem busy_start_ignored (m : Message) (s : Bg) :
  is_start m = true →
  isProcessing s = true →
  onMessage JSON_parse env m s = (Ok R_success, s).
Proof.
  intros Hstart Hbusy. destruct m as [settings| | |settings| | | |a]; try done; simpl.
  - pose proof (busy_pipeline_returns (Organize (settings_or_empty settings)) s Hbusy) as H.
    simpl in H. by rewrite bind_unfold, H.
  - pose proof (busy_pipeline_returns (CloseOnly (settings_or_empty settings)) s Hbusy) as H.
    simpl in H. by rewrite bind_unfold, H.
Qed.

(** C6, as the code has it.  The debug helpers take no part in the
    single-flight lock: they neither test nor set the flag, so they do the
    same to the host and to the journal whether a job is in progress or
    not, and leave the flag as it was. *)
Theorem debug_helpers_ignore_lock (b : bool) (s : Bg) :
  createDebugTabs env (set_isProcessing b s)
    = (Ok tt, set_isProcessing b (snd (createDebugTabs env s)))
  ∧ host (snd (createDebugTabs env s)) = host s ++ debug_created env 0 (shuffled env)
  ∧ debugCloseAllTabs env (set_isProcessing b s)
    = (fst (debugCloseAllTabs env s), set_isProcessing b (snd (debugCloseAllTabs env s))).
Proof.
  split; [|split].
  - unfold createDebugTabs. by rewrite !create_debug_loop_run.
  - unfold createDebugTabs. by rewrite create_debug_loop_run.
  - apply debugCloseAllTabs_frame.
Qed.

End LockFacts.

(** ** Undo and the journal *)

Section UndoFacts.

Variable env : Env.

(** An undo that holds the lock and reads no action other than ["none"]
    only sends [undo_start] and the error "Nothing to undo.". *)
Lemma undo_refused s :
  isProcessing s = false →
  nothing_to_undo (journal_read env s) = true →
  undoLastAction env s
  = (Ok tt, extend s [P_undo_start; P_error "Nothing to undo."%string] []).
Proof.
  intros Hidle Hnothing. rewrite undoLastAction_run by done.
  destruct (journal_read env s) as [a|]; [|reflexivity]. by rewrite Hnothing.
Qed.

Lemma undo_undone s a :
  isProcessing s = false →
  journal_read env s = Some a → type a ≠ TNone →
  undoLastAction env s = (Ok tt, undone env a s).
Proof.
  intros Hidle Hread Htype. rewrite undoLastAction_run, Hread by done.
  simpl. by destruct (type a).
Qed.

Lemma last_sent_undone a s : last (sent (undone env a s)) = Some P_undo_complete.
Proof.
  unfold undone. destruct (local_remove_ok env); simpl;
    rewrite !app_comm_cons, !app_assoc; apply last_snoc.
Qed.

(** C10.  Undo rejects when the journal holds no record and also when the
    record it holds has the type ["none"]: in both cases the run only sends
    [undo_start] and the error "Nothing to undo.", and leaves the journal,
    the host and the rest of the state as they were. *)
Theorem undo_nothing_to_undo (s : Bg) :
  isProcessing s = false →
  (lastAction s = None ∨ ∃ a, lastAction s = Some a ∧ type a = TNone) →
  ∃ s', undoLastAction env s = (Ok tt, s')
        ∧ sent s' = sent s ++ [P_undo_start; P_error "Nothing to undo."%string]
        ∧ lastAction s' = lastAction s
        ∧ host s' = host s
        ∧ recentTouch s' = recentTouch s
        ∧ isProcessing s' = false.
Proof.
  intros Hidle Hjournal. eexists. split.
  - apply undo_refused; [done|]. unfold journal_read.
    destruct (local_get_ok env); [|done].
    destruct Hjournal as [->|(a & -> & Ha)]; [done|]. simpl. by rewrite Ha.
  - simpl. by rewrite app_nil_r.
Qed.

End UndoFacts.


(** ** The protection filter *)

Lemma build_idToTab_lookup (tabs : list Tab) (z : Z) (t : Tab) :
  build_idToTab tabs !! z = Some t → t ∈ tabs ∧ tab_id t = z.
Proof.
  unfold build_idToTab.
  assert (∀ (m : gmap Z Tab) z t,
            foldl (λ m t, <[tab_id t:=t]> m) m tabs !! z = Some t →
            (t ∈ tabs ∧ tab_id t = z) ∨ m !! z = Some t) as Hgen.
  { clear. induction tabs as [|t0 rest IH]; intros m z t; simpl; [by right|].
    intros H. apply IH in H as [[Hin Hid]|H].
    - left. split; [by right|done].
    - destruct (decide (tab_id t0 = z)) as [<-|Hne].
      + rewrite lookup_insert_eq in H. injection H as <-. left. split; [by left|done].
      + rewrite lookup_insert_ne in H by done. by right. }
  intros H. apply Hgen in H as [H|H]; [done|]. by rewrite lookup_empty in H.
Qed.

Lemma build_protectActive_spec (tabs : list Tab) (z : Z) :
  z ∈ build_protectActive tabs ↔ ∃ t, t ∈ tabs ∧ tab_active t = true ∧ tab_id t = z.
Proof.
  unfold build_protectActive. rewrite elem_of_list_to_set, list_elem_of_fmap.
  split.
  - intros (t & -> & Hin). apply list_elem_of_In, filter_In in Hin as [Hin Hact].
    exists t. by rewrite list_elem_of_In.
  - intros (t & Hin & Hact & <-). exists t. split; [done|].
    apply list_elem_of_In, filter_In. by rewrite <- list_elem_of_In.
Qed.

(** What the callback of the filter lets through. *)
Lemma keep_candidate_sound (tabs : list Tab) (touch : gmap Z Z) (now : Z) (tid : JsValue) :
  keep_candidate (build_idToTab tabs) (build_protectActive tabs) touch now tid = true →
  ∃ t, t ∈ tabs ∧ tid = JNum (tab_id t)
       ∧ (∀ t', t' ∈ tabs → tab_active t' = true → tab_id t' ≠ tab_id t)
       ∧ protected_url (tab_url t) = false
       ∧ (∀ touched, touch !! tab_id t = Some touched → touched ≠ 0 →
                     (30000 ≤ now - touched)%Z).
Proof.
  unfold keep_candidate. destruct tid as [| |z| | |]; try done.
  destruct (build_idToTab tabs !! z) as [t|] eqn:Hlookup; [|done].
  apply build_idToTab_lookup in Hlookup as [Hin <-].
  case_bool_decide as Hactive; [done|].
  destruct (protected_url (tab_url t)) eqn:Hurl; [done|].
  destruct (recently_touched touch now (tab_id t)) eqn:Hrecent; [done|].
  intros _. exists t. repeat split; try done.
  - intros t' Hin' Hact' Heq. apply Hactive, build_protectActive_spec. eauto.
  - intros touched Htouched Hnz. unfold recently_touched in Hrecent.
    rewrite Htouched in Hrecent.
    apply andb_false_iff in Hrecent as [H|H].
    + apply negb_false_iff, Z.eqb_eq in H. done.
    + apply Z.ltb_ge in H. done.
Qed.

Section FilterFacts.

Variable JSON_parse : string → option JsValue.
Variable env : Env.

Lemma close_removed_subset ids : ∀ i tid,
  tid ∈ close_removed env i ids → tid ∈ ids.
Proof.
  induction ids as [|x rest IH]; intros i tid; simpl; [done|].
  destruct (tabs_remove_ok env i x).
  - intros [->|H]%elem_of_cons; [by left | right; eauto].
  - intros H. right. eauto.
Qed.

Lemma group_calls_no_remove groups : ∀ i tid,
  H_remove tid ∉ group_calls env i groups.
Proof.
  induction groups as [|g rest IH]; intros i tid; simpl; [apply not_elem_of_nil|].
  destruct g; try apply IH;
    (destruct (Js.as_array _) as [[|x xs]|]; try apply IH;
     destruct (tabs_group env i _); try apply IH;
     destruct (tabGroups_update_ok env i _);
     rewrite ?not_elem_of_cons; repeat split; try done; apply IH).
Qed.

(** The ids that a completed run removed are among those it handed to
    the closing stage. *)
Lemma removed_in_plan (p : Plan) (tid : JsValue) :
  H_remove tid ∈ plan_calls env p → tid ∈ default [] (plan_toClose p).
Proof.
  unfold plan_calls, plan_removed. rewrite elem_of_app.
  intros [H|H].
  - apply list_elem_of_fmap in H as (x & [= ->] & Hx).
    by eapply close_removed_subset.
  - by apply group_calls_no_remove in H.
Qed.

Lemma host_completed p s : host (completed env p s) = host s ++ plan_calls env p.
Proof. unfold completed. by destruct (local_set_ok env). Qed.

Lemma host_failed e s : host (failed e s) = host s ++ [].
Proof. reflexivity. Qed.

(** X1.  The part of C1 that holds: the sibling path that filters.  In
    every run of [organizeTabsGeneric], the organizer of the automatic
    flow, whatever [autoClose] and whatever the
    provider answered (the fallback included), each id removed is the id of
    a collected tab that is the active tab of no window, whose url is not
    protected (internal host pages, the blank page, new-tab pages), and that
    was not touched, at a non-zero time, within the 30000 ms before the
    filter ran. *)
Theorem automatic_removals_protected (provider model : string) (keys : Keys)
    (threshold : Z) (autoClose : bool) (s : Bg) :
  isProcessing s = false →
  ∃ s' calls,
    organizeTabsGeneric JSON_parse env provider model keys threshold autoClose s
      = (Ok tt, s')
    ∧ host s' = host s ++ calls
    ∧ ∀ tid, H_remove tid ∈ calls →
        ∃ tabs t,
          tabs_query env = inr tabs ∧ t ∈ tabs ∧ tid = JNum (tab_id t)
          ∧ (∀ t', t' ∈ tabs → tab_active t' = true → tab_id t' ≠ tab_id t)
          ∧ protected_url (tab_url t) = false
          ∧ (∀ touched, recentTouch s !! tab_id t = Some touched → touched ≠ 0 →
                        (30000 ≤ nowTs env - touched)%Z).
Proof.
  intros Hidle. rewrite organizeTabsGeneric_run by done.
  destruct (tabs_query env) as [e|tabs].
  - exists (failed e s), []. split; [done|]. split; [done|].
    intros tid H. by apply not_elem_of_nil in H.
  - eexists _, _. split; [reflexivity|]. split; [apply host_completed|].
    intros tid Hrem. apply removed_in_plan in Hrem.
    unfold generic_plan in Hrem. cbn [plan_toClose] in Hrem.
    destruct autoClose; [|by apply not_elem_of_nil in Hrem].
    destruct (Js.as_array _) as [ids|]; [|by apply not_elem_of_nil in Hrem].
    cbn [fmap option_fmap option_map default from_option id] in Hrem.
    apply list_elem_of_In, filter_In in Hrem as [_ Hkeep].
    apply keep_candidate_sound in Hkeep as (t & Hin & -> & Hact & Hurl & Htouch).
    exists tabs, t. by repeat split.
Qed.

(** The organize and the close-only pipelines have no such filter: what
    they hand to the closing stage is the provider's list as it came. *)
Lemma manual_plans_unfiltered settings storedKeys stored tabs :
  plan_toClose (close_plan JSON_parse env settings storedKeys stored tabs)
    = Js.as_array (Js.get (plan_analysis
                             (close_plan JSON_parse env settings storedKeys stored tabs))
                     "tabsToClose")
  ∧ (autoClose_of settings stored = true →
     plan_toClose (organize_plan JSON_parse env settings storedKeys stored tabs)
     = Js.as_array (Js.get (plan_analysis
                              (organize_plan JSON_parse env settings storedKeys stored tabs))
                      "tabsToClose")).
Proof.
  split; [reflexivity|]. intros H. unfold organize_plan. cbn [plan_toClose plan_analysis].
  by rewrite H.
Qed.

End FilterFacts.

(** ** The type of the recorded action *)

Definition is_remove (c : HostCall) : bool :=
  match c with H_remove _ => true | _ => false end.

Definition is_group (c : HostCall) : bool :=
  match c with H_group _ _ => true | _ => false end.

Definition is_group_update (c : HostCall) : bool :=
  match c with H_group_update _ _ _ => true | _ => false end.

(** The kind that the design document derives from what happened: remove
    (["close"]) if only removals occurred, group if only grouping occurred,
    composite (["organize"]) if both, none if neither. *)
Definition kind_by_outcome (calls : list HostCall) : ActionType :=
  match existsb is_remove calls, existsb is_group calls with
  | true, false => TClose
  | false, true => TGroup
  | true, true => TOrganize
  | false, false => TNone
  end.

(** The type that the code derives from the request and from the groups
    that were created and labelled. *)
Definition type_by_request (autoClose : bool) (calls : list HostCall) : ActionType :=
  match autoClose, existsb is_group_update calls with
  | true, true => TOrganize
  | true, false => TClose
  | false, true => TGroup
  | false, false => TNone
  end.

Section JournalFacts.

Variable JSON_parse : string → option JsValue.
Variable env : Env.

Lemma last_sent_failed e s : last (sent (failed e s)) = Some (P_error e).
Proof.
  unfold failed. simpl. change [P_start; P_error e] with ([P_start] ++ [P_error e]).
  by rewrite app_assoc, last_snoc.
Qed.

Lemma last_sent_completed p s : last (sent (completed env p s)) = Some P_complete.
Proof.
  unfold completed, act_events. destruct (local_set_ok env); simpl;
    rewrite !app_comm_cons, !app_assoc; apply last_snoc.
Qed.

Lemma lastAction_completed p s :
  local_set_ok env = true → lastAction (completed env p s) = Some (plan_action env p).
Proof. intros H. unfold completed. by rewrite H. Qed.

Lemma no_update_in_removals (ids : list JsValue) :
  existsb is_group_update (H_remove <$> ids) = false.
Proof. by induction ids. Qed.

(** A batch is recorded exactly when a group was created and labelled. *)
Lemma batches_labelled groups : ∀ i,
  existsb is_group_update (group_calls env i groups)
  = negb (bool_decide (batches_of (group_created env i groups) = [])).
Proof.
  induction groups as [|g rest IH]; intros i; simpl; [done|].
  destruct g; try apply IH;
    (destruct (Js.as_array _) as [[|x xs]|]; try apply IH;
     destruct (tabs_group env i _); try apply IH;
     destruct (tabGroups_update_ok env i _); simpl; [done|apply IH]).
Qed.

Lemma type_of_plan (autoClose : bool) (p : Plan) :
  plan_type p = action_type_of autoClose →
  type (plan_action env p) = type_by_request autoClose (plan_calls env p).
Proof.
  intros Htype. unfold plan_action, plan_calls, type_by_request. cbn [type].
  rewrite Htype, existsb_app, no_update_in_removals, batches_labelled. simpl.
  unfold action_type_of, plan_created.
  by destruct autoClose, (bool_decide _).
Qed.

(** C5, as the code has it.  When a pipeline completes and the journal is
    written, the type recorded by [organizeTabsAndClose] follows the
    request: with [autoClose] it is ["organize"] when a group was created
    and labelled and ["close"] otherwise, whether or not a tab was removed;
    without [autoClose] it is ["group"] when a group was created and labelled
    and ["none"] otherwise.  The type recorded by [closeLowImportance] is
    always ["close"]. *)
Theorem recorded_type (settings : Settings) (s : Bg) :
  isProcessing s = false →
  local_set_ok env = true →
  (∀ s', organizeTabsAndClose JSON_parse env settings s = (Ok tt, s') →
         last (sent s') = Some P_complete →
         ∃ stored a calls,
           storage_sync_get env 1 = inr stored
           ∧ lastAction s' = Some a
           ∧ host s' = host s ++ calls
           ∧ type a = type_by_request (autoClose_of settings stored) calls)
  ∧ (∀ s', closeLowImportance JSON_parse env settings s = (Ok tt, s') →
           last (sent s') = Some P_complete →
           ∃ a, lastAction s' = Some a ∧ type a = TClose).
Proof.
  intros Hidle Hset. split; intros s' Hrun Hlast.
  - rewrite organizeTabsAndClose_run in Hrun by done. injection Hrun as <-.
    destruct (storage_sync_get env 0) as [e|storedKeys];
      [by rewrite last_sent_failed in Hlast|].
    destruct (storage_sync_get env 1) as [e|stored];
      [by rewrite last_sent_failed in Hlast|].
    destruct (tabs_query env) as [e|tabs];
      [by rewrite last_sent_failed in Hlast|].
    eexists stored, _, _. split; [done|].
    split; [by apply lastAction_completed|].
    split; [apply host_completed|].
    by apply type_of_plan.
  - rewrite closeLowImportance_run in Hrun by done. injection Hrun as <-.
    destruct (storage_sync_get env 0) as [e|storedKeys];
      [by rewrite last_sent_failed in Hlast|].
    destruct (storage_sync_get env 1) as [e|stored];
      [by rewrite last_sent_failed in Hlast|].
    destruct (tabs_query env) as [e|tabs];
      [by rewrite last_sent_failed in Hlast|].
    eexists. split; [by apply lastAction_completed|]. reflexivity.
Qed.

End JournalFacts.

(** ** The progress percentages of a job *)

Module PopupFacts.
Import Popup.
#[local] Open Scope Z_scope.

(** The percentage that [updatePercentAndStage] writes for a [prog]. *)
Definition shown (p : Prog) : Z := clamp (round (computePercent p)).

Lemma round_mono x y : (x <= y)%Q → round x ≤ round y.
Proof.
  intros H. unfold round. apply Qfloor_resp_le. lra.
Qed.

Lemma clamp_mono x y : x ≤ y → clamp x ≤ clamp y.
Proof. unfold clamp. lia. Qed.

Lemma clamp_range x : 0 ≤ clamp x ≤ 100.
Proof. unfold clamp. lia. Qed.

Lemma ratio_mono d d' t : (d ≤ d')%nat → (ratio d t <= ratio d' t)%Q.
Proof. intros H. unfold ratio, Qle. simpl. nia. Qed.

Lemma ratio_nonneg d t : (0 <= ratio d t)%Q.
Proof. unfold ratio, Qle. simpl. lia. Qed.

(** Every stage of [q] is at least as far as in [p]. *)
Definition rising (p q : Prog) : Prop :=
  (extractPct p <= extractPct q)%Q ∧ (aiPct p <= aiPct q)%Q
  ∧ (closingPct p <= closingPct q)%Q ∧ (groupingPct p <= groupingPct q)%Q.

Lemma computePercent_mono p q :
  rising p q → (computePercent p <= computePercent q)%Q.
Proof.
  intros (He & Ha & Hc & Hg). unfold computePercent, w_extract, w_ai, w_closing, w_grouping.
  lra.
Qed.

Lemma shown_mono p q : rising p q → shown p ≤ shown q.
Proof. intros H. by apply clamp_mono, round_mono, computePercent_mono. Qed.

(** Each message moves the percentage up, or leaves it. *)
Fixpoint chain (s : State) (msgs : list Progress) : Prop :=
  match msgs with
  | [] => True
  | m :: rest => percent s ≤ percent (onProgress s m) ∧ chain (onProgress s m) rest
  end.

Lemma run_app s a b : run s (a ++ b) = run (run s a) b.
Proof. apply foldl_app. Qed.

Lemma chain_app s a b : chain s (a ++ b) ↔ chain s a ∧ chain (run s a) b.
Proof.
  revert s. induction a as [|m a IH]; intros s; simpl; [tauto|].
  rewrite IH. tauto.
Qed.

Lemma percents_app s a b : percents s (a ++ b) = percents s a ++ percents (run s a) b.
Proof.
  revert s. induction a as [|m a IH]; intros s; simpl; [done|]. by rewrite IH.
Qed.

Lemma chain_sorted s msgs : chain s msgs → Sorted Z.le (percents s msgs).
Proof.
  revert s. induction msgs as [|m rest IH]; intros s; simpl; [constructor|].
  intros [_ Hrest]. constructor; [by apply IH|].
  destruct rest as [|m' rest']; simpl; constructor. by destruct Hrest.
Qed.

(** The messages on which the listener recomputes the percentage from
    [prog], whatever the bar showed. *)
Definition recomputes (m : Progress) : bool :=
  match m with
  | P_start | P_tabs_collected _ | P_extract_progress _ _ _ | P_ai_request _
  | P_ai_response _ _ _ | P_closing_progress _ _ _ | P_closing_done _
  | P_group_progress _ _ _ _ | P_grouping_done _ | P_complete | P_undo_complete => true
  | _ => false
  end.

Lemma onProgress_recomputes m p x y :
  recomputes m = true → onProgress (mkState p x) m = onProgress (mkState p y) m.
Proof. by destruct m. Qed.

Lemma percents_recomputes m rest p x y :
  recomputes m = true →
  percents (mkState p x) (m :: rest) = percents (mkState p y) (m :: rest).
Proof. intros H. simpl. by rewrite (onProgress_recomputes m p x y H). Qed.

(** A recomputing step along which the stages rise. *)
Lemma rising_step (f : Prog → Prog) (s : State) :
  percent s ≤ shown (prog s) → rising (prog s) (f (prog s)) →
  percent s ≤ percent (updatePercentAndStage (with_prog f s)).
Proof. intros Hs Hr. simpl. fold (shown (f (prog s))). pose proof (shown_mono _ _ Hr). lia. Qed.

Lemma rising_refl p : rising p p.
Proof. unfold rising. repeat split; apply Qle_refl. Qed.

(** The shapes of [prog] along a job: extracting, waiting for the
    provider, classified, acting. *)
Definition extracting (n i : nat) : Prog := mkProg n i false false 0 0 0 0 true.
Definition requested (n i : nat) : Prog := mkProg n i true false 0 0 0 0 true.
Definition answered (n i : nat) : Prog := mkProg n i true true 0 0 0 0 true.
Definition acting (n i c cd g gd : nat) : Prog := mkProg n i true true c cd g gd true.

(** The popup with [prog] and the percentage computed from it. *)
Definition at_prog (p : Prog) : State := mkState p (shown p).

Ltac rise :=
  unfold rising, extractPct, aiPct, closingPct, groupingPct, extracting, requested,
    answered, acting;
  cbn [totalTabs extracted aiStarted aiDone closingTotal closingDone groupingTotal
       groupingDone];
  repeat split; repeat case_match;
  first [ apply Qle_refl | apply ratio_mono; lia | apply ratio_nonneg | by compute ].

Lemma click_start_state s : click_start s = mkState (extracting 0 0) 0.
Proof. reflexivity. Qed.

Lemma on_start s : onProgress s P_start = at_prog (prog s).
Proof. reflexivity. Qed.

Lemma on_tabs_collected n s :
  prog s = extracting 0 0 →
  onProgress s (P_tabs_collected n) = at_prog (extracting n 0).
Proof. destruct s as [p x]. simpl. by intros ->. Qed.

Lemma on_extract n i s t id :
  prog s = extracting n i →
  onProgress s (P_extract_progress (S i) t id) = at_prog (extracting n (S i)).
Proof. destruct s as [p x]. simpl. by intros ->. Qed.

Lemma on_ai_request n i s t :
  prog s = extracting n i →
  onProgress s (P_ai_request t) = at_prog (requested n i).
Proof. destruct s as [p x]. simpl. by intros ->. Qed.

Lemma on_ai_response n i s c g r :
  prog s = requested n i →
  onProgress s (P_ai_response c g r)
  = mkState (acting n i c 0 g 0) (shown (answered n i)).
Proof. destruct s as [p x]. simpl. by intros ->. Qed.

Lemma on_closing_progress n i c cd g gd s k total tid :
  prog s = acting n i c cd g gd → (total ≤ c)%nat →
  onProgress s (P_closing_progress (S k) total tid)
  = at_prog (acting n i c (S k) g gd).
Proof.
  destruct s as [p x]. cbn [prog]. intros -> H.
  unfold onProgress, with_prog, updatePercentAndStage, setPercent, at_prog, shown.
  cbn [prog acting totalTabs extracted aiStarted aiDone closingTotal closingDone
       groupingTotal groupingDone running nz_or Nat.eqb].
  by rewrite Nat.max_l.
Qed.

Lemma on_closing_done s k : onProgress s (P_closing_done k) = at_prog (prog s).
Proof. reflexivity. Qed.

Lemma on_group_progress n i c cd g gd s k total name count :
  prog s = acting n i c cd g gd → (total ≤ g)%nat →
  onProgress s (P_group_progress (S k) total name count)
  = at_prog (acting n i c cd g (S k)).
Proof.
  destruct s as [p x]. cbn [prog]. intros -> H.
  unfold onProgress, with_prog, updatePercentAndStage, setPercent, at_prog, shown.
  cbn [prog acting totalTabs extracted aiStarted aiDone closingTotal closingDone
       groupingTotal groupingDone running nz_or Nat.eqb].
  by rewrite Nat.max_l.
Qed.

Lemma on_grouping_done s k : onProgress s (P_grouping_done k) = at_prog (prog s).
Proof. reflexivity. Qed.

Lemma on_complete s : percent (onProgress s P_complete) = 100.
Proof. reflexivity. Qed.

Lemma on_undo_complete s : percent (onProgress s P_undo_complete) = 100.
Proof. reflexivity. Qed.

Lemma shown_range p : 0 ≤ shown p ≤ 100.
Proof. apply clamp_range. Qed.

(** The extraction stage. *)
Lemma extract_chain n tabs : ∀ i,
  chain (at_prog (extracting n i)) (extract_events n i tabs)
  ∧ run (at_prog (extracting n i)) (extract_events n i tabs)
    = at_prog (extracting n (i + length tabs)).
Proof.
  induction tabs as [|t rest IH]; intros i; cbn [extract_events chain run foldl length].
  - by rewrite Nat.add_0_r.
  - rewrite (on_extract n i) by reflexivity.
    destruct (IH (S i)) as [Hchain Hrun].
    split; [split; [|done]|].
    + apply shown_mono. rise.
    + unfold run in Hrun. rewrite Hrun. do 2 f_equal. lia.
Qed.

Section Stages.

Variable env : Env.

(** The closing loop. *)
Lemma close_chain n e c g gd total ids : ∀ i closed,
  (total ≤ c)%nat →
  chain (at_prog (acting n e c closed g gd)) (close_events env total i ids closed)
  ∧ run (at_prog (acting n e c closed g gd)) (close_events env total i ids closed)
    = at_prog (acting n e c (closed + length (close_removed env i ids)) g gd).
Proof.
  induction ids as [|tid rest IH]; intros i closed Htotal;
    cbn [close_events close_removed].
  - cbn [chain run foldl length]. by rewrite Nat.add_0_r.
  - destruct (tabs_remove_ok env i tid); [|by apply IH].
    cbn [chain run foldl length].
    rewrite (on_closing_progress n e c closed g gd) by done.
    destruct (IH (S i) (S closed) Htotal) as [Hchain Hrun].
    split; [split; [|done]|].
    + apply shown_mono. rise.
    + unfold run in Hrun. rewrite Hrun. do 2 f_equal. lia.
Qed.

(** The closing stage. *)
Lemma closing_chain n e c g toClose :
  (from_option length 0%nat toClose ≤ c)%nat →
  ∃ cd, chain (at_prog (acting n e c 0 g 0)) (closing_events env toClose)
        ∧ run (at_prog (acting n e c 0 g 0)) (closing_events env toClose)
          = at_prog (acting n e c cd g 0).
Proof.
  intros Hc. destruct toClose as [ids|]; cbn [closing_events from_option] in *.
  - destruct (close_chain n e c g 0 (length ids) ids 0 0 Hc) as [Hchain Hrun].
    eexists. rewrite chain_app, run_app, Hrun. cbn [chain run foldl].
    rewrite on_closing_done. split; [|reflexivity].
    split; [done|]. split; [|done]. reflexivity.
  - exists 0%nat. by cbn.
Qed.

(** The grouping loop. *)
Lemma group_chain n e c cd g total created : ∀ grouped,
  (total ≤ g)%nat →
  chain (at_prog (acting n e c cd g grouped)) (group_events total created grouped)
  ∧ run (at_prog (acting n e c cd g grouped)) (group_events total created grouped)
    = at_prog (acting n e c cd g (grouped + length created)).
Proof.
  induction created as [|[[group tabIds] gid] rest IH]; intros grouped Htotal;
    cbn [group_events].
  - cbn [chain run foldl length]. by rewrite Nat.add_0_r.
  - cbn [chain run foldl length].
    rewrite (on_group_progress n e c cd g grouped) by done.
    destruct (IH (S grouped) Htotal) as [Hchain Hrun].
    split; [split; [|done]|].
    + apply shown_mono. rise.
    + unfold run in Hrun. rewrite Hrun. do 2 f_equal. lia.
Qed.

(** The grouping stage. *)
Lemma grouping_chain n e c cd g tabGroups :
  (length (default [] tabGroups) ≤ g)%nat →
  ∃ gd, chain (at_prog (acting n e c cd g 0)) (grouping_events env tabGroups)
        ∧ run (at_prog (acting n e c cd g 0)) (grouping_events env tabGroups)
          = at_prog (acting n e c cd g gd).
Proof.
  intros Hg. destruct tabGroups as [[|x xs]|]; cbn [grouping_events]; 
    try (exists 0%nat; by cbn).
  cbn [default from_option id] in Hg. revert Hg. generalize (x :: xs). intros groups Hg.
  destruct (group_chain n e c cd g (length groups) (group_created env 0 groups) 0 Hg)
    as [Hchain Hrun].
  eexists. rewrite chain_app, run_app, Hrun. cbn [chain run foldl].
  rewrite on_grouping_done. split; [|reflexivity].
  split; [done|]. split; [|done]. reflexivity.
Qed.

(** The counts announced by [ai_response] bound those of the stages. *)
Definition counts_ok (p : Plan) : Prop :=
  (from_option length 0%nat (plan_toClose p)
   ≤ from_option length 0%nat (Js.as_array (Js.get (plan_analysis p) "tabsToClose")))%nat
  ∧ (length (default [] (plan_tabGroups p))
     ≤ if plan_withGroups p
       then from_option length 0%nat (Js.as_array (Js.get (plan_analysis p) "tabGroups"))
       else 0)%nat.

(** From [start] to [ai_response], in a popup that was reset. *)
Lemma classify_chain (p : Plan) (pp : State) :
  ∃ c g,
    chain (click_start pp) (P_start :: classify_events p)
    ∧ run (click_start pp) (P_start :: classify_events p)
      = mkState (acting (length (plan_tabs p)) (length (plan_tabs p)) c 0 g 0)
                (shown (answered (length (plan_tabs p)) (length (plan_tabs p))))
    ∧ (counts_ok p →
       (from_option length 0%nat (plan_toClose p) ≤ c)%nat
       ∧ (length (default [] (plan_tabGroups p)) ≤ g)%nat).
Proof.
  set (n := length (plan_tabs p)).
  eexists _, _. rewrite click_start_state. unfold classify_events. fold n.
  cbn [chain run foldl]. rewrite on_start. cbn [prog].
  change (foldl onProgress (at_prog (extracting 0 0)) ?l) with (run (at_prog (extracting 0 0)) l).
  rewrite !chain_app, !run_app. cbn [chain run foldl].
  rewrite (on_tabs_collected n) by reflexivity.
  destruct (extract_chain n (plan_tabs p) 0) as [Hchain Hrun].
  change (foldl onProgress (at_prog (extracting n 0)) ?l) with (run (at_prog (extracting n 0)) l).
  rewrite Hrun. cbn [Nat.add]. fold n.
  rewrite (on_ai_request n n) by reflexivity.
  unfold ai_response_msg. rewrite (on_ai_response n n) by reflexivity.
  split; [|split; [reflexivity|]].
  - split; [apply shown_range|]. split; [split; [apply shown_mono; rise|done]|].
    split; [done|]. split; [apply shown_mono; rise|].
    split; [|done]. cbn [percent at_prog]. apply shown_mono. rise.
  - intros [Hc Hg]. done.
Qed.

(** After [ai_response], from a popup in step with its [prog]. *)
Lemma act_chain (p : Plan) n e c g :
  (from_option length 0%nat (plan_toClose p) ≤ c)%nat →
  (length (default [] (plan_tabGroups p)) ≤ g)%nat →
  chain (at_prog (acting n e c 0 g 0)) (act_events env p).
Proof.
  intros Hc Hg. unfold act_events.
  destruct (closing_chain n e c g (plan_toClose p) Hc) as (cd & Hchain1 & Hrun1).
  destruct (grouping_chain n e c cd g (plan_tabGroups p) Hg) as (gd & Hchain2 & Hrun2).
  rewrite !chain_app, Hrun1, Hrun2. split; [done|]. split; [done|].
  cbn [chain]. split; [|done]. rewrite on_complete. apply shown_range.
Qed.

(** *** The undo job *)

(** The percentages of the ungrouping and of the reopening stage. *)
Definition ungroup_pct (total k : nat) : Z := clamp (20 + round (ratio k total * 20)).
Definition reopen_pct (total k : nat) : Z := clamp (50 + round (ratio k total * 45)).

Lemma ratio_le_1 k total : (0 < total)%nat → (k ≤ total)%nat → (ratio k total <= 1)%Q.
Proof.
  intros Hpos Hle. unfold ratio, Qle. simpl.
  rewrite <- (positive_nat_Z (Pos.of_nat total)), Nat2Pos.id by lia. lia.
Qed.

Lemma ungroup_pct_mono total k k' : (k ≤ k')%nat → ungroup_pct total k ≤ ungroup_pct total k'.
Proof.
  intros H. apply clamp_mono. pose proof (ratio_mono k k' total H).
  assert (round (ratio k total * 20) ≤ round (ratio k' total * 20)); [|lia].
  apply round_mono. lra.
Qed.

Lemma ungroup_pct_le total k :
  (0 < total)%nat → (k ≤ total)%nat → ungroup_pct total k ≤ 40.
Proof.
  intros Hpos Hle. pose proof (ratio_le_1 k total Hpos Hle).
  assert (round (ratio k total * 20) ≤ round 20) by (apply round_mono; lra).
  change (round 20) with 20 in *. unfold ungroup_pct, clamp. lia.
Qed.

Lemma reopen_pct_mono total k k' : (k ≤ k')%nat → reopen_pct total k ≤ reopen_pct total k'.
Proof.
  intros H. apply clamp_mono. pose proof (ratio_mono k k' total H).
  assert (round (ratio k total * 45) ≤ round (ratio k' total * 45)); [|lia].
  apply round_mono. lra.
Qed.

Lemma reopen_pct_ge total k : 50 ≤ reopen_pct total k.
Proof.
  pose proof (ratio_nonneg k total).
  assert (round 0 ≤ round (ratio k total * 45)) by (apply round_mono; lra).
  change (round 0) with 0 in *. unfold reopen_pct, clamp. lia.
Qed.

Lemma on_undo_grouping_progress s k total :
  (0 < total)%nat →
  percent (onProgress s (P_undo_grouping_progress k total)) = ungroup_pct total k.
Proof. intros H. cbn [onProgress]. apply Nat.ltb_lt in H. by rewrite H. Qed.

Lemma on_undo_reopen_progress s k total :
  (0 < total)%nat →
  percent (onProgress s (P_undo_reopen_progress k total)) = reopen_pct total k.
Proof. intros H. cbn [onProgress]. apply Nat.ltb_lt in H. by rewrite H. Qed.

Lemma ungroup_chain total batches : ∀ i processed s,
  (0 < total)%nat → (processed + length batches ≤ total)%nat →
  percent s ≤ ungroup_pct total processed →
  chain s (ungroup_events env total i batches processed)
  ∧ percent (run s (ungroup_events env total i batches processed)) ≤ 40.
Proof.
  induction batches as [|b rest IH]; intros i processed s Hpos Hlen Hs;
    cbn [ungroup_events length] in *.
  - cbn [chain run foldl]. split; [done|].
    pose proof (ungroup_pct_le total processed Hpos). lia.
  - pose proof (ungroup_pct_mono total processed (S processed)).
    destruct (tabs_ungroup_ok env i b).
    + cbn [chain run foldl].
      destruct (IH (S i) (S processed) (onProgress s (P_undo_grouping_progress (S processed) total)))
        as [Hchain Hrun]; [done|lia| |].
      { rewrite on_undo_grouping_progress by done. lia. }
      split; [|done]. split; [|done].
      rewrite on_undo_grouping_progress by done. lia.
    + apply IH; [done|lia|lia].
Qed.

Lemma ungrouping_chain batches s :
  percent s ≤ 20 →
  chain s (ungrouping_events env batches)
  ∧ percent (run s (ungrouping_events env batches)) ≤ 40.
Proof.
  intros Hs. unfold ungrouping_events. destruct batches as [|b rest] eqn:Hb.
  { cbn [chain run foldl]. split; [done|lia]. }
  rewrite <- Hb. assert (0 < length batches)%nat as Hpos by (subst; simpl; lia).
  clear Hb. rewrite chain_app, run_app.
  destruct (ungroup_chain (length batches) batches 0 0 s Hpos) as [Hchain Hrun]; [lia| |].
  { assert (20 ≤ ungroup_pct (length batches) 0); [|lia].
    pose proof (ratio_nonneg 0 (length batches)).
    assert (round 0 ≤ round (ratio 0 (length batches) * 20)) by (apply round_mono; lra).
    change (round 0) with 0 in *. unfold ungroup_pct, clamp. lia. }
  split; [split; [done|]|].
  - cbn [chain onProgress setPercentZ percent]. change (clamp 40) with 40. lia.
  - cbn [run foldl onProgress setPercentZ percent]. change (clamp 40) with 40. lia.
Qed.

Lemma reopen_chain total metas : ∀ i reopened s,
  (0 < total)%nat →
  percent s ≤ reopen_pct total reopened →
  chain s (reopen_events env total i metas reopened)
  ∧ percent (run s (reopen_events env total i metas reopened)) ≤ 100.
Proof.
  induction metas as [|meta rest IH]; intros i reopened s Hpos Hs;
    cbn [reopen_events].
  - cbn [chain run foldl]. split; [done|].
    pose proof (clamp_range (50 + round (ratio reopened total * 45))).
    unfold reopen_pct in Hs. lia.
  - pose proof (reopen_pct_mono total reopened (S reopened)).
    destruct (reopens env i meta).
    + cbn [chain run foldl].
      destruct (IH (S i) (S reopened)
                  (onProgress s (P_undo_reopen_progress (S reopened) total)))
        as [Hchain Hrun]; [done| |].
      { rewrite on_undo_reopen_progress by done. lia. }
      split; [|done]. split; [|done].
      rewrite on_undo_reopen_progress by done. lia.
    + by apply IH.
Qed.

Lemma reopening_chain metas s :
  percent s ≤ 50 →
  chain s (reopening_events env metas)
  ∧ percent (run s (reopening_events env metas)) ≤ 100.
Proof.
  intros Hs. unfold reopening_events. destruct metas as [|m rest] eqn:Hm.
  { cbn [chain run foldl]. split; [done|lia]. }
  rewrite <- Hm. assert (0 < length metas)%nat as Hpos by (subst; simpl; lia).
  clear Hm. rewrite chain_app, run_app.
  destruct (reopen_chain (length metas) metas 0 0 s Hpos) as [Hchain Hrun].
  { pose proof (reopen_pct_ge (length metas) 0). lia. }
  split; [split; [done|]|].
  - cbn [chain onProgress]. split; [lia|done].
  - by cbn [run foldl onProgress].
Qed.

(** The messages of an undo, in a popup whose undo button was clicked. *)
Lemma undone_chain (a : Action) (pp : State) :
  chain (click_undo pp)
    (P_undo_start :: ungrouping_events env (groupedTabIds a)
       ++ reopening_events env (closedTabs a) ++ [P_undo_complete]).
Proof.
  cbn [chain]. split; [by cbn|].
  set (s1 := onProgress (click_undo pp) P_undo_start).
  assert (percent s1 = 5) as H1 by reflexivity.
  destruct (ungrouping_chain (groupedTabIds a) s1) as [Hc1 Hr1]; [lia|].
  destruct (reopening_chain (closedTabs a) (run s1 (ungrouping_events env (groupedTabIds a))))
    as [Hc2 Hr2]; [lia|].
  rewrite !chain_app. split; [done|]. split; [done|].
  cbn [chain]. split; [|done]. by rewrite on_undo_complete.
Qed.

Lemma close_events_recompute total ids : ∀ i closed,
  Forall (λ m, recomputes m = true) (close_events env total i ids closed).
Proof.
  induction ids as [|tid rest IH]; intros i closed; cbn [close_events]; [constructor|].
  destruct (tabs_remove_ok env i tid); [constructor; [done|]|]; apply IH.
Qed.

Lemma group_events_recompute total created : ∀ grouped,
  Forall (λ m, recomputes m = true) (group_events total created grouped).
Proof.
  induction created as [|[[group tabIds] gid] rest IH]; intros grouped;
    cbn [group_events]; constructor; [done|apply IH].
Qed.

Lemma act_events_recompute (p : Plan) :
  Forall (λ m, recomputes m = true) (act_events env p).
Proof.
  unfold act_events, closing_events, grouping_events.
  repeat apply Forall_app_2.
  - destruct (plan_toClose p); [|constructor].
    apply Forall_app_2; [apply close_events_recompute | by repeat constructor].
  - destruct (plan_tabGroups p) as [[|x xs]|]; try constructor.
    generalize (x :: xs). intros groups.
    apply Forall_app_2; [apply group_events_recompute | by repeat constructor].
  - by repeat constructor.
Qed.

End Stages.

Lemma percents_all_recompute msgs p x y :
  Forall (λ m, recomputes m = true) msgs →
  percents (mkState p x) msgs = percents (mkState p y) msgs.
Proof.
  destruct msgs as [|m rest]; [done|]. intros H. apply Forall_cons in H as [H _].
  by apply percents_recomputes.
Qed.

(** A job that ends on [complete] or on [undo_complete] ends at 100. *)
Lemma terminal_is_100 s msgs :
  last msgs = Some P_complete ∨ last msgs = Some P_undo_complete →
  percent (run s msgs) = 100.
Proof.
  intros [H|H]; apply last_Some in H as [l ->]; by rewrite run_app.
Qed.

End PopupFacts.





(** The messages up to and including the first [ai_response], and the
    messages after it. *)
Fixpoint upto_ai_response (msgs : list Progress) : list Progress * list Progress :=
  match msgs with
  | [] => ([], [])
  | m :: rest =>
      match m with
      | P_ai_response _ _ _ => ([m], rest)
      | _ => (m :: fst (upto_ai_response rest), snd (upto_ai_response rest))
      end
  end.

Definition is_ai_response (m : Progress) : bool :=
  match m with P_ai_response _ _ _ => true | _ => false end.

(** The pipelines that the popup starts, and the click that starts each:
    the organize and close-only buttons reset [prog], the undo button does
    not. *)
Definition from_popup (p : Pipeline) : bool :=
  match p with
  | Organize _ | CloseOnly _ | Undo => true
  | _ => false
  end.

Definition click_of (p : Pipeline) : Popup.State → Popup.State :=
  match p with
  | Undo => Popup.click_undo
  | _ => Popup.click_start
  end.

(** The two properties of the percentages of a job: they never go down
    from the start to [ai_response], nor from the message after
    [ai_response] to the end; and a job that ends on [complete] or
    [undo_complete] ends at 100. *)
Definition rises_twice (start : Popup.State) (msgs : list Progress) : Prop :=
  Sorted Z.le (Popup.percents start (fst (upto_ai_response msgs)))
  ∧ Sorted Z.le (Popup.percents (Popup.run start (fst (upto_ai_response msgs)))
                   (snd (upto_ai_response msgs)))
  ∧ (last msgs = Some P_complete ∨ last msgs = Some P_undo_complete →
     Popup.percent (Popup.run start msgs) = 100%Z).

Section ProgressFacts.

Import Popup PopupFacts.

Variable JSON_parse : string → option JsValue.
Variable env : Env.

Lemma upto_no_response msgs :
  Forall (λ m, is_ai_response m = false) msgs → upto_ai_response msgs = (msgs, []).
Proof.
  induction 1 as [|m rest Hm _ IH]; [done|].
  simpl. rewrite IH. by destruct m.
Qed.

Lemma upto_first_response a m b :
  Forall (λ m, is_ai_response m = false) a → is_ai_response m = true →
  upto_ai_response (a ++ m :: b) = (a ++ [m], b).
Proof.
  intros Ha Hm. induction Ha as [|x rest Hx _ IH]; simpl.
  - by destruct m.
  - rewrite IH. by destruct x.
Qed.

Lemma extract_events_no_response total tabs : ∀ i,
  Forall (λ m, is_ai_response m = false) (extract_events total i tabs).
Proof. induction tabs as [|t rest IH]; intros i; simpl; constructor; [done|apply IH]. Qed.

Lemma upto_completed (p : Plan) :
  upto_ai_response (P_start :: classify_events p ++ act_events env p)
  = (P_start :: classify_events p, act_events env p).
Proof.
  unfold classify_events, ai_response_msg.
  set (n := length (plan_tabs p)).
  match goal with
  | |- context [P_ai_response ?c ?g ?r] => set (m := P_ai_response c g r)
  end.
  replace (P_start :: ([P_tabs_collected n] ++ extract_events n 0 (plan_tabs p)
                        ++ [P_ai_request n; m]) ++ act_events env p)
    with ((P_start :: P_tabs_collected n :: extract_events n 0 (plan_tabs p)
             ++ [P_ai_request n]) ++ m :: act_events env p)
    by (cbn [app]; rewrite <- !app_assoc; reflexivity).
  rewrite upto_first_response; [|repeat constructor|done].
  - f_equal. cbn [app]. rewrite <- !app_assoc. reflexivity.
  - apply Forall_app_2; [apply extract_events_no_response | by repeat constructor].
Qed.

Lemma sent_completed p s :
  sent (completed env p s) = sent s ++ P_start :: classify_events p ++ act_events env p.
Proof. unfold completed. by destruct (local_set_ok env). Qed.

Lemma sent_undone a s :
  sent (undone env a s)
  = sent s ++ P_undo_start :: ungrouping_events env (groupedTabIds a)
             ++ reopening_events env (closedTabs a) ++ [P_undo_complete].
Proof. unfold undone. by destruct (local_remove_ok env). Qed.

(** The percentages of a run that completed. *)
Lemma completed_rises (p : Plan) (pp : State) :
  counts_ok p →
  rises_twice (click_start pp) (P_start :: classify_events p ++ act_events env p).
Proof.
  intros Hcounts. unfold rises_twice. rewrite upto_completed. cbn [fst snd].
  destruct (classify_chain p pp) as (c & g & Hchain & Hrun & Hbound).
  destruct (Hbound Hcounts) as [Hc Hg].
  split; [by apply chain_sorted|]. split.
  - rewrite Hrun.
    rewrite (percents_all_recompute _ _ _
               (shown (acting (length (plan_tabs p)) (length (plan_tabs p)) c 0 g 0)))
      by apply act_events_recompute.
    apply chain_sorted. by apply act_chain.
  - apply terminal_is_100.
Qed.

(** The percentages of a run that ended on an error before it collected
    the tabs. *)
Lemma failed_rises (e : Exn) (pp : State) :
  rises_twice (click_start pp) [P_start; P_error e].
Proof.
  unfold rises_twice. cbn [upto_ai_response fst snd]. split; [|split].
  - apply chain_sorted. cbn [chain]. rewrite on_start. split; [apply shown_range|].
    split; [|done]. reflexivity.
  - constructor.
  - apply terminal_is_100.
Qed.

Lemma counts_ok_organize settings storedKeys stored tabs :
  counts_ok (organize_plan JSON_parse env settings storedKeys stored tabs).
Proof.
  unfold counts_ok, organize_plan.
  cbn [plan_toClose plan_tabGroups plan_withGroups plan_analysis].
  split.
  - destruct (autoClose_of settings stored); [done|]. cbn. lia.
  - by destruct (Js.as_array _).
Qed.

Lemma counts_ok_close settings storedKeys stored tabs :
  counts_ok (close_plan JSON_parse env settings storedKeys stored tabs).
Proof. unfold counts_ok, close_plan. by cbn. Qed.

Lemma refused_rises (pp : State) :
  rises_twice (click_undo pp) [P_undo_start; P_error "Nothing to undo."%string].
Proof.
  unfold rises_twice. cbn [upto_ai_response fst snd]. split; [|split].
  - apply chain_sorted. cbn [chain]. split; [by cbn|]. split; [|done]. reflexivity.
  - constructor.
  - apply terminal_is_100.
Qed.

Lemma ungroup_events_no_response total batches : ∀ i processed,
  Forall (λ m, is_ai_response m = false) (ungroup_events env total i batches processed).
Proof.
  induction batches as [|b rest IH]; intros i processed; simpl; [constructor|].
  destruct (tabs_ungroup_ok env i b); [constructor; [done|]|]; apply IH.
Qed.

Lemma reopen_events_no_response total metas : ∀ i reopened,
  Forall (λ m, is_ai_response m = false) (reopen_events env total i metas reopened).
Proof.
  induction metas as [|m rest IH]; intros i reopened; simpl; [constructor|].
  destruct (reopens env i m); [constructor; [done|]|]; apply IH.
Qed.

Lemma undone_rises (a : Action) (pp : State) :
  rises_twice (click_undo pp)
    (P_undo_start :: ungrouping_events env (groupedTabIds a)
       ++ reopening_events env (closedTabs a) ++ [P_undo_complete]).
Proof.
  unfold rises_twice. rewrite upto_no_response.
  - cbn [fst snd]. split; [|split].
    + apply chain_sorted, undone_chain.
    + constructor.
    + apply terminal_is_100.
  - constructor; [done|]. unfold ungrouping_events, reopening_events.
    repeat apply Forall_app_2.
    + destruct (groupedTabIds a) as [|b bs]; [constructor|]. generalize (b :: bs).
      intros batches. apply Forall_app_2; [apply ungroup_events_no_response|].
      by repeat constructor.
    + destruct (closedTabs a) as [|m ms]; [constructor|]. generalize (m :: ms).
      intros metas. apply Forall_app_2; [apply reopen_events_no_response|].
      by repeat constructor.
    + by repeat constructor.
Qed.


End ProgressFacts.

(** ** The reference reader and the brace *)

Lemma RefJson_read_value_brace fuel s v rest :
  RefJson.read_value fuel (String "{" s) = Some (v, rest) → v ≠ JNull.
Proof.
  destruct fuel as [|fuel]; [done|].
  cbn [RefJson.read_value RefJson.skip_ws].
  change (RefJson.is_ws "{") with false. cbv iota.
  destruct (RefJson.skip_ws s) as [|a s'].
  - destruct (RefJson.read_members fuel s []) as [[ps r]|]; [|done]. by intros [= <- _].
  - destruct a as [[] [] [] [] [] [] [] []];
      try (by intros [= <- _]);
      (destruct (RefJson.read_members fuel s []) as [[ps r]|]; [|done]; by intros [= <- _]).
Qed.

Lemma RefJson_parse_brace s v : RefJson.parse (String "{" s) = Some v → v ≠ JNull.
Proof.
  unfold RefJson.parse.
  destruct (RefJson.read_value _ _) as [[v' rest]|] eqn:H; [|done].
  destruct (RefJson.skip_ws rest); [|done]. intros [= <-].
  by eapply RefJson_read_value_brace.
Qed.

(** * Concrete runs *)

Module Runs.

Import Example.

Definition no_settings : Settings := mkSettings None None.
Definition with_autoClose : Settings := mkSettings None (Some true).
Definition no_keys : Keys := mkKeys None None None.

(** The provider answers with prose. *)
Definition prose_env : Env :=
  host_env two_tabs (Envelope (Some "Sorry, no JSON today"%string) None).

(** The provider wraps its JSON in prose. *)
Definition wrapped_env : Env :=
  host_env two_tabs
    (Envelope None (Some ("Sure! " ++ two_groups_answer ++ " Hope that helps!")%string)).

(** The provider asks to close tab 3, the active one. *)
Definition close3_env : Env :=
  host_env three_tabs (Envelope (Some (close_answer "3")) None).

(** The provider asks for two groups and no removal. *)
Definition groups_env : Env :=
  host_env two_tabs (Envelope (Some two_groups_answer) None).

(** The provider asks for nothing. *)
Definition nothing_env : Env :=
  host_env two_tabs (Envelope (Some (close_answer "")) None).

(** A worker at rest whose journal holds one closed tab. *)
Definition closed_one : Bg :=
  mkBg false
    (Some (mkAction TClose [mkClosedMeta "https://a.example" 1 2 false false] [] 5))
    ∅ [] [].

(** A worker at rest whose journal holds an action of type ["none"]. *)
Definition recorded_none : Bg :=
  mkBg false (Some (mkAction TNone [] [] 5)) ∅ [] [].



Lemma lock_released_witness :
  ∃ s', run_pipeline RefJson.parse groups_env (Organize with_autoClose) idle = (Ok tt, s')
        ∧ isProcessing s' = false.
Proof. apply lock_released. reflexivity. Defined.

Lemma busy_start_ignored_witness :
  onMessage RefJson.parse groups_env (A_organizeTabsAndClose None) busy
  = (Ok R_success, busy).
Proof. apply busy_start_ignored; reflexivity. Defined.


Lemma undo_nothing_to_undo_witness :
  ∃ s', undoLastAction groups_env recorded_none = (Ok tt, s')
        ∧ sent s' = sent recorded_none ++ [P_undo_start; P_error "Nothing to undo."%string]
        ∧ lastAction s' = lastAction recorded_none
        ∧ host s' = host recorded_none
        ∧ recentTouch s' = recentTouch recorded_none
        ∧ isProcessing s' = false.
Proof.
  apply undo_nothing_to_undo; [reflexivity|].
  right. eexists. split; reflexivity.
Defined.

Lemma automatic_removals_protected_witness :
  ∃ s' calls,
    organizeTabsGeneric RefJson.parse close3_env "openai" "gpt-4.1" no_keys 5 true idle
      = (Ok tt, s')
    ∧ host s' = host idle ++ calls
    ∧ ∀ tid, H_remove tid ∈ calls →
        ∃ tabs t,
          tabs_query close3_env = inr tabs ∧ t ∈ tabs ∧ tid = JNum (tab_id t)
          ∧ (∀ t', t' ∈ tabs → tab_active t' = true → tab_id t' ≠ tab_id t)
          ∧ protected_url (tab_url t) = false
          ∧ (∀ touched, recentTouch idle !! tab_id t = Some touched → touched ≠ 0%Z →
                        (30000 ≤ nowTs close3_env - touched)%Z).
Proof. apply automatic_removals_protected. reflexivity. Defined.

Lemma recorded_type_witness :
  ∃ stored a calls,
    storage_sync_get groups_env 1 = inr stored
    ∧ lastAction (snd (organizeTabsAndClose RefJson.parse groups_env with_autoClose idle))
      = Some a
    ∧ host (snd (organizeTabsAndClose RefJson.parse groups_env with_autoClose idle))
      = host idle ++ calls
    ∧ type a = type_by_request (autoClose_of with_autoClose stored) calls.
Proof.
  apply (proj1 (recorded_type RefJson.parse groups_env with_autoClose idle
                  eq_refl eq_refl)).
  - by vm_compute.
  - by vm_compute.
Defined.


(** *** Where the code departs from the design document *)

(** C1 fails on the code.  Scenario 4 of the design document, in the
    close-only and in the organize pipeline: tab 3 is the active tab of the
    window, the provider lists it, and both pipelines remove it, where the
    claim excludes the active tab from the ids removed. *)
Lemma manual_pipelines_remove_the_active_tab :
  tabs_query close3_env = inr three_tabs
  ∧ tab 3 "https://c.example" true ∈ three_tabs
  ∧ host (snd (closeLowImportance RefJson.parse close3_env no_settings idle))
    = [H_remove (JNum 3)]
  ∧ host (snd (organizeTabsAndClose RefJson.parse close3_env with_autoClose idle))
    = [H_remove (JNum 3)].
Proof.
  split; [reflexivity|]. split; [|split; by vm_compute].
  do 2 right. left.
Qed.

(** Against C2 as stated.  A start request that meets a running job is
    answered [{success: true}], which reports no conflict. *)
Lemma busy_start_answers_success :
  isProcessing busy = true
  ∧ fst (onMessage RefJson.parse groups_env (A_organizeTabsAndClose None) busy)
    = Ok R_success
  ∧ fst (onMessage RefJson.parse groups_env (A_closeLowImportance None) busy)
    = Ok R_success
  ∧ ¬ conflict_reported
        (fst (onMessage RefJson.parse groups_env (A_organizeTabsAndClose None) busy))
  ∧ ¬ conflict_reported
        (fst (onMessage RefJson.parse groups_env (A_closeLowImportance None) busy)).
Proof. repeat split; try reflexivity; by vm_compute. Qed.


(** Against C5 as stated.  The close-only pipeline records ["close"], and
    the organize pipeline with [autoClose] too, after a run in which
    nothing was removed and nothing was grouped. *)
Lemma close_recorded_without_removal :
  last (sent (snd (closeLowImportance RefJson.parse nothing_env no_settings idle)))
    = Some P_complete
  ∧ host (snd (closeLowImportance RefJson.parse nothing_env no_settings idle)) = []
  ∧ type <$> lastAction (snd (closeLowImportance RefJson.parse nothing_env no_settings idle))
    = Some TClose
  ∧ type <$> lastAction
               (snd (organizeTabsAndClose RefJson.parse nothing_env with_autoClose idle))
    = Some TClose
  ∧ kind_by_outcome
      (host (snd (organizeTabsAndClose RefJson.parse nothing_env with_autoClose idle)))
    = TNone
  ∧ kind_by_outcome
      (host (snd (closeLowImportance RefJson.parse nothing_env no_settings idle)))
    = TNone.
Proof. repeat split; by vm_compute. Qed.

(** Against C6 as stated.  While a job is in progress,
    [debugCloseAllTabs] removes tabs and overwrites the journal, and
    [createDebugTabs] opens tabs. *)
Lemma debug_helpers_run_while_busy :
  isProcessing busy = true
  ∧ host (snd (debugCloseAllTabs close3_env busy)) = [H_remove_many [1; 2]%Z]
  ∧ type <$> lastAction (snd (debugCloseAllTabs close3_env busy)) = Some TClose
  ∧ lastAction busy = None
  ∧ host (snd (createDebugTabs close3_env busy))
    = [H_create "https://www.wikipedia.org" None 200;
       H_create "https://www.github.com" None 201].
Proof. repeat split; by vm_compute. Qed.

End Runs.

(** * Further properties of the worker *)

(** ** Host calls by kind *)

Definition is_remove_many (c : HostCall) : bool :=
  match c with H_remove_many _ => true | _ => false end.

Definition is_ungroup (c : HostCall) : bool :=
  match c with H_ungroup _ => true | _ => false end.

(** A call that takes a tab away from the user. *)
Definition removes (c : HostCall) : bool := is_remove c || is_remove_many c.

(** A call of the reopening loop: create, move, pin. *)
Definition restores (c : HostCall) : bool :=
  match c with
  | H_create _ _ _ | H_move _ _ _ | H_pin _ => true
  | _ => false
  end.

(** The urls of the tabs created, in order. *)
Definition created_urls (calls : list HostCall) : list string :=
  omap (λ c, match c with H_create url _ _ => Some url | _ => None end) calls.

(** The tab ids handed to [chrome.tabs.group], in order. *)
Definition grouped_batches (calls : list HostCall) : list (list JsValue) :=
  omap (λ c, match c with H_group tabIds _ => Some tabIds | _ => None end) calls.

(** The messages that carry a terminal stage. *)
Definition is_terminal (m : Progress) : bool :=
  match m with
  | P_complete | P_error _ | P_undo_complete => true
  | _ => false
  end.

(** The entry that the closing loop pushes for a candidate: none when the
    id names no collected tab, or a tab without url. *)
Definition closed_meta (idToTab : gmap Z Tab) (tabId : JsValue) : option ClosedMeta :=
  original ← idToTab_get idToTab tabId;
  if String.eqb (tab_url original) "" then None
  else Some (mkClosedMeta (tab_url original) (tab_windowId original)
               (tab_index original) (tab_active original) (tab_pinned original)).

(** The requests that start a job or a debug helper. *)
Definition is_job (m : Message) : bool :=
  match m with
  | A_organizeTabsAndClose _ | A_debugCreateTabs | A_debugCloseAllTabs
  | A_closeLowImportance _ | A_undoLastAction => true
  | _ => false
  end.

(** [Array.isArray(v)] and [typeof v === "object" && v !== null]. *)
Definition is_object (v : JsValue) : bool :=
  match v with
  | JObj _ | JArr _ _ => true
  | _ => false
  end.

(** ** The closing loop *)

Section ClosingFacts.

Variable env : Env.

Lemma close_events_numbered total ids : ∀ i closed,
  close_events env total i ids closed
  = imap (λ k tabId, P_closing_progress (S (closed + k)) total tabId)
      (close_removed env i ids).
Proof.
  induction ids as [|tabId rest IH]; intros i closed; simpl; [done|].
  destruct (tabs_remove_ok env i tabId); [|apply IH].
  rewrite imap_cons, Nat.add_0_r. f_equal. rewrite IH.
  apply imap_ext. intros k x _. simpl. do 2 f_equal. lia.
Qed.

Lemma close_removed_sublist ids : ∀ i, close_removed env i ids `sublist_of` ids.
Proof.
  induction ids as [|tabId rest IH]; intros i; simpl; [done|].
  destruct (tabs_remove_ok env i tabId); [apply sublist_skip | apply sublist_cons]; apply IH.
Qed.

Lemma close_metas_omap idToTab ids : ∀ acc,
  close_metas idToTab ids acc = acc ++ omap (closed_meta idToTab) ids.
Proof.
  unfold close_metas.
  induction ids as [|tabId rest IH]; intros acc; simpl; [by rewrite app_nil_r|].
  rewrite IH. unfold push_meta, closed_meta.
  destruct (idToTab_get idToTab tabId) as [original|]; simpl; [|done].
  destruct (String.eqb (tab_url original) ""); [done|]. by rewrite <- app_assoc.
Qed.



End ClosingFacts.

(** ** The grouping loop *)

Section GroupingFacts.

Variable env : Env.

Lemma group_calls_kinds groups : ∀ i,
  Forall (λ c, is_group c || is_group_update c = true) (group_calls env i groups).
Proof.
  induction groups as [|g rest IH]; intros i; simpl; [constructor|].
  destruct g; try apply IH;
    (destruct (Js.as_array _) as [[|x xs]|]; try apply IH;
     destruct (tabs_group env i _); try apply IH;
     destruct (tabGroups_update_ok env i _);
     repeat (constructor; [done|]); apply IH).
Qed.

Lemma batches_were_grouped groups : ∀ i b,
  b ∈ batches_of (group_created env i groups) →
  b ≠ [] ∧ ∃ gid, H_group b gid ∈ group_calls env i groups.
Proof.
  induction groups as [|g rest IH]; intros i b; simpl; [by intros ?%elem_of_nil|].
  assert (b ∈ batches_of (group_created env (S i) rest) →
          ∀ pre, b ≠ [] ∧ ∃ gid, H_group b gid ∈ pre ++ group_calls env (S i) rest) as Hskip.
  { intros H pre. destruct (IH _ _ H) as [Hne [gid Hgid]].
    split; [done|]. exists gid. apply elem_of_app. by right. }
  destruct g; try (intros H; apply (Hskip H []));
    (destruct (Js.as_array _) as [[|x xs]|]; try (intros H; apply (Hskip H []));
     destruct (tabs_group env i _) as [gid|]; try (intros H; apply (Hskip H []));
     destruct (tabGroups_update_ok env i _);
     [ unfold batches_of; rewrite fmap_cons; simpl;
       intros [->|H]%elem_of_cons;
       [ split; [done|]; exists gid; by left
       | apply (Hskip H [_; _]) ]
     | intros H; apply (Hskip H [_]) ]).
Qed.

Lemma updates_count groups : ∀ i,
  length (List.filter is_group_update (group_calls env i groups))
  = length (group_created env i groups).
Proof.
  induction groups as [|g rest IH]; intros i; simpl; [done|].
  destruct g; try apply IH;
    (destruct (Js.as_array _) as [[|x xs]|]; try apply IH;
     destruct (tabs_group env i _); try apply IH;
     destruct (tabGroups_update_ok env i _); simpl; by rewrite IH).
Qed.

Lemma grouped_nonempty groups : ∀ i,
  Forall (λ b, b ≠ []) (grouped_batches (group_calls env i groups)).
Proof.
  induction groups as [|g rest IH]; intros i; simpl; [constructor|].
  destruct g; try apply IH;
    (destruct (Js.as_array _) as [[|x xs]|]; try apply IH;
     destruct (tabs_group env i _); try apply IH;
     destruct (tabGroups_update_ok env i _); simpl;
     (constructor; [done|apply IH])).
Qed.


End GroupingFacts.

(** ** Undo replays the journal *)

Section ReplayFacts.

Variable env : Env.

Lemma ungroup_calls_sublist batches : ∀ i,
  ∃ ungrouped, ungroup_calls env i batches = H_ungroup <$> ungrouped
               ∧ ungrouped `sublist_of` batches
               ∧ ((∀ k tabIds, tabs_ungroup_ok env k tabIds = true) →
                  ungrouped = batches).
Proof.
  induction batches as [|b rest IH]; intros i; simpl; [by exists []|].
  destruct (IH (S i)) as (l & -> & Hl & Hall).
  destruct (tabs_ungroup_ok env i b) eqn:Hb.
  - exists (b :: l). split; [done|]. split; [by apply sublist_skip|].
    intros H. f_equal. by apply Hall.
  - exists l. split; [done|]. split; [by apply sublist_cons|].
    intros H. by rewrite H in Hb.
Qed.

Lemma reopen_calls_one_restores i meta :
  Forall (λ c, restores c = true) (reopen_calls_one env i meta).
Proof.
  unfold reopen_calls_one.
  destruct (tabs_create env i _ (Some _)) as [[cid cw]|].
  - constructor; [done|]. apply Forall_app_2; case_match; by repeat constructor.
  - destruct (tabs_create env i _ None) as [[cid cw]|]; by repeat constructor.
Qed.

Lemma reopen_calls_restore metas : ∀ i,
  Forall (λ c, restores c = true) (reopen_calls env i metas).
Proof.
  induction metas as [|m rest IH]; intros i; simpl; [constructor|].
  apply Forall_app_2; [apply reopen_calls_one_restores | apply IH].
Qed.

Lemma created_urls_one i meta :
  created_urls (reopen_calls_one env i meta)
  = if reopens env i meta then [meta_url meta] else [].
Proof.
  unfold reopen_calls_one, reopens, created_urls.
  destruct (tabs_create env i _ (Some _)) as [[cid cw]|].
  - simpl. rewrite omap_app.
    by destruct (_ && tabs_move_ok env i cid), (_ && tabs_update_ok env i cid).
  - destruct (tabs_create env i _ None) as [[cid cw]|].
    + by rewrite bool_decide_eq_true_2 by eauto.
    + by rewrite bool_decide_eq_false_2 by (by intros [? ?]).
Qed.

Lemma created_urls_sublist metas : ∀ i,
  created_urls (reopen_calls env i metas) `sublist_of` meta_url <$> metas.
Proof.
  induction metas as [|m rest IH]; intros i; simpl; [done|].
  unfold created_urls in *. rewrite omap_app.
  fold (created_urls (reopen_calls_one env i m)). rewrite created_urls_one.
  destruct (reopens env i m); simpl; [apply sublist_skip | apply sublist_cons]; apply IH.
Qed.

Lemma created_urls_all metas : ∀ i,
  (∀ k meta, metas !! k = Some meta → reopens env (i + k) meta = true) →
  created_urls (reopen_calls env i metas) = meta_url <$> metas.
Proof.
  induction metas as [|m rest IH]; intros i Hall; simpl; [done|].
  unfold created_urls in *. rewrite omap_app.
  fold (created_urls (reopen_calls_one env i m)). rewrite created_urls_one.
  specialize (Hall 0%nat m eq_refl) as Hm. rewrite Nat.add_0_r in Hm. rewrite Hm.
  simpl. f_equal. apply IH. intros k meta Hk.
  specialize (Hall (S k) meta Hk). by rewrite Nat.add_succ_r in Hall.
Qed.

(** What an undo that finds a recorded action does to the host. *)
Lemma undo_replay (s : Bg) (a : Action) :
  isProcessing s = false →
  local_get_ok env = true →
  lastAction s = Some a →
  type a ≠ TNone →
  ∃ s' ungrouped reopened,
    undoLastAction env s = (Ok tt, s')
    ∧ host s' = host s ++ (H_ungroup <$> ungrouped) ++ reopened
    ∧ ungrouped `sublist_of` groupedTabIds a
    ∧ Forall (λ c, restores c = true) reopened
    ∧ created_urls reopened `sublist_of` meta_url <$> closedTabs a
    ∧ ((∀ k meta, closedTabs a !! k = Some meta → reopens env k meta = true) →
       created_urls reopened = meta_url <$> closedTabs a)
    ∧ ((∀ k tabIds, tabs_ungroup_ok env k tabIds = true) → ungrouped = groupedTabIds a)
    ∧ (closedTabs a = [] → reopened = [])
    ∧ last (sent s') = Some P_undo_complete.
Proof.
  intros Hidle Hget Ha Htype.
  destruct (ungroup_calls_sublist (groupedTabIds a) 0)
    as (ungrouped & Hcalls & Hsub & Hungrouped).
  exists (undone env a s), ungrouped, (reopen_calls env 0 (closedTabs a)).
  split; [apply undo_undone; [done| |done]; unfold journal_read; by rewrite Hget|].
  split; [unfold undone; rewrite <- Hcalls; by destruct (local_remove_ok env)|].
  split; [done|]. split; [apply reopen_calls_restore|].
  split; [apply created_urls_sublist|].
  split; [intros Hall; by apply created_urls_all|].
  split; [done|]. split; [by intros ->|apply last_sent_undone].
Qed.

(** X7.  An undo that finds a recorded action replays it and nothing
    else: first it ungroups batches of the record, in the order of the
    record (the ones the host rejects leave no call), then it only creates,
    moves and pins tabs; the urls it creates are urls of the record, in the
    order of the record, and all of them when every creation succeeds, in
    the original window or in the current one. *)
Theorem undo_replays_the_journal (s : Bg) (a : Action) :
  isProcessing s = false →
  local_get_ok env = true →
  lastAction s = Some a →
  type a ≠ TNone →
  ∃ s' ungrouped reopened,
    undoLastAction env s = (Ok tt, s')
    ∧ host s' = host s ++ (H_ungroup <$> ungrouped) ++ reopened
    ∧ ungrouped `sublist_of` groupedTabIds a
    ∧ Forall (λ c, restores c = true) reopened
    ∧ created_urls reopened `sublist_of` meta_url <$> closedTabs a
    ∧ ((∀ k meta, closedTabs a !! k = Some meta → reopens env k meta = true) →
       created_urls reopened = meta_url <$> closedTabs a).
Proof.
  intros Hidle Hget Ha Htype.
  destruct (undo_replay s a Hidle Hget Ha Htype)
    as (s' & ungrouped & reopened & H1 & H2 & H3 & H4 & H5 & H6 & _).
  by exists s', ungrouped, reopened.
Qed.

End ReplayFacts.


(** The batches of the groups that were created and then labelled: the
    tab ids of each grouping that a labelling follows at once. *)
Fixpoint labelled (calls : list HostCall) : list (list JsValue) :=
  match calls with
  | [] => []
  | H_group tabIds _ :: rest =>
      match rest with
      | H_group_update _ _ _ :: _ => tabIds :: labelled rest
      | _ => labelled rest
      end
  | _ :: rest => labelled rest
  end.

Section RoundTripFacts.

Variable JSON_parse : string → option JsValue.

Lemma labelled_group_calls (env : Env) groups : ∀ i,
  labelled (group_calls env i groups) = batches_of (group_created env i groups).
Proof.
  assert (∀ i gs, match group_calls env i gs with
                  | H_group_update _ _ _ :: _ => False
                  | _ => True
                  end) as Hhead.
  { intros i gs. revert i. induction gs as [|g rest IH]; intros i; simpl; [done|].
    destruct g; try apply IH;
      (destruct (Js.as_array _) as [[|x xs]|]; try apply IH;
       destruct (tabs_group env i _); try apply IH;
       by destruct (tabGroups_update_ok env i _)). }
  induction groups as [|g rest IH]; intros i; simpl; [done|].
  destruct g; try apply IH;
    (destruct (Js.as_array _) as [[|x xs]|]; try apply IH;
     destruct (tabs_group env i _) as [gid|]; try apply IH;
     destruct (tabGroups_update_ok env i _);
     [ cbn [labelled]; unfold batches_of; rewrite fmap_cons; cbn [fst snd];
       f_equal; apply IH
     | cbn [labelled]; specialize (Hhead (S i) rest); specialize (IH (S i));
       destruct (group_calls env (S i) rest) as [|[] ?]; try done ]).
Qed.


(** X26.  Close all, then undo.  After a [debugCloseAllTabs] whose
    removal the host accepted and that wrote the journal, an undo on a host
    that accepts every creation only creates, moves and pins tabs, and
    creates one tab for each tab that was removed and had a url, with that
    url, in the order of the tabs. *)
Theorem close_all_then_undo_reopens (env1 env2 : Env) (s : Bg) (tabs current : list Tab) :
  isProcessing s = false →
  tabs_query env1 = inr tabs →
  tabs_query_current env1 = inr current →
  (∀ ids, tabs_remove_many_ok env1 ids = true) →
  local_set_ok env1 = true →
  local_get_ok env2 = true →
  (∀ k url, is_Some (tabs_create env2 k url None)) →
  ∃ s1 s2 reopened,
    debugCloseAllTabs env1 s = (Ok tt, s1)
    ∧ undoLastAction env2 s1 = (Ok tt, s2)
    ∧ host s2 = host s1 ++ reopened
    ∧ Forall (λ c, restores c = true) reopened
    ∧ created_urls reopened
      = tab_url <$>
          List.filter (λ t, negb (String.eqb (tab_url t) ""))
            (List.filter (λ t, bool_decide (Some (tab_id t) ≠ tab_id <$> head current))
               tabs).
Proof.
  intros Hidle Htabs Hcurrent Hremove Hset Hget Hcreate.
  set (others := List.filter (λ t, bool_decide (Some (tab_id t) ≠ tab_id <$> head current))
                   tabs).
  set (metas := (λ t, mkClosedMeta (tab_url t) (tab_windowId t) (tab_index t)
                        (tab_active t) (tab_pinned t))
                  <$> List.filter (λ t, negb (String.eqb (tab_url t) "")) others).
  set (a := mkAction TClose metas [] (recordTs env1)).
  assert (∃ s1, debugCloseAllTabs env1 s = (Ok tt, s1)
                ∧ lastAction s1 = Some a ∧ isProcessing s1 = false) as (s1 & Hrun & Ha & Hidle1).
  { unfold debugCloseAllTabs, try_catch. rewrite !bind_unfold, Htabs, await_inr.
    rewrite bind_unfold, Hcurrent, await_inr, bind_unfold.
    fold others. destruct (tab_id <$> others) as [|z zs]; unfold mret, M_ret, ret.
    - rewrite setLastAction_run, Hset. eexists. split; [reflexivity|]. by split.
    - rewrite Hremove. unfold modify. rewrite setLastAction_run, Hset.
      eexists. split; [reflexivity|]. by split. }
  destruct (undo_replay env2 s1 a Hidle1 Hget Ha ltac:(done))
    as (s2 & ungrouped & reopened & Hundo & Hhost & Hsub & Hkinds & _ & Hall & _).
  apply sublist_nil_r in Hsub as ->.
  exists s1, s2, reopened. split; [done|]. split; [done|]. split; [done|]. split; [done|].
  rewrite Hall.
  - unfold a, metas. cbn [closedTabs]. rewrite <- list_fmap_compose. by apply list_fmap_ext.
  - intros k meta _. unfold reopens. case_match; [done|]. by apply bool_decide_eq_true_2.
Qed.

End RoundTripFacts.

(** ** [debugCloseAllTabs] *)

(** [current?.[0]], when the query resolved. *)
Definition current_tab (env : Env) : option Tab :=
  match tabs_query_current env with
  | inr current => head current
  | inl _ => None
  end.

Section DebugCloseFacts.

Variable env : Env.

(** X9.  [debugCloseAllTabs] never throws and makes at most one host
    call, a removal of several tabs at once; the tabs it removes are the
    collected tabs whose id is not that of the current tab (the active tab
    of the current window), so the current tab is never among them; and when
    it changes the journal, it records a ["close"] with no group and with
    no entry that lacks a url. *)
Theorem debug_close_all_spares_current (s : Bg) :
  ∃ s' calls,
    debugCloseAllTabs env s = (Ok tt, s')
    ∧ host s' = host s ++ calls
    ∧ (calls = [] ∨
       ∃ tabs, tabs_query env = inr tabs
         ∧ calls = [H_remove_many
                      (tab_id <$> List.filter
                         (λ t, bool_decide (Some (tab_id t) ≠ tab_id <$> current_tab env))
                         tabs)])
    ∧ (∀ ids c, H_remove_many ids ∈ calls → current_tab env = Some c → tab_id c ∉ ids)
    ∧ (lastAction s' = lastAction s ∨
       ∃ a, lastAction s' = Some a ∧ type a = TClose ∧ groupedTabIds a = []
            ∧ Forall (λ m, meta_url m ≠ ""%string) (closedTabs a)).
Proof.
  assert (∀ (f : Tab → bool) (l : list Tab),
            Forall (λ m, meta_url m ≠ ""%string)
              ((λ t, mkClosedMeta (tab_url t) (tab_windowId t) (tab_index t)
                       (tab_active t) (tab_pinned t))
                 <$> List.filter (λ t, negb (String.eqb (tab_url t) "")) l)) as Hurls.
  { intros _ l. apply Forall_fmap, Forall_forall. intros t Ht.
    apply list_elem_of_In, filter_In in Ht as [_ Ht]. simpl.
    intros Heq. rewrite Heq in Ht. done. }
  assert (∀ (cur : option Z) (tabs : list Tab) c,
            cur = Some c →
            c ∉ tab_id <$> List.filter (λ t, bool_decide (Some (tab_id t) ≠ cur)) tabs)
    as Hspared.
  { intros cur tabs c -> Hin. apply list_elem_of_fmap in Hin as (t & -> & Ht).
    apply list_elem_of_In, filter_In in Ht as [_ Ht].
    by apply bool_decide_eq_true_1 in Ht. }
  unfold debugCloseAllTabs, try_catch, current_tab. rewrite !bind_unfold.
  destruct (tabs_query env) as [e|tabs].
  { exists s, []. rewrite app_nil_r. repeat split; try by left.
    intros ids c H. by apply elem_of_nil in H. }
  rewrite await_inr, bind_unfold.
  destruct (tabs_query_current env) as [e|current].
  { exists s, []. rewrite app_nil_r. repeat split; try by left.
    intros ids c H. by apply elem_of_nil in H. }
  rewrite await_inr, bind_unfold.
  destruct (tab_id <$> List.filter _ tabs) as [|z zs] eqn:Hids; unfold mret, M_ret, ret.
  - rewrite setLastAction_run. eexists _, []. split; [reflexivity|].
    split; [destruct (local_set_ok env); simpl; by rewrite app_nil_r|].
    split; [by left|]. split; [intros ids c H; by apply elem_of_nil in H|].
    destruct (local_set_ok env); [right|by left].
    eexists. split; [reflexivity|]. repeat split. apply (Hurls (λ _, true)).
  - destruct (tabs_remove_many_ok env (z :: zs)).
    + unfold modify. rewrite setLastAction_run. eexists _, [_].
      split; [reflexivity|].
      split; [destruct (local_set_ok env); reflexivity|].
      split; [right; exists tabs; split; [done|]; by rewrite <- Hids|].
      split.
      * intros ids c [= ->]%list_elem_of_singleton Hc. rewrite <- Hids.
        apply Hspared. by rewrite Hc.
      * destruct (local_set_ok env); [right|by left].
        eexists. split; [reflexivity|]. repeat split. apply (Hurls (λ _, true)).
    + exists s, []. rewrite app_nil_r. repeat split; try by left.
      intros ids c H. by apply elem_of_nil in H.
Qed.

End DebugCloseFacts.

(** ** The automatic flow *)

Section AutomaticFacts.

Variable JSON_parse : string → option JsValue.
Variable env : Env.

Lemma automatic_callback_run (stored : Stored) (s : Bg) :
  ∃ s' calls,
    autoOrganizeCallback JSON_parse env stored s = (Ok tt, s')
    ∧ host s' = host s ++ calls
    ∧ Forall (λ c, is_group c || is_group_update c = true) calls
    ∧ (lastAction s' = lastAction s
       ∨ ∃ a, lastAction s' = Some a ∧ closedTabs a = []
              ∧ (type a = TGroup ∨ type a = TNone))
    ∧ recentTouch s' = recentTouch s.
Proof.
  destruct (isProcessing s) eqn:Hbusy.
  { exists s, []. rewrite app_nil_r.
    split; [apply (busy_pipeline_returns JSON_parse env (Automatic stored) s Hbusy)|].
    repeat split; [constructor|by left]. }
  unfold autoOrganizeCallback. rewrite organizeTabsGeneric_run by done.
  destruct (tabs_query env) as [e|tabs].
  { exists (failed e s), []. repeat split; [constructor|by left]. }
  eexists _, _. split; [reflexivity|]. split; [apply host_completed|].
  split; [|split].
  - unfold plan_calls, plan_removed, generic_plan. cbn [plan_toClose plan_tabGroups].
    simpl. apply group_calls_kinds.
  - unfold completed. destruct (local_set_ok env); [right|by left].
    eexists. split; [reflexivity|]. split; [reflexivity|].
    unfold plan_action, generic_plan, action_type_of. cbn [type plan_type].
    case_bool_decide; [by right|by left].
  - unfold completed. by destruct (local_set_ok env).
Qed.

(** X2.  The automatic flow never takes a tab away.  Whenever the
    callback of the debounce timer runs, and so whenever a tab finishes
    loading, the only host calls made are groupings and labellings of
    groups, and the journal is left as it was or receives a ["group"] or a
    ["none"] with no closed tab; the listener also stamps the tab in
    [recentTouch]. *)
Theorem automatic_flow_never_removes (stored : Stored) (tabId now : Z) (complete : bool)
    (s : Bg) :
  (∃ s' calls,
     autoOrganizeCallback JSON_parse env stored s = (Ok tt, s')
     ∧ host s' = host s ++ calls
     ∧ Forall (λ c, is_group c || is_group_update c = true) calls
     ∧ (lastAction s' = lastAction s
        ∨ ∃ a, lastAction s' = Some a ∧ closedTabs a = []
               ∧ (type a = TGroup ∨ type a = TNone)))
  ∧ (∃ s' calls,
       onUpdated JSON_parse env tabId now complete s = (Ok tt, s')
       ∧ host s' = host s ++ calls
       ∧ Forall (λ c, is_group c || is_group_update c = true) calls
       ∧ (lastAction s' = lastAction s
          ∨ ∃ a, lastAction s' = Some a ∧ closedTabs a = []
                 ∧ (type a = TGroup ∨ type a = TNone))
       ∧ recentTouch s'
         = if complete then <[tabId := now]> (recentTouch s) else recentTouch s).
Proof.
  split.
  - destruct (automatic_callback_run stored s) as (s' & calls & H1 & H2 & H3 & H4 & _).
    by exists s', calls.
  - unfold onUpdated. destruct complete.
    2:{ exists s, []. rewrite app_nil_r. repeat split; [constructor|by left]. }
    rewrite bind_unfold. unfold touch_tab, modify, autoOrganizeIfEnabled.
    set (s1 := set_recentTouch (<[tabId:=now]> (recentTouch s)) s).
    destruct (storage_sync_get env 0) as [e|st].
    { exists s1, []. simpl. rewrite app_nil_r. repeat split; [constructor|by left]. }
    destruct (default false (st_autoOrganize st)).
    2:{ exists s1, []. simpl. rewrite app_nil_r. repeat split; [constructor|by left]. }
    destruct (automatic_callback_run st s1) as (s' & calls & H1 & H2 & H3 & H4 & H5).
    by exists s', calls.
Qed.

End AutomaticFacts.

(** ** The answers of the listener *)

Section ListenerFacts.

Variable JSON_parse : string → option JsValue.
Variable env : Env.

Lemma debugCloseAllTabs_returns s : ∃ s', debugCloseAllTabs env s = (Ok tt, s').
Proof.
  unfold debugCloseAllTabs, try_catch.
  match goal with |- context [match ?m s with _ => _ end] => destruct (m s) as [[[]|e] s'] end;
    eauto.
Qed.

Lemma pipeline_returns (p : Pipeline) (s : Bg) :
  ∃ s', run_pipeline JSON_parse env p s = (Ok tt, s').
Proof.
  destruct (isProcessing s) eqn:Hs.
  { exists s. by apply busy_pipeline_returns. }
  destruct p; simpl; unfold autoOrganizeCallback;
    rewrite ?organizeTabsAndClose_run, ?closeLowImportance_run, ?organizeTabsGeneric_run,
      ?undoLastAction_run by done; eauto.
Qed.

(** X3.  The listener answers [{success: true}] to every request that
    starts a job or a debug helper (organize, close-only, undo, create
    debug tabs, close all tabs), in every state and whatever the host does:
    also when the job was ignored because another one was running, and when
    it ended on an error message.  Its async function never rejects on
    these requests. *)
Theorem job_requests_answer_success (m : Message) (s : Bg) :
  is_job m = true →
  ∃ s', onMessage JSON_parse env m s = (Ok R_success, s').
Proof.
  intros Hjob. destruct m as [settings| | |settings| | | |a]; try done; simpl;
    rewrite bind_unfold.
  - destruct (pipeline_returns (Organize (settings_or_empty settings)) s) as [s' H].
    simpl in H. rewrite H. eauto.
  - unfold createDebugTabs. rewrite create_debug_loop_run. eauto.
  - destruct (debugCloseAllTabs_returns s) as [s' ->]. eauto.
  - destruct (pipeline_returns (CloseOnly (settings_or_empty settings)) s) as [s' H].
    simpl in H. rewrite H. eauto.
  - destruct (pipeline_returns Undo s) as [s' H]. simpl in H. rewrite H. eauto.
Qed.

End ListenerFacts.

(** ** What the adapters resolve to *)

Module JsFacts.

Lemma assoc_get_set_eq k v ps : Js.assoc_get k (Js.assoc_set k v ps) = Some v.
Proof.
  induction ps as [|[k' v'] ps IH]; simpl.
  - by rewrite String.eqb_refl.
  - destruct (String.eqb k' k) eqn:Hk; simpl.
    + by rewrite String.eqb_refl.
    + by rewrite Hk.
Qed.

Lemma assoc_get_set_ne k k' v ps :
  k ≠ k' → Js.assoc_get k' (Js.assoc_set k v ps) = Js.assoc_get k' ps.
Proof.
  intros Hne. induction ps as [|[k0 v0] ps IH]; simpl.
  - by apply String.eqb_neq in Hne as ->.
  - destruct (String.eqb k0 k) eqn:Hk; simpl.
    + apply String.eqb_eq in Hk as ->. by apply String.eqb_neq in Hne as ->.
    + by rewrite IH.
Qed.

Lemma get_set_eq v k x : is_object v = true → Js.get (Js.set v k x) k = Some x.
Proof. destruct v; try done; intros _; apply assoc_get_set_eq. Qed.

Lemma get_set_ne v k k' x : k ≠ k' → Js.get (Js.set v k x) k' = Js.get v k'.
Proof. intros H. destruct v; try done; by apply assoc_get_set_ne. Qed.

Lemma is_object_set v k x : is_object (Js.set v k x) = is_object v.
Proof. by destruct v. Qed.

End JsFacts.

Section ArrayFacts.

Variable JSON_parse : string → option JsValue.
Variable env : Env.

Lemma ensureArrays_value (parsed result : JsValue) :
  ensureArrays parsed = inr result →
  parsed ≠ JNull
  ∧ result =
      (let p1 := if Js.isArray (Js.get parsed "tabsToClose") then parsed
                 else Js.set parsed "tabsToClose" (JArr [] []) in
       if Js.isArray (Js.get p1 "tabGroups") then p1
       else Js.set p1 "tabGroups" (JArr [] [])).
Proof. intros H. destruct parsed; try done; by injection H as <-. Qed.

Lemma ensureArrays_arrays (parsed result : JsValue) (k : string) :
  ensureArrays parsed = inr result →
  k = "tabsToClose"%string ∨ k = "tabGroups"%string →
  is_object parsed = true →
  Js.isArray (Js.get result k) = true
  ∧ (Js.isArray (Js.get parsed k) = true → Js.get result k = Js.get parsed k)
  ∧ (Js.isArray (Js.get parsed k) = false → Js.get result k = Some (JArr [] [])).
Proof.
  intros H Hk Hobj. apply ensureArrays_value in H as [_ ->]. cbv zeta.
  destruct (Js.isArray (Js.get parsed "tabsToClose")) eqn:H1.
  - destruct (Js.isArray (Js.get parsed "tabGroups")) eqn:H2.
    + destruct Hk as [-> | ->]; by rewrite ?H1, ?H2.
    + destruct Hk as [-> | ->].
      * rewrite JsFacts.get_set_ne by done. by rewrite H1.
      * rewrite JsFacts.get_set_eq by done. by rewrite H2.
  - rewrite JsFacts.get_set_ne by done.
    destruct (Js.isArray (Js.get parsed "tabGroups")) eqn:H2.
    + destruct Hk as [-> | ->].
      * rewrite JsFacts.get_set_eq by done. by rewrite H1.
      * rewrite JsFacts.get_set_ne by done. by rewrite H2.
    + destruct Hk as [-> | ->].
      * rewrite JsFacts.get_set_ne, JsFacts.get_set_eq by done. by rewrite H1.
      * rewrite JsFacts.get_set_eq by (by rewrite JsFacts.is_object_set).
        by rewrite H2.
Qed.

Lemma ensureArrays_primitive (parsed result : JsValue) :
  ensureArrays parsed = inr result → is_object parsed = false → result = parsed.
Proof. intros H Hobj. by destruct parsed; try done; injection H as <-. Qed.

(** X10.  The sanity check of the adapters, [if (!Array.isArray(
    parsed.tabsToClose)) parsed.tabsToClose = []] and the same for
    [tabGroups]: on an object it leaves the two properties that are arrays
    as they are, sets the others to the empty array, and keeps every other
    property; on a number, a string or a boolean it changes nothing; it
    throws on [null] only. *)
Theorem ensureArrays_defaults (parsed result : JsValue) :
  ensureArrays parsed = inr result →
  parsed ≠ JNull
  ∧ (∀ k, k = "tabsToClose"%string ∨ k = "tabGroups"%string →
       is_object parsed = true →
       Js.isArray (Js.get result k) = true
       ∧ (Js.isArray (Js.get parsed k) = true → Js.get result k = Js.get parsed k)
       ∧ (Js.isArray (Js.get parsed k) = false → Js.get result k = Some (JArr [] [])))
  ∧ (∀ k, k ≠ "tabsToClose"%string → k ≠ "tabGroups"%string →
       Js.get result k = Js.get parsed k)
  ∧ (is_object parsed = false → result = parsed).
Proof.
  intros H. split; [by destruct parsed|].
  split; [intros k; by apply ensureArrays_arrays|].
  split; [|by apply ensureArrays_primitive].
  intros k Hk1 Hk2. apply ensureArrays_value in H as [_ ->]. cbv zeta.
  repeat case_match; by rewrite ?JsFacts.get_set_ne by done.
Qed.

Lemma fallback_arrays provider tabData :
  is_object (fallback provider tabData) = true
  ∧ Js.isArray (Js.get (fallback provider tabData) "tabsToClose") = true
  ∧ Js.isArray (Js.get (fallback provider tabData) "tabGroups") = true.
Proof. done. Qed.

Lemma withFallback_arrays provider tabData pick r :
  let a := analysis (withFallback provider tabData
                       (readResponse JSON_parse provider pick r)) in
  is_object a = true →
  Js.isArray (Js.get a "tabsToClose") = true ∧ Js.isArray (Js.get a "tabGroups") = true.
Proof.
  cbv zeta. unfold withFallback.
  destruct (readResponse _ _ _ _) as [e|parsed] eqn:Hread; [done|].
  cbn [analysis]. intros Hobj.
  unfold readResponse in Hread. destruct r; try done.
  destruct (parseModelText _ _ _) as [e|p]; [done|].
  assert (is_object p = true) as Hp.
  { destruct (is_object p) eqn:Hp; [done|].
    by rewrite (ensureArrays_primitive p parsed Hread Hp), Hp in Hobj. }
  split; [apply (ensureArrays_arrays p parsed "tabsToClose")
         | apply (ensureArrays_arrays p parsed "tabGroups")]; auto.
Qed.

(** X11.  Whatever the provider, the model, the keys and the answer of
    the endpoint, the analysis that the router hands to a pipeline is never
    [null], and when it is an object, [tabsToClose] and [tabGroups] are
    arrays in it. *)
Theorem analysis_carries_arrays (tabData : list TabData) (provider model : option string)
    (threshold : Z) (keys : Keys) :
  let a := analysis (analyzeTabs JSON_parse env tabData provider model threshold keys) in
  a ≠ JNull
  ∧ (is_object a = true →
     Js.isArray (Js.get a "tabsToClose") = true ∧ Js.isArray (Js.get a "tabGroups") = true).
Proof.
  cbv zeta. split; [apply analyzeTabs_not_null|].
  unfold analyzeTabs, analyzeTabsWithGemini, analyzeTabsWithClaude, analyzeTabsWithOpenAI.
  repeat case_match; apply withFallback_arrays.
Qed.

End ArrayFacts.

(** ** The messages of a job *)

(** The pipelines that a button of the popup starts with settings. *)
Definition is_manual (p : Pipeline) : bool :=
  match p with
  | Organize _ | CloseOnly _ => true
  | _ => false
  end.

(** The first of the three reads of a manual pipeline that is rejected:
    the stored keys, the stored preferences, the tabs. *)
Definition first_rejection (env : Env) : option Exn :=
  match storage_sync_get env 0 with
  | inl e => Some e
  | inr _ =>
      match storage_sync_get env 1 with
      | inl e => Some e
      | inr _ =>
          match tabs_query env with
          | inl e => Some e
          | inr _ => None
          end
      end
  end.

Section MessageFacts.

Variable JSON_parse : string → option JsValue.
Variable env : Env.

Lemma extract_events_running total tabs : ∀ i,
  Forall (λ m, is_terminal m = false) (extract_events total i tabs).
Proof. induction tabs as [|t rest IH]; intros i; simpl; constructor; [done|apply IH]. Qed.

Lemma close_events_running total ids : ∀ i closed,
  Forall (λ m, is_terminal m = false) (close_events env total i ids closed).
Proof.
  induction ids as [|x rest IH]; intros i closed; simpl; [constructor|].
  destruct (tabs_remove_ok env i x); [constructor; [done|]|]; apply IH.
Qed.

Lemma group_events_running total created : ∀ grouped,
  Forall (λ m, is_terminal m = false) (group_events total created grouped).
Proof.
  induction created as [|[[g ids] gid] rest IH]; intros grouped; simpl; constructor;
    [done|apply IH].
Qed.

Lemma ungroup_events_running total batches : ∀ i processed,
  Forall (λ m, is_terminal m = false) (ungroup_events env total i batches processed).
Proof.
  induction batches as [|b rest IH]; intros i processed; simpl; [constructor|].
  destruct (tabs_ungroup_ok env i b); [constructor; [done|]|]; apply IH.
Qed.

Lemma reopen_events_running total metas : ∀ i reopened,
  Forall (λ m, is_terminal m = false) (reopen_events env total i metas reopened).
Proof.
  induction metas as [|m rest IH]; intros i reopened; simpl; [constructor|].
  destruct (reopens env i m); [constructor; [done|]|]; apply IH.
Qed.

(** The messages of a run that completed, but the last. *)
Definition completed_body (p : Plan) : list Progress :=
  P_start :: classify_events p
    ++ closing_events env (plan_toClose p) ++ grouping_events env (plan_tabGroups p).

Lemma completed_split (p : Plan) :
  P_start :: classify_events p ++ act_events env p = completed_body p ++ [P_complete].
Proof.
  unfold completed_body, act_events. cbn [app]. by rewrite <- !app_assoc.
Qed.

Lemma completed_body_running (p : Plan) :
  Forall (λ m, is_terminal m = false) (completed_body p).
Proof.
  constructor; [done|]. unfold classify_events, closing_events, grouping_events.
  repeat apply Forall_app_2; try by repeat constructor.
  - apply extract_events_running.
  - destruct (plan_toClose p); [|constructor].
    apply Forall_app_2; [apply close_events_running | by repeat constructor].
  - destruct (plan_tabGroups p) as [[|g gs]|]; try constructor.
    apply Forall_app_2; [apply group_events_running | by repeat constructor].
Qed.

(** The messages of an undo that replayed an action, but the last. *)
Definition undone_body (a : Action) : list Progress :=
  P_undo_start :: ungrouping_events env (groupedTabIds a)
    ++ reopening_events env (closedTabs a).

Lemma undone_body_running (a : Action) :
  Forall (λ m, is_terminal m = false) (undone_body a).
Proof.
  constructor; [done|]. unfold ungrouping_events, reopening_events.
  apply Forall_app_2.
  - destruct (groupedTabIds a) as [|b bs]; [constructor|]. generalize (b :: bs).
    intros batches. apply Forall_app_2; [apply ungroup_events_running|].
    by repeat constructor.
  - destruct (closedTabs a) as [|m ms]; [constructor|]. generalize (m :: ms).
    intros metas. apply Forall_app_2; [apply reopen_events_running|].
    by repeat constructor.
Qed.

(** What a job that took the lock sends: messages that are not terminal,
    then one terminal message. *)
Lemma job_messages (p : Pipeline) (s : Bg) :
  isProcessing s = false →
  ∃ s' msgs final,
    run_pipeline JSON_parse env p s = (Ok tt, s')
    ∧ sent s' = sent s ++ msgs ++ [final]
    ∧ Forall (λ m, is_terminal m = false) msgs
    ∧ is_terminal final = true.
Proof.
  intros Hidle.
  assert (∀ e, ∃ s' msgs final,
            (Ok (), failed e s) = (Ok tt, s')
            ∧ sent s' = sent s ++ msgs ++ [final]
            ∧ Forall (λ m, is_terminal m = false) msgs
            ∧ is_terminal final = true) as Hfailed.
  { intros e. exists (failed e s), [P_start], (P_error e). by repeat constructor. }
  assert (∀ plan, ∃ s' msgs final,
            (Ok (), completed env plan s) = (Ok tt, s')
            ∧ sent s' = sent s ++ msgs ++ [final]
            ∧ Forall (λ m, is_terminal m = false) msgs
            ∧ is_terminal final = true) as Hcompleted.
  { intros plan. exists (completed env plan s), (completed_body plan), P_complete.
    split; [done|]. split; [by rewrite sent_completed, completed_split|].
    split; [apply completed_body_running|done]. }
  destruct p as [settings|settings|prov model keys thr ac|stored|]; simpl;
    unfold autoOrganizeCallback;
    rewrite ?organizeTabsAndClose_run, ?closeLowImportance_run, ?organizeTabsGeneric_run,
      ?undoLastAction_run by done.
  1,2: destruct (storage_sync_get env 0) as [e|storedKeys]; [apply Hfailed|];
       destruct (storage_sync_get env 1) as [e|stored]; [apply Hfailed|];
       destruct (tabs_query env) as [e|tabs]; [apply Hfailed | apply Hcompleted].
  1,2: destruct (tabs_query env) as [e|tabs]; [apply Hfailed | apply Hcompleted].
  assert (∃ s' msgs final,
            (Ok (), refused s) = (Ok tt, s')
            ∧ sent s' = sent s ++ msgs ++ [final]
            ∧ Forall (λ m, is_terminal m = false) msgs
            ∧ is_terminal final = true) as Hrefused.
  { exists (refused s), [P_undo_start], (P_error "Nothing to undo.").
    by repeat constructor. }
  destruct (journal_read env s) as [a|]; [|apply Hrefused].
  destruct (nothing_to_undo (Some a)); [apply Hrefused|].
  exists (undone env a s), (undone_body a), P_undo_complete.
  split; [done|]. split.
  - rewrite sent_undone. unfold undone_body. cbn [app]. by rewrite <- !app_assoc.
  - split; [apply undone_body_running|done].
Qed.

(** X14.  Every job that took the lock (organize, close-only, the
    organizer of the automatic flow, undo), whatever the host does, sends at
    least two messages: it opens with [start] (with [undo_start] for undo),
    and it sends exactly one terminal message ([complete], [error] or
    [undo_complete]), which is its last. *)
Theorem job_ends_on_one_terminal_message (p : Pipeline) (s : Bg) :
  isProcessing s = false →
  ∃ s' msgs final,
    run_pipeline JSON_parse env p s = (Ok tt, s')
    ∧ sent s' = sent s ++ msgs ++ [final]
    ∧ head msgs = Some (match p with Undo => P_undo_start | _ => P_start end)
    ∧ Forall (λ m, is_terminal m = false) msgs
    ∧ is_terminal final = true.
Proof.
  intros Hidle.
  destruct (job_messages p s Hidle) as (s' & msgs & final & Hrun & Hsent & Hbody & Hfinal).
  exists s', msgs, final. repeat split; try done.
  assert (head (msgs ++ [final])
          = Some (match p with Undo => P_undo_start | _ => P_start end)) as Hhead.
  { apply (f_equal (drop (length (sent s)))) in Hsent.
    rewrite drop_app_length in Hsent. rewrite <- Hsent. clear Hsent Hbody Hfinal.
    destruct p as [settings|settings|prov model keys thr ac|stored|]; simpl in Hrun;
      unfold autoOrganizeCallback in Hrun;
      rewrite ?organizeTabsAndClose_run, ?closeLowImportance_run, ?organizeTabsGeneric_run,
        ?undoLastAction_run in Hrun by done;
      injection Hrun as <-;
      repeat case_match;
      rewrite ?sent_completed, ?sent_undone; unfold failed, refused, extend; cbn [sent];
      by rewrite drop_app_length. }
  destruct msgs as [|m rest]; [|done].
  simpl in Hhead. injection Hhead as ->. by destruct p.
Qed.


End MessageFacts.

(** ** The organizer bound to Gemini *)

(** [organizeTabsWithGemini({geminiKey, importanceThreshold, autoClose})],
    which no listener calls: the flow of [organizeTabsGeneric], written out
    a second time around [analyzeTabsWithGemini]. *)
Definition organizeTabsWithGemini (JSON_parse : string → option JsValue) (env : Env)
    (geminiKey : option string) (importanceThreshold : Z) (autoClose : bool) : M unit :=
  busy ← gets isProcessing;
  if (busy : bool) then mret tt else
  modify (set_isProcessing true);;
  sendProgress P_start;;
  guarded (
    tabs ← await (tabs_query env);
    sendProgress (P_tabs_collected (length tabs));;
    tabData ← extract_loop (length tabs) 0 tabs [];
    sendProgress (P_ai_request (length tabData));;
    let a := analysis (analyzeTabsWithGemini JSON_parse env tabData geminiKey
                         importanceThreshold) in
    send_ai_response a true;;
    let idToTab := build_idToTab tabs in
    let protectActive := build_protectActive tabs in
    touch ← gets recentTouch;
    toClose ← analysis_get a "tabsToClose";
    let tabsToClose :=
      List.filter (keep_candidate idToTab protectActive touch (nowTs env))
        <$> Js.as_array toClose in
    closedTabsMeta ←
      match tabsToClose with
      | Some ids => if autoClose then closeTabs env idToTab ids else mret []
      | None => mret []
      end;
    tabGroups ← analysis_get a "tabGroups";
    groupedTabIds ← groupTabs env (Js.as_array tabGroups);
    setLastAction env (action_type_of autoClose groupedTabIds) closedTabsMeta groupedTabIds;;
    sendProgress P_complete).

(** X13.  [organizeTabsWithGemini] is [organizeTabsGeneric] at the
    provider Gemini: for every spelling of the provider that lower-cases to
    ["gemini"], every model and every other key, the two functions do the
    same in every state and on every host. *)
Theorem gemini_organizer_is_generic (JSON_parse : string → option JsValue) (env : Env)
    (provider model : string) (apiKey geminiKey claudeKey : option string)
    (importanceThreshold : Z) (autoClose : bool) (s : Bg) :
  Str.toLowerCase provider = "gemini"%string →
  organizeTabsGeneric JSON_parse env provider model (mkKeys apiKey geminiKey claudeKey)
    importanceThreshold autoClose s
  = organizeTabsWithGemini JSON_parse env geminiKey importanceThreshold autoClose s.
Proof.
  intros Hprov.
  assert (∀ tabData,
            analyzeTabs JSON_parse env tabData (Some provider) (Some model)
              importanceThreshold (mkKeys apiKey geminiKey claudeKey)
            = analyzeTabsWithGemini JSON_parse env tabData geminiKey importanceThreshold)
    as Hroute.
  { intros tabData. unfold analyzeTabs, opt_or, Str.or_else.
    destruct (String.eqb provider "") eqn:Hempty.
    - apply String.eqb_eq in Hempty as ->. done.
    - by rewrite Hprov. }
  unfold organizeTabsGeneric, organizeTabsWithGemini.
  rewrite !bind_unfold. unfold gets. cbv beta. destruct (isProcessing s); [done|].
  rewrite !bind_unfold. unfold modify. cbv beta.
  rewrite !bind_unfold, !sendProgress_run.
  unfold guarded, try_finally, try_catch.
  rewrite !bind_unfold. destruct (tabs_query env) as [e|tabs]; [done|].
  rewrite !await_inr.
  rewrite !bind_unfold, !sendProgress_run, !bind_unfold, !extract_loop_run.
  rewrite !bind_unfold, !sendProgress_run. by rewrite Hroute.
Qed.

(** * Further properties of the popup *)

(** ** The running flag during a job *)

Section PopupJobFacts.

Import Popup.

Variable JSON_parse : string → option JsValue.
Variable env : Env.

Lemma onProgress_running (m : Progress) (s : State) :
  is_terminal m = false → running (prog (onProgress s m)) = running (prog s).
Proof. destruct m; try done; intros _; simpl; by case_match. Qed.

Lemma run_running (msgs : list Progress) : ∀ s,
  Forall (λ m, is_terminal m = false) msgs →
  running (prog (run s msgs)) = running (prog s).
Proof.
  induction msgs as [|m rest IH]; intros s Hall; [done|].
  apply Forall_cons in Hall as [Hm Hrest]. simpl.
  unfold run in IH. by rewrite IH, onProgress_running.
Qed.

Lemma onProgress_terminal (m : Progress) (s : State) :
  is_terminal m = true → running (prog (onProgress s m)) = false.
Proof. by destruct m. Qed.

(** X15.  The popup and the worker, end to end.  After a click on
    organize, close-only or undo that finds the worker at rest, the popup
    stays in its running state (buttons disabled) through every message of
    the job but the last, and leaves it on the last message, whatever the
    host does and however the job ends. *)
Theorem popup_runs_until_the_end (p : Pipeline) (s : Bg) (pp : State) :
  from_popup p = true →
  isProcessing s = false →
  ∃ s' msgs final,
    run_pipeline JSON_parse env p s = (Ok tt, s')
    ∧ sent s' = sent s ++ msgs ++ [final]
    ∧ (∀ pre, pre `prefix_of` msgs → running (prog (run (click_of p pp) pre)) = true)
    ∧ running (prog (run (click_of p pp) (msgs ++ [final]))) = false.
Proof.
  intros Hpopup Hidle.
  destruct (job_messages JSON_parse env p s Hidle)
    as (s' & msgs & final & Hrun & Hsent & Hbody & Hfinal).
  exists s', msgs, final. split; [done|]. split; [done|]. split.
  - intros pre [rest ->]. apply Forall_app in Hbody as [Hpre _].
    rewrite run_running by done. by destruct p.
  - rewrite PopupFacts.run_app. by apply onProgress_terminal.
Qed.

End PopupJobFacts.

(** ** [truncate]

    The ellipsis is one UTF-16 code unit: the text is taken here as the
    list of its code units, whatever their type. *)

Section Truncate.

Variable C : Type.
Variable ellipsis : C.

(** [truncate(s, n)] for a string [s]: [s.length > n ? s.slice(0, n - 1) +
    "…" : s]; [slice(0, -1)] drops the last code unit. *)
Definition truncate (s : list C) (n : nat) : list C :=
  if (n <? length s)%nat
  then match n with
       | O => take (length s - 1) s
       | S m => take m s
       end ++ [ellipsis]
  else s.

(** X16.  [truncate(s, n)] with [n] at least 1 (the popup calls it with
    60 and 200) never returns more than [n] code units; it returns a text
    of at most [n] code units as it is, and otherwise the first [n - 1] code
    units followed by the ellipsis; truncating twice is truncating once. *)
Theorem truncate_bounded (s : list C) (n : nat) :
  (1 ≤ n)%nat →
  (length (truncate s n) ≤ n)%nat
  ∧ ((length s ≤ n)%nat → truncate s n = s)
  ∧ ((n < length s)%nat →
     length (truncate s n) = n ∧ take (n - 1) (truncate s n) = take (n - 1) s
     ∧ last (truncate s n) = Some ellipsis)
  ∧ truncate (truncate s n) n = truncate s n.
Proof.
  intros Hn. destruct n as [|m]; [lia|]. unfold truncate.
  destruct (S m <? length s)%nat eqn:Hlt.
  - apply Nat.ltb_lt in Hlt.
    assert (length (take m s ++ [ellipsis]) = S m) as Hlen
      by (rewrite length_app, length_take; simpl; lia).
    split; [lia|]. split; [lia|]. split.
    + intros _. split; [done|]. split; [|apply last_snoc].
      simpl. rewrite Nat.sub_0_r, take_app_le by (rewrite length_take; lia).
      rewrite take_take. f_equal. lia.
    + rewrite Hlen. by rewrite Nat.ltb_irrefl.
  - apply Nat.ltb_ge in Hlt. split; [done|]. split; [done|]. split; [lia|].
    by apply Nat.ltb_ge in Hlt as ->.
Qed.

End Truncate.

(** ** The computed percentage *)

Module PercentFacts.

Import Popup PopupFacts.

(** No counter of [prog] is ahead of its total. *)
Definition within_totals (p : Prog) : Prop :=
  (extracted p ≤ totalTabs p)%nat
  ∧ (closingDone p ≤ closingTotal p)%nat
  ∧ (groupingDone p ≤ groupingTotal p)%nat.

(** Every stage is complete: some tab was collected and all were
    extracted, the provider answered, and every tab to close and every
    group to create is done. *)
Definition all_stages_done (p : Prog) : Prop :=
  (0 < totalTabs p)%nat ∧ extracted p = totalTabs p ∧ aiDone p = true
  ∧ closingDone p = closingTotal p ∧ groupingDone p = groupingTotal p.

Lemma ratio_one (d t : nat) : (0 < t)%nat → (ratio d t == 1)%Q ↔ d = t.
Proof.
  intros Ht. unfold ratio, Qeq. simpl.
  rewrite <- (positive_nat_Z (Pos.of_nat t)), Nat2Pos.id by lia. lia.
Qed.

Lemma ratio_unit (d t : nat) : (0 < t)%nat → (d ≤ t)%nat → (0 <= ratio d t <= 1)%Q.
Proof.
  intros Ht Hd. split; [apply ratio_nonneg|]. unfold ratio, Qle. simpl.
  rewrite <- (positive_nat_Z (Pos.of_nat t)), Nat2Pos.id by lia. lia.
Qed.


End PercentFacts.

(** ** [createDebugTabs] *)

(** [debugUrls]. *)
Definition debugUrls : list string :=
  [ "https://www.wikipedia.org"; "https://www.github.com"; "https://stackoverflow.com";
    "https://www.reddit.com"; "https://www.youtube.com";
    "https://www.google.com/search?q=javascript"; "https://www.amazon.com";
    "https://twitter.com"; "https://www.linkedin.com"; "https://news.ycombinator.com" ].

Definition is_create (c : HostCall) : bool :=
  match c with H_create _ _ _ => true | _ => false end.

Section DebugCreateFacts.

Variable env : Env.

Lemma debug_created_creates urls : ∀ i,
  Forall (λ c, is_create c = true) (debug_created env i urls).
Proof.
  induction urls as [|url rest IH]; intros i; simpl; [constructor|].
  destruct (tabs_create env i url None) as [[cid w]|]; [constructor; [done|]|]; apply IH.
Qed.

Lemma debug_created_urls urls : ∀ i,
  created_urls (debug_created env i urls) `sublist_of` urls
  ∧ ((∀ k url, is_Some (tabs_create env k url None)) →
     created_urls (debug_created env i urls) = urls).
Proof.
  induction urls as [|url rest IH]; intros i; simpl; [done|].
  destruct (IH (S i)) as [Hsub Hall].
  destruct (tabs_create env i url None) as [[cid w]|] eqn:Hc; simpl.
  - split; [by apply sublist_skip|]. intros H. f_equal. by apply Hall.
  - split; [by apply sublist_cons|]. intros H.
    destruct (H i url) as [? Hsome]. by rewrite Hc in Hsome.
Qed.

Lemma created_urls_length (calls : list HostCall) :
  Forall (λ c, is_create c = true) calls → length (created_urls calls) = length calls.
Proof.
  induction 1 as [|c rest Hc _ IH]; [done|]. destruct c; try done.
  unfold created_urls in *. cbn [omap list_omap length]. by rewrite IH.
Qed.

(** X21.  [createDebugTabs] opens ten tabs at most.  The shuffle is a
    permutation of the ten debug urls, and the slice to [selectedCount],
    which is 18 at least, keeps all of them; so the helper tries each of the
    ten urls once, in the shuffled order, and only creates tabs: it sends no
    message and leaves the journal alone.  When the host accepts every
    creation, exactly the ten urls are opened. *)
Theorem debug_tabs_are_ten_at_most (selectedCount : nat) (s : Bg) :
  shuffled env ≡ₚ debugUrls →
  (18 ≤ selectedCount)%nat →
  take selectedCount (shuffled env) = shuffled env
  ∧ ∃ s' calls,
      createDebugTabs env s = (Ok tt, s')
      ∧ s' = extend s [] calls
      ∧ Forall (λ c, is_create c = true) calls
      ∧ (length calls ≤ 10)%nat
      ∧ created_urls calls `sublist_of` shuffled env
      ∧ ((∀ k url, is_Some (tabs_create env k url None)) →
         created_urls calls = shuffled env ∧ created_urls calls ≡ₚ debugUrls).
Proof.
  intros Hperm Hcount.
  assert (length (shuffled env) = 10%nat) as Hlen by (by rewrite Hperm).
  split; [apply take_ge; lia|].
  exists (extend s [] (debug_created env 0 (shuffled env))),
         (debug_created env 0 (shuffled env)).
  unfold createDebugTabs. split; [apply create_debug_loop_run|]. split; [done|].
  destruct (debug_created_urls (shuffled env) 0) as [Hsub Hall].
  split; [apply debug_created_creates|]. split; [|split; [done|]].
  - rewrite <- created_urls_length by apply debug_created_creates.
    apply sublist_length in Hsub. lia.
  - intros H. rewrite (Hall H). by split.
Qed.

End DebugCreateFacts.

(** * The options page

    The page that stores the API keys and offers the models of each
    provider.  A string is the sequence of its code units below 256, as in
    the worker. *)

Module Options.

(** ** [trim] *)

(** White space and line terminators among the code units below 256: tab,
    line feed, vertical tab, form feed, carriage return, space, no-break
    space. *)
Definition is_space (a : ascii) : bool :=
  let n := nat_of_ascii a in
  ((9 <=? n) && (n <=? 13) || (n =? 32) || (n =? 160))%nat.

Fixpoint trimStart (s : string) : string :=
  match s with
  | EmptyString => EmptyString
  | String a s' => if is_space a then trimStart s' else s
  end.

Fixpoint trimEnd (s : string) : string :=
  match s with
  | EmptyString => EmptyString
  | String a s' =>
      match trimEnd s' with
      | EmptyString => if is_space a then EmptyString else String a EmptyString
      | t => String a t
      end
  end.

(** [s.trim()]. *)
Definition trim (s : string) : string := trimEnd (trimStart s).

(** ** The lists of models *)

(** An entry of a model [<select>]: [{ value, label }]. *)
Record Item : Type := mkItem {
  item_value : string;
  item_label : string;
}.

(** What the GET of a models endpoint does.  [M_FetchRejects] also stands
    for a request that could not be built ([encodeURIComponent] throws on a
    lone surrogate). *)
Inductive ModelsResponse : Type :=
  | M_FetchRejects
  | M_NotOk
  | M_JsonRejects
  | M_Data (data : JsValue).

(** [(data?.[k] || [])] as the receiver of [.map]: a truthy value that is
    no array has no [map], and the call throws ([None]). *)
Definition entries (data : JsValue) (k : string) : option (list JsValue) :=
  if Js.truthy (Js.get data k) then Js.as_array (Js.get data k) else Some [].

(** [m.k] for an element [m] of the array: reading a property of [null]
    throws ([None]). *)
Definition prop (k : string) (m : JsValue) : option (option JsValue) :=
  match m with
  | JNull => None
  | _ => Some (Js.get m k)
  end.

(** [m.id || m.name]. *)
Definition id_or_name (m : JsValue) : option (option JsValue) :=
  match m with
  | JNull => None
  | _ => Some (if Js.truthy (Js.get m "id") then Js.get m "id" else Js.get m "name")
  end.

(** [[...new Set(ids)]]: the first occurrence of each, in order. *)
Fixpoint uniq_from (seen : list string) (ids : list string) : list string :=
  match ids with
  | [] => []
  | id :: rest =>
      if bool_decide (id ∈ seen) then uniq_from seen rest
      else id :: uniq_from (id :: seen) rest
  end.

Definition uniq (ids : list string) : list string := uniq_from [] ids.

(** [ids.sort()]: by code units.  A list has one sorted arrangement, so the
    algorithm of the engine does not matter. *)
Definition sort (ids : list string) : list string := merge_sort String.le ids.

Definition option_of (id : string) : Item := mkItem id id.

(** The filter of [fetchOpenAIModels]. *)
Definition openai_family (id : string) : bool :=
  Str.includes "gpt" id || Str.includes "o-mini" id || Str.includes "4.1" id
  || Str.includes "4o" id || Str.includes "gpt-4" id.

Definition openai_fallback : list Item :=
  option_of <$> ["gpt-4.1"; "gpt-4o-mini"].

Definition gemini_fallback : list Item :=
  option_of <$> ["gemini-2.5-flash-lite"; "gemini-1.5-flash"].

Definition claude_fallback : list Item :=
  option_of <$> ["claude-3-5-sonnet-latest"; "claude-3-haiku-20240307"].

(** The strings among the values read, kept by [keep], sorted, without
    duplicates. *)
Definition listed (keep : string → bool) (read : list (option JsValue)) : list string :=
  uniq (sort (List.filter keep (omap Js.as_string read))).

(** [fetchOpenAIModels(openaiKey)], given the answer of the endpoint. *)
Definition fetchOpenAIModels (http : ModelsResponse) (openaiKey : option JsValue)
  : list Item :=
  if negb (Js.truthy openaiKey) then []
  else
    match http with
    | M_Data data =>
        match entries data "data" ≫= mapM (prop "id") with
        | Some read => option_of <$> listed openai_family read
        | None => openai_fallback
        end
    | _ => openai_fallback
    end.

(** [id.replace(/^models\//, "")]. *)
Definition strip_models (id : string) : string :=
  if Str.startsWith "models/" id
  then String.substring 7 (String.length id - 7) id
  else id.

(** [fetchGeminiModels(geminiKey)]. *)
Definition fetchGeminiModels (http : ModelsResponse) (geminiKey : option JsValue)
  : list Item :=
  if negb (Js.truthy geminiKey) then []
  else
    match http with
    | M_Data data =>
        match entries data "models" ≫= mapM (prop "name") with
        | Some read =>
            (λ id, mkItem (strip_models id) (strip_models id))
              <$> listed (Str.includes "gemini") read
        | None => gemini_fallback
        end
    | _ => gemini_fallback
    end.

(** [fetchClaudeModels(claudeKey)]. *)
Definition fetchClaudeModels (http : ModelsResponse) (claudeKey : option JsValue)
  : list Item :=
  if negb (Js.truthy claudeKey) then []
  else
    match http with
    | M_Data data =>
        match entries data "data" ≫= mapM id_or_name with
        | Some read => option_of <$> listed (Str.includes "claude") read
        | None => claude_fallback
        end
    | _ => claude_fallback
    end.

(** ** The keys in [chrome.storage.sync] *)

(** The page: the values of the three key inputs, the status line (its
    class and its text), and [chrome.storage.sync], a map from the names of
    the entries to their values. *)
Record Page : Type := mkPage {
  apiKeyInput : string;
  geminiKeyInput : string;
  claudeKeyInput : string;
  status : string * string;
  store : gmap string JsValue;
}.

(** Whether the storage accepts the one [set] of [saveKeys], and the two
    [remove]s of [clearKeys]. *)
Record Host : Type := mkHost {
  set_ok : bool;
  remove_ok : nat → bool;
}.

Definition setStatus (type msg : string) (p : Page) : Page :=
  mkPage (apiKeyInput p) (geminiKeyInput p) (claudeKeyInput p) (type, msg) (store p).

Definition with_store (m : gmap string JsValue) (p : Page) : Page :=
  mkPage (apiKeyInput p) (geminiKeyInput p) (claudeKeyInput p) (status p) m.

(** [typeof k === "string" && k.trim().startsWith("sk-")]. *)
Definition isLikelyOpenAIKey (k : string) : bool := Str.startsWith "sk-" (trim k).

(** [if (v) payload[k] = v], then the payload merged into the storage. *)
Definition put (k v : string) (m : gmap string JsValue) : gmap string JsValue :=
  if String.eqb v "" then m else <[k := JStr v]> m.

(** [chrome.storage.sync.remove(names)]. *)
Definition remove_all (names : list string) (m : gmap string JsValue)
  : gmap string JsValue :=
  foldr delete m names.

Definition key_names : list string := ["apiKey"; "geminiKey"; "claudeKey"].

Definition model_names : list string :=
  ["providerAnalyze"; "modelAnalyze"; "providerClose"; "modelClose";
   "providerAuto"; "modelAuto"].

(** The name under which each input is stored, with the value of the
    input. *)
Definition fields (p : Page) : list (string * string) :=
  [("apiKey", apiKeyInput p); ("geminiKey", geminiKeyInput p);
   ("claudeKey", claudeKeyInput p)].

Section Keys.

(** [buildModelPickers()] fills the model selects; it is called last and
    catches what it throws.  Nothing is assumed of it. *)
Variable buildModelPickers : Page → Page.
Variable host : Host.

(** [saveKeys()]. *)
Definition saveKeys (p : Page) : Page :=
  let openai := trim (apiKeyInput p) in
  let gemini := trim (geminiKeyInput p) in
  let claude := trim (claudeKeyInput p) in
  if String.eqb openai "" && String.eqb gemini "" && String.eqb claude "" then
    setStatus "warn" "Please enter at least one provider API key." p
  else
    let p1 :=
      if negb (String.eqb openai "") && negb (isLikelyOpenAIKey openai)
      then setStatus "warn"
             ("OpenAI key should start with " ++ RefJson.quoted "sk-" ++ ". Saving anyway.")
             p
      else p in
    if set_ok host then
      buildModelPickers
        (setStatus "success" "Keys saved. Fetching models..."
           (with_store
              (put "claudeKey" claude (put "geminiKey" gemini (put "apiKey" openai (store p1))))
              p1))
    else setStatus "error" "Failed to save keys." p1.

(** [clearKeys()]. *)
Definition clearKeys (p : Page) : Page :=
  if remove_ok host 0 then
    let p1 :=
      setStatus "success" "Keys cleared."
        (mkPage "" "" "" (status p) (remove_all key_names (store p))) in
    if remove_ok host 1 then
      buildModelPickers (with_store (remove_all model_names (store p1)) p1)
    else setStatus "error" "Failed to clear keys." p1
  else setStatus "error" "Failed to clear keys." p.

End Keys.

(** ** [populateSelect] *)

(** A [<select>]: its options and the value it reads. *)
Record Select : Type := mkSelect {
  sel_options : list Item;
  sel_value : string;
}.

(** [populateSelect(select, items, selectedValue)]: [selectedValue ??
    select.value] is kept when an option has it, the first option is taken
    otherwise; a select without option reads the empty string. *)
Definition populateSelect (select : Select) (items : list Item)
    (selectedValue : option string) : Select :=
  let current := default (sel_value select) selectedValue in
  let options :=
    (λ it, mkItem (item_value it) (Str.or_else (item_label it) (item_value it)))
      <$> items in
  if existsb (λ o, String.eqb (item_value o) current) options
  then mkSelect options current
  else
    match options with
    | o :: _ => mkSelect options (item_value o)
    | [] => mkSelect options ""
    end.

End Options.

(** ** The key as the worker reads it *)

(** [getApiKeyOrThrow()], given what [chrome.storage.sync.get(["apiKey"])]
    resolves to. *)
Definition getApiKeyOrThrow (stored : Exn + option JsValue) : Exn + string :=
  match stored with
  | inl e => inl e
  | inr (Some (JStr apiKey)) =>
      if String.eqb (Options.trim apiKey) ""
      then inl "Missing OpenAI API key. Open the extension Options page and save your API key."
      else inr (Options.trim apiKey)
  | inr _ =>
      inl "Missing OpenAI API key. Open the extension Options page and save your API key."
  end.

(** ** Properties of the options page *)

Module OptionsFacts.

Import Options.

(** *** [trim] *)

Lemma trimStart_fixed s :
  match s with
  | EmptyString => True
  | String a _ => is_space a = false
  end → trimStart s = s.
Proof. destruct s as [|a s']; simpl; [done|]. by intros ->. Qed.

Lemma trimStart_head s :
  match trimStart s with
  | EmptyString => True
  | String a _ => is_space a = false
  end.
Proof.
  induction s as [|a s' IH]; simpl; [done|].
  destruct (is_space a) eqn:Ha; [done|]. by simpl.
Qed.

Lemma trimEnd_head s :
  match s with
  | EmptyString => True
  | String a _ => is_space a = false
  end →
  match trimEnd s with
  | EmptyString => True
  | String a _ => is_space a = false
  end.
Proof.
  destruct s as [|a s']; simpl; [done|]. intros Ha.
  destruct (trimEnd s'); by rewrite ?Ha.
Qed.

Lemma trimEnd_idemp s : trimEnd (trimEnd s) = trimEnd s.
Proof.
  induction s as [|a s' IH]; simpl; [done|].
  destruct (trimEnd s') as [|b t] eqn:Ht.
  - destruct (is_space a) eqn:Ha; simpl; [done|]. by rewrite Ha.
  - simpl. simpl in IH. by rewrite IH.
Qed.

Lemma trim_idemp s : trim (trim s) = trim s.
Proof.
  unfold trim.
  rewrite (trimStart_fixed (trimEnd (trimStart s))).
  - apply trimEnd_idemp.
  - apply trimEnd_head, trimStart_head.
Qed.

(** *** The model lists *)

Lemma uniq_from_spec ids : ∀ seen id,
  id ∈ uniq_from seen ids ↔ id ∈ ids ∧ id ∉ seen.
Proof.
  induction ids as [|x rest IH]; intros seen id; simpl.
  - split; [by intros ?%elem_of_nil | by intros [?%elem_of_nil _]].
  - case_bool_decide as Hx.
    + rewrite IH, elem_of_cons. split; [tauto|].
      intros [[->|H] Hs]; [done|tauto].
    + rewrite elem_of_cons, IH, not_elem_of_cons, elem_of_cons.
      split.
      * intros [->|[H [_ Hs]]]; [split; [by left|done] | split; [by right|done]].
      * intros [[->|H] Hs]; [by left|].
        destruct (decide (id = x)) as [->|Hne]; [by left|]. right. tauto.
Qed.

Lemma uniq_from_NoDup ids : ∀ seen, NoDup (uniq_from seen ids).
Proof.
  induction ids as [|x rest IH]; intros seen; simpl; [constructor|].
  case_bool_decide; [apply IH|]. constructor; [|apply IH].
  rewrite uniq_from_spec, not_elem_of_cons. tauto.
Qed.

Lemma uniq_from_sublist ids : ∀ seen, uniq_from seen ids `sublist_of` ids.
Proof.
  induction ids as [|x rest IH]; intros seen; simpl; [done|].
  case_bool_decide; [apply sublist_cons | apply sublist_skip]; apply IH.
Qed.

Lemma StronglySorted_sublist {A} (R : relation A) (l k : list A) :
  l `sublist_of` k → StronglySorted R k → StronglySorted R l.
Proof.
  induction 1 as [|x l k Hlk IH|x l k Hlk IH]; [done|..].
  - intros [Hall Hk]%StronglySorted_cons. apply StronglySorted_cons. split; [|by apply IH].
    eapply Forall_forall. intros y Hy. eapply Forall_forall in Hall; [done|].
    by eapply elem_of_sublist.
  - intros [_ Hk]%StronglySorted_cons. by apply IH.
Qed.

(** What [listed] returns: the strings read that [keep] keeps, each once,
    in the order of their code units. *)
Lemma listed_spec (keep : string → bool) (read : list (option JsValue)) :
  NoDup (listed keep read)
  ∧ StronglySorted String.le (listed keep read)
  ∧ ∀ id, id ∈ listed keep read ↔ Some (JStr id) ∈ read ∧ keep id = true.
Proof.
  unfold listed, uniq, sort. split; [apply uniq_from_NoDup|]. split.
  - eapply StronglySorted_sublist; [apply uniq_from_sublist|].
    apply StronglySorted_merge_sort; apply _.
  - intros id. rewrite uniq_from_spec, merge_sort_Permutation.
    rewrite list_elem_of_In, filter_In, <- list_elem_of_In, list_elem_of_omap.
    split.
    + intros [[(v & Hv & Hs) Hk] _]. split; [|done].
      destruct v as [[]|]; try done. simpl in Hs. by injection Hs as ->.
    + intros [Hin Hk]. split; [|apply not_elem_of_nil]. split; [|done].
      by exists (Some (JStr id)).
Qed.

Lemma fmap_option_of_value (ids : list string) :
  item_value <$> (option_of <$> ids) = ids.
Proof. induction ids as [|id rest IH]; [done|]. rewrite !fmap_cons. by f_equal. Qed.

(** X19.  The models offered for OpenAI and for Claude.  With a key and
    an answer whose [data] is an array without [null], the values offered
    are the ids of the answer (for Claude, the id of a model or else its
    name) that are strings and pass the filter of the provider, each once,
    in the order of their code units; the label of an entry is its value. *)
Theorem models_are_listed_once (http : ModelsResponse) (key : option JsValue)
    (data : JsValue) (ms : list JsValue) :
  Js.truthy key = true →
  http = M_Data data →
  entries data "data" = Some ms →
  JNull ∉ ms →
  NoDup (item_value <$> fetchOpenAIModels http key)
  ∧ NoDup (item_value <$> fetchClaudeModels http key)
  ∧ StronglySorted String.le (item_value <$> fetchOpenAIModels http key)
  ∧ StronglySorted String.le (item_value <$> fetchClaudeModels http key)
  ∧ (∀ id, id ∈ item_value <$> fetchOpenAIModels http key
           ↔ openai_family id = true
             ∧ ∃ m, m ∈ ms ∧ Js.get m "id" = Some (JStr id))
  ∧ (∀ id, id ∈ item_value <$> fetchClaudeModels http key
           ↔ Str.includes "claude" id = true
             ∧ ∃ m, m ∈ ms
                    ∧ (if Js.truthy (Js.get m "id") then Js.get m "id"
                       else Js.get m "name") = Some (JStr id))
  ∧ Forall (λ it, item_label it = item_value it)
      (fetchOpenAIModels http key ++ fetchClaudeModels http key).
Proof.
  intros Hkey -> Hms Hnull.
  assert (∀ (f : JsValue → option (option JsValue)) (g : JsValue → option JsValue),
            (∀ m, m ≠ JNull → f m = Some (g m)) →
            mapM f ms = Some (g <$> ms)) as Hread.
  { intros f g Hf. apply mapM_Some. apply Forall2_fmap_r, Forall_Forall2_diag.
    apply Forall_forall. intros m Hm. apply Hf. by intros ->. }
  unfold fetchOpenAIModels, fetchClaudeModels. rewrite Hkey, Hms. simpl.
  rewrite (Hread (prop "id") (λ m, Js.get m "id")) by (by intros []).
  rewrite (Hread id_or_name
             (λ m, if Js.truthy (Js.get m "id") then Js.get m "id" else Js.get m "name"))
    by (by intros []).
  rewrite !fmap_option_of_value.
  split; [apply listed_spec|]. split; [apply listed_spec|].
  split; [apply listed_spec|]. split; [apply listed_spec|].
  split; [|split].
  - intros id. rewrite (proj2 (proj2 (listed_spec _ _))), list_elem_of_fmap.
    split; [intros [(m & ? & ?) ?] | intros [? (m & ? & ?)]]; eauto.
  - intros id. rewrite (proj2 (proj2 (listed_spec _ _))), list_elem_of_fmap.
    split; [intros [(m & ? & ?) ?] | intros [? (m & ? & ?)]]; eauto.
  - apply Forall_app_2; by apply Forall_fmap, Forall_true.
Qed.

Lemma prefix_app (p s : string) :
  String.prefix p s = true → ∃ r, s = (p ++ r)%string.
Proof.
  revert s. induction p as [|a p IH]; intros s; [by exists s|].
  destruct s as [|b s]; simpl; [done|]. destruct (ascii_dec a b) as [->|]; [|done].
  intros H. destruct (IH s H) as [r ->]. by exists r.
Qed.

Lemma substring_all (s : string) : String.substring 0 (String.length s) s = s.
Proof. induction s as [|a s IH]; simpl; [done|]. by rewrite IH. Qed.

Lemma strip_models_gemini (n : string) :
  Str.includes "gemini" n = true → Str.includes "gemini" (strip_models n) = true.
Proof.
  unfold strip_models, Str.startsWith.
  destruct (String.prefix "models/" n) eqn:Hp; [|done].
  apply prefix_app in Hp as [r ->]. intros H.
  replace (String.substring 7 (String.length ("models/" ++ r) - 7) ("models/" ++ r))
    with r.
  2:{ cbv [String.append]. simpl. by rewrite Nat.sub_0_r, substring_all. }
  revert H. clear. cbv [String.append]. by cbn.
Qed.

(** X20.  The models offered for Gemini.  With a key and an answer whose
    [models] is an array without [null], the entries offered are the names
    of the answer that are strings and contain ["gemini"], each once, in the
    order of their code units, each with a leading ["models/"] taken off
    (after the duplicates were dropped, not before); every value offered
    still contains ["gemini"], and the label of an entry is its value. *)
Theorem gemini_models_are_stripped (http : ModelsResponse) (key : option JsValue)
    (data : JsValue) (ms : list JsValue) :
  Js.truthy key = true →
  http = M_Data data →
  entries data "models" = Some ms →
  JNull ∉ ms →
  ∃ names,
    fetchGeminiModels http key
    = (λ id, mkItem (strip_models id) (strip_models id)) <$> names
    ∧ NoDup names
    ∧ StronglySorted String.le names
    ∧ (∀ n, n ∈ names ↔ Str.includes "gemini" n = true
                        ∧ ∃ m, m ∈ ms ∧ Js.get m "name" = Some (JStr n))
    ∧ Forall (λ it, Str.includes "gemini" (item_value it) = true
                    ∧ item_label it = item_value it)
        (fetchGeminiModels http key).
Proof.
  intros Hkey -> Hms Hnull.
  assert (mapM (prop "name") ms = Some ((λ m, Js.get m "name") <$> ms)) as Hread.
  { apply mapM_Some. apply Forall2_fmap_r, Forall_Forall2_diag.
    apply Forall_forall. intros m Hm. destruct m; try done. }
  unfold fetchGeminiModels. rewrite Hkey, Hms. simpl. rewrite Hread.
  eexists. split; [reflexivity|].
  destruct (listed_spec (Str.includes "gemini") ((λ m, Js.get m "name") <$> ms))
    as (Hnodup & Hsorted & Hin).
  split; [done|]. split; [done|]. split.
  - intros n. rewrite Hin, list_elem_of_fmap.
    split; [intros [(m & ? & ?) ?] | intros [? (m & ? & ?)]]; eauto.
  - apply Forall_fmap, Forall_forall. intros n Hn. simpl. split; [|done].
    apply strip_models_gemini. by apply Hin in Hn as [_ ?].
Qed.

(** *** The keys *)

Section KeysFacts.

Variable buildModelPickers : Page → Page.
Variable host : Host.

(** No input holds a key: each is empty once trimmed. *)
Definition all_blank (p : Page) : bool :=
  forallb (λ f, String.eqb (trim (snd f)) "") (fields p).

Lemma put_lookup (k v : string) (m : gmap string JsValue) (k' : string) :
  put k v m !! k'
  = if bool_decide (k' = k ∧ v ≠ ""%string) then Some (JStr v) else m !! k'.
Proof.
  unfold put. destruct (String.eqb v "") eqn:Hv.
  - apply String.eqb_eq in Hv as ->. by rewrite bool_decide_eq_false_2 by (by intros [_ ?]).
  - apply String.eqb_neq in Hv. destruct (decide (k' = k)) as [->|Hne].
    + rewrite bool_decide_eq_true_2 by done. apply lookup_insert_eq.
    + rewrite bool_decide_eq_false_2 by (by intros [? _]). by apply lookup_insert_ne.
Qed.

Lemma remove_all_lookup (names : list string) (m : gmap string JsValue) (k : string) :
  remove_all names m !! k = if bool_decide (k ∈ names) then None else m !! k.
Proof.
  unfold remove_all. induction names as [|n rest IH]; [done|]. cbn [foldr].
  destruct (decide (k = n)) as [->|Hne].
  - rewrite lookup_delete_eq. by rewrite bool_decide_eq_true_2 by by left.
  - rewrite lookup_delete_ne, IH by done.
    case_bool_decide as H1; case_bool_decide as H2; try done.
    + exfalso. apply H2. by right.
    + exfalso. apply elem_of_cons in H2 as [?|?]; done.
Qed.

(** X17.  [saveKeys] only ever adds keys.  It calls [buildModelPickers]
    exactly when an input holds a key and the storage accepts the write;
    the inputs are left as they are; an entry of the storage that changes is
    one of the three keys, and it becomes the trimmed value of its input,
    which is not empty and has no space around it: a blank input never
    erases the key that is stored, and with three blank inputs nothing is
    written.  When the storage accepts the write, every input that holds a
    key is stored. *)
Theorem saveKeys_keeps_blank_fields (p : Page) :
  ∃ p',
    saveKeys buildModelPickers host p
    = (if all_blank p || negb (set_ok host) then p' else buildModelPickers p')
    ∧ (apiKeyInput p', geminiKeyInput p', claudeKeyInput p')
      = (apiKeyInput p, geminiKeyInput p, claudeKeyInput p)
    ∧ (∀ k, store p' !! k ≠ store p !! k →
         all_blank p = false ∧ set_ok host = true
         ∧ ∃ input t, (k, input) ∈ fields p ∧ t = trim input
                      ∧ store p' !! k = Some (JStr t) ∧ t ≠ ""%string ∧ trim t = t)
    ∧ (all_blank p = false → set_ok host = true →
       ∀ k input, (k, input) ∈ fields p → trim input ≠ ""%string →
                  store p' !! k = Some (JStr (trim input))).
Proof.
  unfold saveKeys, all_blank, fields. cbn [forallb snd].
  rewrite andb_true_r, andb_assoc.
  destruct (String.eqb (trim (apiKeyInput p)) "" && String.eqb (trim (geminiKeyInput p)) ""
            && String.eqb (trim (claudeKeyInput p)) "") eqn:Hblank; cbn [orb].
  { eexists. split; [reflexivity|]. split; [done|]. split; [done|]. done. }
  set (p1 := if _ && _ then _ else p).
  assert (store p1 = store p) as Hstore by (unfold p1; by case_match).
  assert ((apiKeyInput p1, geminiKeyInput p1, claudeKeyInput p1)
          = (apiKeyInput p, geminiKeyInput p, claudeKeyInput p)) as Hinputs
    by (unfold p1; by case_match).
  destruct (set_ok host); cbn [negb].
  2:{ eexists. split; [reflexivity|]. split; [done|]. split; [|done].
      intros k. cbn [setStatus store]. by rewrite Hstore. }
  eexists. split; [reflexivity|]. split; [done|].
  cbn [setStatus with_store store]. rewrite Hstore. split.
  - intros k. rewrite !put_lookup. intros Hk. split; [done|]. split; [done|].
    repeat case_bool_decide; try done;
      match goal with
      | H : k = _ ∧ trim ?i ≠ _ |- _ =>
          destruct H as [-> Hne]; exists i, (trim i);
          split; [by repeat first [left | right]|]; by rewrite trim_idemp
      end.
  - intros _ _ k input Hin Hne. rewrite !put_lookup.
    apply elem_of_cons in Hin as [[= -> ->]|Hin];
      [|apply elem_of_cons in Hin as [[= -> ->]|Hin];
        [|apply list_elem_of_singleton in Hin as [= -> ->]]];
      repeat case_bool_decide; try done;
      try (by match goal with H : ¬ (_ ∧ _) |- _ => destruct H; by split end);
      by match goal with H : _ = _ ∧ _ |- _ => destruct H as [? _] end.
Qed.

(** X18.  [clearKeys] removes and never writes.  It calls
    [buildModelPickers] exactly when the storage accepts both removals;
    entries other than the three keys and the six model choices (the
    preferences of the popup among them) are left as they are; once the
    first removal is accepted the three keys are gone and the inputs are
    emptied, also when the second removal is then rejected and the status
    reads "Failed to clear keys." while the model choices are still there;
    when the first removal is rejected nothing changes but the status. *)
Theorem clearKeys_spares_preferences (p : Page) :
  ∃ p',
    clearKeys buildModelPickers host p
    = (if remove_ok host 0 && remove_ok host 1 then buildModelPickers p' else p')
    ∧ (∀ k, k ∉ key_names ++ model_names → store p' !! k = store p !! k)
    ∧ (∀ k, store p' !! k = None ∨ store p' !! k = store p !! k)
    ∧ (remove_ok host 0 = true →
       (∀ k, k ∈ key_names → store p' !! k = None)
       ∧ (apiKeyInput p', geminiKeyInput p', claudeKeyInput p')
         = (""%string, ""%string, ""%string))
    ∧ (remove_ok host 0 = true → remove_ok host 1 = true →
       ∀ k, k ∈ model_names → store p' !! k = None)
    ∧ (remove_ok host 0 = true → remove_ok host 1 = false →
       status p' = ("error"%string, "Failed to clear keys."%string)
       ∧ ∀ k, k ∈ model_names → store p' !! k = store p !! k)
    ∧ (remove_ok host 0 = false →
       p' = setStatus "error" "Failed to clear keys." p).
Proof.
  unfold clearKeys.
  destruct (remove_ok host 0); cbn [andb].
  2:{ eexists. split; [reflexivity|]. cbn [setStatus store].
      repeat split; try done. intros k. by right. }
  destruct (remove_ok host 1).
  - eexists. split; [reflexivity|].
    cbn [setStatus with_store store apiKeyInput geminiKeyInput claudeKeyInput].
    split; [|split; [|split; [|split; [|split]]]]; try done.
    + intros k Hk. apply not_elem_of_app in Hk as [Hk1 Hk2].
      by rewrite !remove_all_lookup, !bool_decide_eq_false_2.
    + intros k. rewrite !remove_all_lookup. repeat case_bool_decide; auto.
    + split; [|done]. intros k Hk. rewrite !remove_all_lookup.
      case_bool_decide; [done|]. by rewrite bool_decide_eq_true_2.
    + intros _ _ k Hk. rewrite !remove_all_lookup. by rewrite bool_decide_eq_true_2.
  - eexists. split; [reflexivity|].
    cbn [setStatus with_store store apiKeyInput geminiKeyInput claudeKeyInput status].
    split; [|split; [|split; [|split; [|split]]]]; try done.
    + intros k Hk. apply not_elem_of_app in Hk as [Hk1 Hk2].
      by rewrite !remove_all_lookup, !bool_decide_eq_false_2.
    + intros k. rewrite !remove_all_lookup. repeat case_bool_decide; auto.
    + split; [|done]. intros k Hk. rewrite !remove_all_lookup.
      by rewrite bool_decide_eq_true_2.
    + intros _ _. split; [done|]. intros k Hk. rewrite remove_all_lookup.
      rewrite bool_decide_eq_false_2; [done|].
      intros Hk'. revert Hk Hk'. unfold model_names, key_names.
      rewrite !elem_of_cons, !elem_of_nil. intros H1 H2. destruct_or!; by subst.
Qed.

(** X23.  From the options page to the worker.  When an OpenAI key is
    entered and the storage accepts the write, [getApiKeyOrThrow], reading
    the storage as [saveKeys] leaves it for [buildModelPickers], returns the
    key that was entered, trimmed; and whatever the storage holds, a key
    that [getApiKeyOrThrow] returns is not empty and has no space around
    it. *)
Theorem saved_key_is_read_back (p : Page) :
  set_ok host = true →
  trim (apiKeyInput p) ≠ ""%string →
  (∃ p', saveKeys buildModelPickers host p = buildModelPickers p'
         ∧ getApiKeyOrThrow (inr (store p' !! "apiKey"%string))
           = inr (trim (apiKeyInput p)))
  ∧ (∀ stored key, getApiKeyOrThrow stored = inr key →
                   key ≠ ""%string ∧ trim key = key).
Proof.
  intros Hset Hkey. split.
  - unfold saveKeys. apply String.eqb_neq in Hkey as Hkey'. rewrite Hkey', Hset. simpl.
    eexists. split; [reflexivity|].
    cbn [setStatus with_store store]. rewrite !put_lookup.
    rewrite (bool_decide_eq_false_2 ("apiKey"%string = "claudeKey"%string ∧ _))
      by (by intros [? _]).
    rewrite (bool_decide_eq_false_2 ("apiKey"%string = "geminiKey"%string ∧ _))
      by (by intros [? _]).
    rewrite bool_decide_eq_true_2 by done.
    unfold getApiKeyOrThrow. by rewrite trim_idemp, Hkey'.
  - intros stored key. unfold getApiKeyOrThrow.
    destruct stored as [e|[[]|]]; try done.
    destruct (String.eqb (trim s) "") eqn:Hs; [done|].
    intros [= <-]. apply String.eqb_neq in Hs. split; [done|apply trim_idemp].
Qed.

End KeysFacts.

(** *** [populateSelect] *)

Lemma existsb_value (options : list Item) (v : string) :
  existsb (λ o, String.eqb (item_value o) v) options = true ↔ v ∈ item_value <$> options.
Proof.
  rewrite existsb_exists, list_elem_of_fmap. split.
  - intros (o & Hin & Heq). apply String.eqb_eq in Heq. exists o.
    by rewrite list_elem_of_In.
  - intros (o & -> & Hin). exists o. by rewrite <- list_elem_of_In, String.eqb_refl.
Qed.

(** X24.  [populateSelect] keeps the selection when it can.  The options
    become the items given, in order; what the select reads afterwards is
    the value asked for (else the value it read before) when an option has
    it, the value of the first option when none has, and the empty string
    only when there is no item; so it always reads the value of one of its
    options when it has any, and populating again with the same items and
    no value asked for changes nothing. *)
Theorem populateSelect_keeps_selection (select : Select) (items : list Item)
    (selectedValue : option string) :
  let after := populateSelect select items selectedValue in
  item_value <$> sel_options after = item_value <$> items
  ∧ (default (sel_value select) selectedValue ∈ item_value <$> items →
     sel_value after = default (sel_value select) selectedValue)
  ∧ (default (sel_value select) selectedValue ∉ item_value <$> items →
     sel_value after = default ""%string (head (item_value <$> items)))
  ∧ (items ≠ [] → sel_value after ∈ item_value <$> sel_options after)
  ∧ populateSelect after items None = after.
Proof.
  cbv zeta. unfold populateSelect.
  set (current := default (sel_value select) selectedValue).
  set (options := (λ it, mkItem (item_value it) (Str.or_else (item_label it) (item_value it)))
                    <$> items).
  assert (item_value <$> options = item_value <$> items) as Hvalues.
  { unfold options. rewrite <- list_fmap_compose. by apply list_fmap_ext. }
  assert ((λ it, mkItem (item_value it) (Str.or_else (item_label it) (item_value it)))
            <$> items = options) as Hoptions by done.
  destruct (existsb (λ o, String.eqb (item_value o) current) options) eqn:Hex.
  - pose proof (proj1 (existsb_value options current) Hex) as Hin.
    cbn [sel_options sel_value default]. rewrite Hex.
    split; [done|]. split; [done|]. split; [by rewrite <- Hvalues|]. split; [done|].
    done.
  - assert (current ∉ item_value <$> options) as Hnot.
    { intros H. apply existsb_value in H. by rewrite H in Hex. }
    destruct options as [|o rest] eqn:Ho.
    + cbn [sel_options sel_value default]. rewrite <- Hvalues. simpl.
      split; [done|]. split; [by intros ?%elem_of_nil|]. split; [done|].
      split; [|done]. intros Hne. destruct items; [done|discriminate].
    + cbn [sel_options sel_value default]. rewrite <- Hvalues.
      split; [done|]. split; [done|]. split; [done|]. split; [intros _; by left|].
      simpl. by rewrite String.eqb_refl.
Qed.

End OptionsFacts.

(** * More concrete runs *)

Module MoreRuns.

Import Example Runs Options.

(** A host whose storage rejects every read and whose network is down. *)
Definition locked_env : Env :=
  mkEnv 1000000 1000001
    (fun _ => inl "Error: storage is not available"%string)
    (inr two_tabs)
    (inr [])
    (fun _ => FetchRejects "TypeError: Failed to fetch")
    (fun _ _ => true)
    (fun _ => true)
    (fun i _ => Some (100 + Z.of_nat i)%Z)
    (fun _ _ => true)
    (fun _ _ => true)
    (fun i _ w => Some ((200 + Z.of_nat i)%Z, default 1%Z w))
    (fun _ _ => true)
    (fun _ _ => true)
    true true true
    [].

(** A host on which the shuffle of [createDebugTabs] reversed the urls. *)
Definition reversed_env : Env :=
  mkEnv 1000000 1000001
    (fun _ => inr stored0)
    (inr two_tabs)
    (inr [])
    (fun _ => FetchRejects "TypeError: Failed to fetch")
    (fun _ _ => true)
    (fun _ => true)
    (fun i _ => Some (100 + Z.of_nat i)%Z)
    (fun _ _ => true)
    (fun _ _ => true)
    (fun i _ w => Some ((200 + Z.of_nat i)%Z, default 1%Z w))
    (fun _ _ => true)
    (fun _ _ => true)
    true true true
    (reverse debugUrls).

(** The action in the journal of [closed_one]. *)
Definition one_closed : Action :=
  mkAction TClose [mkClosedMeta "https://a.example" 1 2 false false] [] 5.

(** An answer with a number where the list of tabs to close should be. *)
Definition odd_answer : JsValue :=
  JObj [("tabsToClose", JNum 1); ("reasoning", JStr "none")].

Definition mended_answer : JsValue :=
  JObj [("tabsToClose", JArr [] []); ("reasoning", JStr "none");
        ("tabGroups", JArr [] [])].

(** The answer of a models endpoint: a model listed twice, one that no
    filter keeps, and an id that is no string. *)
Definition models_answer : JsValue :=
  JObj [("data",
         JArr [ JObj [("id", JStr "gpt-4o")];
                JObj [("id", JStr "claude-3-haiku-20240307")];
                JObj [("id", JStr "gpt-4.1")];
                JObj [("id", JStr "whisper-1")];
                JObj [("id", JStr "gpt-4o")];
                JObj [("id", JNum 7)];
                JObj [("name", JStr "claude-x")] ] [])].

(** The answer of the Gemini endpoint, with one model under both never
    names. *)
Definition gemini_answer : JsValue :=
  JObj [("models",
         JArr [ JObj [("name", JStr "models/gemini-pro")];
                JObj [("name", JStr "gemini-pro")];
                JObj [("name", JStr "models/embedding-001")] ] [])].

Definition a_key : option JsValue := Some (JStr "k-123").

(** Every stage complete, for two tabs, one removal and one group. *)
Definition all_done : Popup.Prog := Popup.mkProg 2 2 true true 1 1 1 1 true.

Lemma job_requests_answer_success_witness :
  (∃ s', onMessage RefJson.parse locked_env (A_closeLowImportance None) idle
         = (Ok R_success, s'))
  ∧ last (sent (snd (onMessage RefJson.parse locked_env (A_closeLowImportance None) idle)))
    = Some (P_error "Error: storage is not available").
Proof. split; [by apply job_requests_answer_success | by vm_compute]. Defined.

Lemma undo_replays_the_journal_witness :
  ∃ s' ungrouped reopened,
    undoLastAction groups_env closed_one = (Ok tt, s')
    ∧ host s' = host closed_one ++ (H_ungroup <$> ungrouped) ++ reopened
    ∧ ungrouped `sublist_of` groupedTabIds one_closed
    ∧ Forall (λ c, restores c = true) reopened
    ∧ created_urls reopened `sublist_of` meta_url <$> closedTabs one_closed
    ∧ ((∀ k meta, closedTabs one_closed !! k = Some meta →
                  reopens groups_env k meta = true) →
       created_urls reopened = meta_url <$> closedTabs one_closed).
Proof. apply undo_replays_the_journal; [reflexivity..|discriminate]. Defined.



Lemma close_all_then_undo_reopens_witness :
  ∃ s1 s2 reopened,
    debugCloseAllTabs close3_env idle = (Ok tt, s1)
    ∧ undoLastAction groups_env s1 = (Ok tt, s2)
    ∧ host s2 = host s1 ++ reopened
    ∧ Forall (λ c, restores c = true) reopened
    ∧ created_urls reopened
      = tab_url <$>
          List.filter (λ t, negb (String.eqb (tab_url t) ""))
            (List.filter
               (λ t, bool_decide
                       (Some (tab_id t) ≠ tab_id <$> head (List.filter tab_active three_tabs)))
               three_tabs).
Proof.
  apply close_all_then_undo_reopens; try reflexivity.
  intros k url. by eexists.
Defined.

Lemma ensureArrays_defaults_witness :
  odd_answer ≠ JNull
  ∧ (∀ k, k = "tabsToClose"%string ∨ k = "tabGroups"%string →
       is_object odd_answer = true →
       Js.isArray (Js.get mended_answer k) = true
       ∧ (Js.isArray (Js.get odd_answer k) = true →
          Js.get mended_answer k = Js.get odd_answer k)
       ∧ (Js.isArray (Js.get odd_answer k) = false →
          Js.get mended_answer k = Some (JArr [] [])))
  ∧ (∀ k, k ≠ "tabsToClose"%string → k ≠ "tabGroups"%string →
       Js.get mended_answer k = Js.get odd_answer k)
  ∧ (is_object odd_answer = false → mended_answer = odd_answer).
Proof. apply ensureArrays_defaults. reflexivity. Defined.


Lemma gemini_organizer_is_generic_witness :
  organizeTabsGeneric RefJson.parse groups_env "Gemini" "gemini-1.5-flash"
    (mkKeys None (Some "k-123"%string) None) 5 true idle
  = organizeTabsWithGemini RefJson.parse groups_env (Some "k-123"%string) 5 true idle.
Proof. apply gemini_organizer_is_generic. reflexivity. Defined.

Lemma job_ends_on_one_terminal_message_witness :
  ∃ s' msgs final,
    run_pipeline RefJson.parse groups_env (CloseOnly no_settings) idle = (Ok tt, s')
    ∧ sent s' = sent idle ++ msgs ++ [final]
    ∧ head msgs = Some P_start
    ∧ Forall (λ m, is_terminal m = false) msgs
    ∧ is_terminal final = true.
Proof.
  apply (job_ends_on_one_terminal_message RefJson.parse groups_env (CloseOnly no_settings)).
  reflexivity.
Defined.

Lemma popup_runs_until_the_end_witness :
  ∃ s' msgs final,
    run_pipeline RefJson.parse groups_env Undo closed_one = (Ok tt, s')
    ∧ sent s' = sent closed_one ++ msgs ++ [final]
    ∧ (∀ pre, pre `prefix_of` msgs →
         Popup.running (Popup.prog (Popup.run (click_of Undo Popup.initial) pre)) = true)
    ∧ Popup.running
        (Popup.prog (Popup.run (click_of Undo Popup.initial) (msgs ++ [final])))
      = false.
Proof. apply popup_runs_until_the_end; reflexivity. Defined.

Lemma truncate_bounded_witness :
  (length (truncate nat 0%nat [1; 2; 3; 4; 5]%nat 3) ≤ 3)%nat
  ∧ ((length [1; 2; 3; 4; 5]%nat ≤ 3)%nat
     → truncate nat 0%nat [1; 2; 3; 4; 5]%nat 3 = [1; 2; 3; 4; 5]%nat)
  ∧ ((3 < length [1; 2; 3; 4; 5]%nat)%nat →
     length (truncate nat 0%nat [1; 2; 3; 4; 5]%nat 3) = 3%nat
     ∧ take (3 - 1) (truncate nat 0%nat [1; 2; 3; 4; 5]%nat 3)
       = take (3 - 1) [1; 2; 3; 4; 5]%nat
     ∧ last (truncate nat 0%nat [1; 2; 3; 4; 5]%nat 3) = Some 0%nat)
  ∧ truncate nat 0%nat (truncate nat 0%nat [1; 2; 3; 4; 5]%nat 3) 3
    = truncate nat 0%nat [1; 2; 3; 4; 5]%nat 3.
Proof. apply truncate_bounded. lia. Defined.

Lemma models_are_listed_once_witness :
  item_value <$> fetchOpenAIModels (M_Data models_answer) a_key = ["gpt-4.1"; "gpt-4o"]%string
  ∧ item_value <$> fetchClaudeModels (M_Data models_answer) a_key
    = ["claude-3-haiku-20240307"; "claude-x"]%string
  ∧ NoDup (item_value <$> fetchOpenAIModels (M_Data models_answer) a_key)
  ∧ StronglySorted String.le (item_value <$> fetchOpenAIModels (M_Data models_answer) a_key).
Proof.
  split; [by vm_compute|]. split; [by vm_compute|].
  destruct (OptionsFacts.models_are_listed_once (M_Data models_answer) a_key models_answer
              (default [] (entries models_answer "data")))
    as (H1 & _ & H2 & _); try reflexivity; [|done].
  intros H. apply list_elem_of_In in H. vm_compute in H. by destruct_or!.
Defined.

Lemma gemini_models_are_stripped_witness :
  (∃ names,
     fetchGeminiModels (M_Data gemini_answer) a_key
     = (λ id, mkItem (strip_models id) (strip_models id)) <$> names
     ∧ NoDup names
     ∧ StronglySorted String.le names
     ∧ (∀ n, n ∈ names ↔ Str.includes "gemini" n = true
                         ∧ ∃ m, m ∈ default [] (entries gemini_answer "models")
                                ∧ Js.get m "name" = Some (JStr n))
     ∧ Forall (λ it, Str.includes "gemini" (item_value it) = true
                     ∧ item_label it = item_value it)
         (fetchGeminiModels (M_Data gemini_answer) a_key))
  ∧ item_value <$> fetchGeminiModels (M_Data gemini_answer) a_key
    = ["gemini-pro"; "gemini-pro"]%string.
Proof.
  split; [|by vm_compute].
  apply (OptionsFacts.gemini_models_are_stripped (M_Data gemini_answer) a_key gemini_answer);
    try reflexivity.
  intros H. apply list_elem_of_In in H. vm_compute in H. by destruct_or!.
Defined.

(** The options page with an OpenAI key typed between spaces, on a
    storage that accepts every call. *)
Definition typed_page : Page := mkPage "  sk-abc123 " "" "" ("", "") ∅.

Definition willing_host : Host := mkHost true (fun _ => true).

Lemma saved_key_is_read_back_witness :
  (∃ p', saveKeys id willing_host typed_page = id p'
         ∧ getApiKeyOrThrow (inr (store p' !! "apiKey"%string))
           = inr (trim (apiKeyInput typed_page)))
  ∧ (∀ stored key, getApiKeyOrThrow stored = inr key →
                   key ≠ ""%string ∧ trim key = key)
  ∧ trim (apiKeyInput typed_page) = "sk-abc123"%string.
Proof.
  split; [|split]; [| |by vm_compute];
    apply (OptionsFacts.saved_key_is_read_back id willing_host typed_page);
    by vm_compute.
Defined.

Lemma debug_tabs_are_ten_at_most_witness :
  take 18 (shuffled reversed_env) = shuffled reversed_env
  ∧ ∃ s' calls,
      createDebugTabs reversed_env idle = (Ok tt, s')
      ∧ s' = extend idle [] calls
      ∧ Forall (λ c, is_create c = true) calls
      ∧ (length calls ≤ 10)%nat
      ∧ created_urls calls `sublist_of` shuffled reversed_env
      ∧ ((∀ k url, is_Some (tabs_create reversed_env k url None)) →
         created_urls calls = shuffled reversed_env ∧ created_urls calls ≡ₚ debugUrls).
Proof.
  apply debug_tabs_are_ten_at_most; [apply reverse_Permutation | lia].
Defined.


End MoreRuns.
